(** * knack: output formatting and help model

    A shallow embedding of [clicore/output.py] (the table and TSV
    formatters and the output producer) and of [knack/help.py] (the help
    document model, the argument group registry and the ordering of the
    argument listing), with the properties stated about them.

    Conventions.  Python text is a [string] of ASCII characters compared
    by code point; [upper], [lower] and [strip] act on the ASCII range.
    A function that may raise returns a [pyres]; an object that is
    mutated is passed in and handed back.  Mappings that remember their
    order (dict items, [OrderedDict]) are association lists; the priority
    dictionary of the group registry is a [gmap]. *)

From Stdlib Require Import ZArith NArith Ascii String List Bool Lia.
From Stdlib Require Import Permutation Sorted.
From stdpp Require Import base option list sorting gmap strings.

#[local] Set Warnings "-register-all".

(* ===================================================================== *)
(** ** Python values, text and exceptions *)
(* ===================================================================== *)

Module Py.

(** Exceptions raised or let through by the modelled code. *)
Inductive exn : Type :=
| AttributeError
| IndexError
| KeyError (key : string)
| StopIteration
| TypeError (msg : string)
| ValueError (msg : string)
| IOError (errno : Z)
| UnicodeEncodeError
| CLIError (msg : string)
| HelpAuthoringException (msg : string)
| OtherException (name : string).

Inductive pyres (A : Type) : Type :=
| Ok (a : A)
| Raise (e : exn).
Arguments Ok {A} a.
Arguments Raise {A} e.

(** Sequencing: the first exception ends the computation. *)
#[global] Instance pyres_ret : MRet pyres := fun A a => Ok a.
#[global] Instance pyres_bind : MBind pyres := fun A B k r =>
  match r with
  | Ok a => k a
  | Raise e => Raise e
  end.

#[global] Instance pyres_fmap : FMap pyres := fun A B f r =>
  match r with
  | Ok a => Ok (f a)
  | Raise e => Raise e
  end.

(** [for x in xs: acc = step(acc, x)], stopping at the first exception. *)
Fixpoint for_each {A S} (step : S -> A -> pyres S) (xs : list A) (acc : S)
  : pyres S :=
  match xs with
  | [] => Ok acc
  | x :: xs' => acc' ← step acc x; for_each step xs' acc'
  end.

(** A list comprehension [[f(x) for x in xs]] whose body may raise. *)
Fixpoint map_result {A B} (f : A -> pyres B) (xs : list A) : pyres (list B) :=
  match xs with
  | [] => Ok []
  | x :: xs' => y ← f x; ys ← map_result f xs'; Ok (y :: ys)
  end.

(** *** Characters and text *)

Definition in_range (lo hi : N) (c : ascii) : bool :=
  let n := N_of_ascii c in (lo <=? n)%N && (n <=? hi)%N.

(** [c.upper()] and [c.lower()] on one ASCII character. *)
Definition upper_char (c : ascii) : ascii :=
  if in_range 97 122 c then ascii_of_N (N_of_ascii c - 32) else c.

Definition lower_char (c : ascii) : ascii :=
  if in_range 65 90 c then ascii_of_N (N_of_ascii c + 32) else c.

(** [c.isspace()]: tab, line feed, vertical tab, form feed, carriage
    return, the four separators 0x1c-0x1f and the space. *)
Definition isspace (c : ascii) : bool :=
  in_range 9 13 c || in_range 28 32 c.

Fixpoint lower (s : string) : string :=
  match s with
  | EmptyString => EmptyString
  | String c s' => String (lower_char c) (lower s')
  end.

Fixpoint lstrip (s : string) : string :=
  match s with
  | EmptyString => EmptyString
  | String c s' => if isspace c then lstrip s' else s
  end.

Fixpoint rstrip (s : string) : string :=
  match s with
  | EmptyString => EmptyString
  | String c s' =>
      match rstrip s' with
      | EmptyString => if isspace c then EmptyString else String c EmptyString
      | r => String c r
      end
  end.

(** [s.strip()] *)
Definition strip (s : string) : string := rstrip (lstrip s).

(** [s[0]] of a text, [None] when it is empty (where Python raises). *)
Definition first_char (s : string) : option ascii :=
  match s with
  | EmptyString => None
  | String c _ => Some c
  end.

(** [s[-1]] *)
Fixpoint last_char (s : string) : option ascii :=
  match s with
  | EmptyString => None
  | String c EmptyString => Some c
  | String _ s' => last_char s'
  end.

(** [sep.join(parts)] *)
Definition join (sep : string) (parts : list string) : string :=
  String.concat sep parts.

(** [s.split()]: the words of [s], separated by runs of white space. *)
Fixpoint split_from (word : string) (s : string) : list string :=
  let flush := match word with EmptyString => [] | _ => [word] end in
  match s with
  | EmptyString => flush
  | String c s' =>
      if isspace c then flush ++ split_from EmptyString s'
      else split_from (word +:+ String c EmptyString) s'
  end.

Definition split (s : string) : list string := split_from EmptyString s.

(** *** Decimal text of numbers *)

Definition digit_char (d : N) : ascii := ascii_of_N (48 + d).

Fixpoint digits (fuel : nat) (n : N) : string :=
  match fuel with
  | O => EmptyString
  | S fuel' =>
      if (n <? 10)%N then String (digit_char n) EmptyString
      else digits fuel' (n / 10) +:+ String (digit_char (n mod 10)) EmptyString
  end.

(** [str(n)] for a natural number: a number has no more decimal digits
    than binary ones. *)
Definition str_N (n : N) : string := digits (S (N.to_nat (N.log2 n))) n.

(** [str(b)] for a boolean. *)
Definition str_bool (b : bool) : string := if b then "True" else "False".

(** [str(z)] for an integer. *)
Definition str_Z (z : Z) : string :=
  match z with
  | Zneg p => String "-"%char (str_N (Npos p))
  | _ => str_N (Z.to_N z)
  end.

Fixpoint zeros (k : nat) : string :=
  match k with
  | O => EmptyString
  | S k' => String "0"%char (zeros k')
  end.

(** ["%06d" % n] for [n >= 0]: zero-padded on the left to six characters,
    longer when the number needs more. *)
Definition format_06d (n : N) : string :=
  let s := str_N n in zeros (6 - String.length s) +:+ s.

(** *** Sorting *)

(** [sorted(xs, key=key)] with text keys.  Python's sort is stable: among
    elements of equal key the earlier one stays first. *)
Section Sorted.
Context {A : Type} (key : A -> string).

Fixpoint insert_sorted (x : A) (l : list A) : list A :=
  match l with
  | [] => [x]
  | y :: l' =>
      if String.leb (key x) (key y) then x :: l
      else y :: insert_sorted x l'
  end.

Fixpoint sorted (l : list A) : list A :=
  match l with
  | [] => []
  | x :: l' => insert_sorted x (sorted l')
  end.
End Sorted.

(** *** Values *)

Inductive pyclass : Type := ClsSet | ClsObject.

(** The values a command result is made of.  [PDict true] is an
    [OrderedDict], [PDict false] a plain [dict]; both list their items in
    iteration order.  [POther] is an object of any other class (a set, a
    float, a date), given by what the formatters observe of it: whether
    it is a set, its truth value and its [str()]. *)
Inductive pyval : Type :=
| PNone
| PBool (b : bool)
| PInt (z : Z)
| PStr (s : string)
| PList (items : list pyval)
| PDict (ordered : bool) (items : list (string * pyval))
| POther (cls : pyclass) (truth : bool) (text : string).

(** Truth value of [v] in a condition. *)
Definition truthy (v : pyval) : bool :=
  match v with
  | PNone => false
  | PBool b => b
  | PInt z => negb (z =? 0)%Z
  | PStr s => negb (String.eqb s EmptyString)
  | PList items => match items with [] => false | _ => true end
  | PDict _ items => match items with [] => false | _ => true end
  | POther _ truth _ => truth
  end.

(** [d[k]] on the items of a mapping. *)
Fixpoint getitem (k : string) (items : list (string * pyval)) : pyres pyval :=
  match items with
  | [] => Raise (KeyError k)
  | (k', v) :: items' => if String.eqb k' k then Ok v else getitem k items'
  end.

End Py.

(* ===================================================================== *)
(** ** clicore/output.py *)
(* ===================================================================== *)

Module Output.
Import Py.

(** [CommandResultItem]: a result with its rendering hints. *)
Record CommandResultItem : Type := {
  result : pyval;
  table_transformer : option (pyval -> pyres pyval);
  is_query_active : bool
}.

(** [result if isinstance(result, list) else [result]] *)
Definition result_list (result : pyval) : list pyval :=
  match result with
  | PList items => items
  | _ => [result]
  end.

(** *** Table output *)

(** An [OrderedDict] with text keys: the columns of one table row. *)
Definition entry : Type := list (string * pyval).

(** [e[k] = v]: a key already present keeps its place. *)
Fixpoint od_set (k : string) (v : pyval) (e : entry) : entry :=
  match e with
  | [] => [(k, v)]
  | (k', v') :: e' =>
      if String.eqb k' k then (k, v) :: e' else (k', v') :: od_set k v e'
  end.

(** What [_auto_table] returns: a list of entries for a list, one entry
    for anything else. *)
Inductive table_data : Type :=
| Rows (rows : list entry)
| Single (row : entry).

Definition SKIP_KEYS : list string := ["id"; "type"; "etag"].

Definition _capitalize_first_char (x : string) : string :=
  match x with
  | EmptyString => x
  | String c rest => String (upper_char c) rest
  end.

(** [isinstance(v, (list, dict, set))] *)
Definition is_list_dict_set (v : pyval) : bool :=
  match v with
  | PList _ | PDict _ _ | POther ClsSet _ _ => true
  | _ => false
  end.

(** [sorted(item) if should_sort_keys and isinstance(item, dict) else
    item.keys()]: only a mapping has [keys]. *)
Definition item_keys (should_sort_keys : bool) (item : pyval)
  : pyres (list string) :=
  match item with
  | PDict _ items =>
      Ok (if should_sort_keys then sorted id (map fst items) else map fst items)
  | _ => Raise AttributeError
  end.

(** [item[k]] *)
Definition item_get (item : pyval) (k : string) : pyres pyval :=
  match item with
  | PDict _ items => getitem k items
  | _ => Raise (TypeError "not subscriptable")
  end.

(** The body of the loop over the keys of a mapping. *)
Definition add_column (item : pyval) (new_entry : entry) (k : string)
  : pyres entry :=
  if bool_decide (k ∈ SKIP_KEYS) then Ok new_entry
  else
    v ← item_get item k;
    if truthy v && negb (is_list_dict_set v)
    then Ok (od_set (_capitalize_first_char k) v new_entry)
    else Ok new_entry.

(** [for col, val in enumerate(item): new_entry['Column{}'.format(col + 1)] = val] *)
Fixpoint add_positional (col : nat) (vals : list pyval) (new_entry : entry)
  : entry :=
  match vals with
  | [] => new_entry
  | val :: vals' =>
      add_positional (S col) vals'
        (od_set ("Column" +:+ str_N (N.of_nat (col + 1))) val new_entry)
  end.

Definition _auto_table_item (should_sort_keys : bool) (item : pyval)
  : pyres entry :=
  let new_entry : entry := [] in
  match (keys ← item_keys should_sort_keys item;
         for_each (add_column item) keys new_entry) with
  | Raise AttributeError =>
      (* handles odd cases where a string/bool/etc. is returned *)
      match item with
      | PList vals => Ok (add_positional 0 vals new_entry)
      | _ => Ok (od_set "Result" item new_entry)
      end
  | r => r
  end.

Definition _auto_table (should_sort_keys : bool) (result : pyval)
  : pyres table_data :=
  match result with
  | PList items => Rows <$> map_result (_auto_table_item should_sort_keys) items
  | _ => Single <$> _auto_table_item should_sort_keys result
  end.

(** Truth value of the table data. *)
Definition table_truthy (t : table_data) : bool :=
  match t with
  | Rows [] | Single [] => false
  | _ => true
  end.

Definition newline : string := String "010"%char EmptyString.
Definition tab : string := String "009"%char EmptyString.

Section Table.
(** [tabulate(table_data, headers="keys", tablefmt="simple")] of the
    tabulate library. *)
Variable tabulate : table_data -> pyres string.

(** [_TableOutput(should_sort_keys).dump(data)] *)
Definition table_dump (should_sort_keys : bool) (data : list pyval)
  : pyres string :=
  table_data ← _auto_table should_sort_keys (PList data);
  table_str ← (if table_truthy table_data then tabulate table_data
               else Ok EmptyString);
  if String.eqb table_str newline
  then Raise (ValueError "Unable to extract fields for table.")
  else Ok (table_str +:+ newline).

Definition table_unavailable : exn :=
  CLIError ("Table output unavailable. "
            +:+ "Use the --query option to specify an appropriate query. "
            +:+ "Use --debug for more info.").

(** [_format_table]: the exceptions logged at debug level, and the text
    returned or the exception raised. *)
Definition _format_table (obj : CommandResultItem)
  : list exn * pyres string :=
  let result := result obj in
  let attempt : pyres string :=
    result ← match table_transformer obj with
             | Some transform =>
                 if negb (is_query_active obj) then transform result
                 else Ok result
             | None => Ok result
             end;
    let result_list := result_list result in
    let should_sort_keys :=
      negb (is_query_active obj)
      && negb (bool_decide (is_Some (table_transformer obj))) in
    table_dump should_sort_keys result_list in
  match attempt with
  | Ok text => ([], Ok text)
  | Raise e => ([e], Raise table_unavailable)
  end.
End Table.

(** *** TSV output *)

(** [stream.write(text)] on a [StringIO] *)
Definition write (stream text : string) : string := stream +:+ text.

Definition _dump_obj (data : pyval) (stream : string) : string :=
  match data with
  | PList items => write stream (str_N (N.of_nat (length items)))
  | PDict _ _ =>
      (* something is printed to avoid mismatching the number of columns *)
      write stream EmptyString
  | PStr s => write stream s
  | PNone => write stream "None"
  | PBool b => write stream (str_bool b)
  | PInt z => write stream (str_Z z)
  | POther _ _ text => write stream text
  end.

(** The loop over the values of a row, with its separator. *)
Fixpoint dump_values (values : list pyval) (separator : string)
  (stream : string) : string :=
  match values with
  | [] => stream
  | value :: values' =>
      dump_values values' tab (_dump_obj value (write stream separator))
  end.

Definition _dump_row (data : pyval) (stream : string) : string :=
  let stream :=
    match data with
    | PDict true items => dump_values (map snd items) EmptyString stream
    | PDict false items =>
        dump_values (map snd (sorted fst items)) EmptyString stream
    | PList values => dump_values values EmptyString stream
    | PBool b => _dump_obj (PStr (lower (str_bool b))) stream
    | _ => _dump_obj data stream
    end in
  write stream newline.

(** [_TsvOutput.dump] *)
Definition tsv_dump (data : list pyval) : string :=
  fold_left (fun io item => _dump_row item io) data EmptyString.

Definition _format_tsv (obj : CommandResultItem) : string :=
  let result := result obj in
  let result_list := result_list result in
  tsv_dump result_list.

(** *** The output producer *)

(** The argument of [out]: a [CommandResultItem] or anything else. *)
Inductive argument : Type :=
| Item (obj : CommandResultItem)
| NotItem (v : pyval).

Definition EPIPE : Z := 32.

(** [text.encode('ascii', 'ignore').decode('utf-8', 'ignore')] *)
Fixpoint ascii_ignore (text : string) : string :=
  match text with
  | EmptyString => EmptyString
  | String c text' =>
      if (N_of_ascii c <? 128)%N then String c (ascii_ignore text')
      else ascii_ignore text'
  end.

Section Producer.
(** The output file, with [print(text, file=f, end='')] on it, and the
    platform with its console adapter. *)
Context {stream : Type}.
Variable print : stream -> string -> stream * pyres unit.
Variable windows : bool.
Variable AnsiToWin32 : stream -> stream.

Record OutputProducer : Type := {
  formatter : CommandResultItem -> pyres string;
  file : stream
}.

Definition with_file (self : OutputProducer) (f : stream) : OutputProducer :=
  {| formatter := formatter self; file := f |}.

Definition out (self : OutputProducer) (obj : argument)
  : OutputProducer * pyres unit :=
  match obj with
  | NotItem _ => (self, Raise (TypeError "Expected CommandResultItem"))
  | Item obj =>
      let self :=
        if windows then with_file self (AnsiToWin32 (file self)) else self in
      match formatter self obj with
      | Raise e => (self, Raise e)
      | Ok output =>
          match print (file self) output with
          | (f, Raise (IOError errno)) =>
              if (errno =? EPIPE)%Z then (with_file self f, Ok tt)
              else (with_file self f, Raise (IOError errno))
          | (f, Raise UnicodeEncodeError) =>
              let (f', r) := print f (ascii_ignore output) in
              (with_file self f', r)
          | (f, r) => (with_file self f, r)
          end
      end
  end.
End Producer.

(** *** Instances of the environment

    A layout in the manner of tabulate's simple format for a list of
    entries with scalar cells, and a text file with an encoding.  They
    stand for the library and for the output file where a concrete one is
    needed; the properties below are stated for every layout and every
    file. *)

(** The text of a cell; a missing value is an empty cell. *)
Definition cell_text (v : pyval) : pyres string :=
  match v with
  | PNone => Ok EmptyString
  | PBool b => Ok (str_bool b)
  | PInt z => Ok (str_Z z)
  | PStr s => Ok s
  | POther _ _ text => Ok text
  | PList _ | PDict _ _ => Raise (OtherException "nested cell")
  end.

(** [headers="keys"]: the keys of the entries, each once, in the order in
    which they first appear. *)
Fixpoint add_keys (keys : list string) (headers : list string) : list string :=
  match keys with
  | [] => headers
  | k :: keys' =>
      add_keys keys' (if bool_decide (k ∈ headers) then headers else headers ++ [k])
  end.

Definition table_headers (rows : list entry) : list string :=
  fold_left (fun headers row => add_keys (map fst row) headers) rows [].

Definition entry_get (k : string) (row : entry) : pyval :=
  match getitem k row with
  | Ok v => v
  | Raise _ => PNone
  end.

Fixpoint repeat_char (c : ascii) (k : nat) : string :=
  match k with
  | O => EmptyString
  | S k' => String c (repeat_char c k')
  end.

Definition pad_right (width : nat) (s : string) : string :=
  s +:+ repeat_char " "%char (width - String.length s).

Definition column_width (h : string) (cells : list string) : nat :=
  fold_left Nat.max (map String.length cells) (String.length h).

Definition layout_line (widths : list nat) (cells : list string) : string :=
  rstrip (join "  " (zip_with pad_right widths cells)).

(** Modelled from the spec: the layout of the tabulate library, which is
    not among the sources: a header row of the keys, a rule, and one line
    for each entry, columns padded to a common width; the line-feed text
    for rows without any column, which is what [dump] tests for. *)
Definition simple_layout (t : table_data) : pyres string :=
  match t with
  | Single _ => Raise (TypeError "not a list of entries")
  | Rows [] => Ok EmptyString
  | Rows rows =>
      let headers := table_headers rows in
      body ← map_result
               (fun row => map_result (fun h => cell_text (entry_get h row)) headers)
               rows;
      match headers with
      | [] => Ok newline
      | _ =>
          let widths :=
            imap (fun i h => column_width h (map (fun cells => nth i cells EmptyString) body))
                 headers in
          let rule := join "  " (map (repeat_char "-"%char) widths) in
          Ok (join newline
                (layout_line widths headers :: rule :: map (layout_line widths) body))
      end
  end.

(** A text file: what was written to it, the characters its encoding
    has, and the I/O error every write to it meets, if any. *)
Record text_file : Type := {
  written : string;
  encodable : ascii -> bool;
  io_error : option Z
}.

Fixpoint all_chars (p : ascii -> bool) (s : string) : bool :=
  match s with
  | EmptyString => true
  | String c s' => p c && all_chars p s'
  end.

Definition text_print (f : text_file) (text : string) : text_file * pyres unit :=
  if all_chars (encodable f) text then
    match io_error f with
    | Some errno => (f, Raise (IOError errno))
    | None =>
        ({| written := written f +:+ text;
            encodable := encodable f;
            io_error := None |}, Ok tt)
    end
  else (f, Raise UnicodeEncodeError).

End Output.

(* ===================================================================== *)
(** ** knack/help.py *)
(* ===================================================================== *)

Module Help.
Import Py.

Definition FIRST_LINE_PREFIX : string := ": ".

(** *** ArgumentGroupRegistry *)

Record ArgumentGroupRegistry : Type := {
  priorities : gmap (option string) N
}.

(** [sorted(list(set(group_list)))] *)
Definition distinct_sorted (group_list : list string) : list string :=
  sorted id (elements (list_to_set group_list : gset string)).

(** The groups not already in the static dictionary, alphabetically. *)
Definition other_groups (priorities : gmap (option string) N)
  (group_list : list string) : list string :=
  List.filter (fun g => bool_decide (priorities !! Some g = None))
              (distinct_sorted group_list).

(** [for group in other_groups: priorities[group] = priority; priority += 1] *)
Fixpoint assign_priorities (groups : list string) (priority : N)
  (priorities : gmap (option string) N) : gmap (option string) N :=
  match groups with
  | [] => priorities
  | group :: groups' =>
      assign_priorities groups' (priority + 1)
        (<[Some group := priority]> priorities)
  end.

Definition static_priorities : gmap (option string) N :=
  {[ None := 0%N; Some "Global Arguments" := 1000%N ]}.

(** [ArgumentGroupRegistry(group_list)] *)
Definition new_registry (group_list : list string) : ArgumentGroupRegistry :=
  let priorities := static_priorities in
  let priority := 2%N in
  let other_groups := other_groups priorities group_list in
  {| priorities := assign_priorities other_groups priority priorities |}.

(** [self.priorities.get(group_name, 0)] *)
Definition priority_of (self : ArgumentGroupRegistry) (group_name : option string)
  : N :=
  default 0%N (priorities self !! group_name).

Definition get_group_priority (self : ArgumentGroupRegistry)
  (group_name : option string) : string :=
  format_06d (priority_of self group_name).

(** *** HelpObject *)

(** [s[0]] and [s[-1]], raising on the empty text. *)
Definition char_at_0 (s : string) : pyres ascii :=
  match first_char s with
  | Some c => Ok c
  | None => Raise IndexError
  end.

Definition char_at_last (s : string) : pyres ascii :=
  match last_char s with
  | Some c => Ok c
  | None => Raise IndexError
  end.

(** [s[1:]] *)
Definition from_1 (s : string) : string :=
  match s with
  | EmptyString => EmptyString
  | String _ s' => s'
  end.

(** [c in '.!?'] *)
Definition is_terminator (c : ascii) : bool :=
  bool_decide (c ∈ ["."%char; "!"%char; "?"%char]).

Definition _normalize_text (s : option string) : pyres string :=
  match s with
  | None => Ok EmptyString
  | Some s =>
      if String.eqb s EmptyString || (String.length s <? 2)%nat then Ok s
      else
        let s := strip s in
        c ← char_at_0 s;
        let initial_upper := String (upper_char c) (from_1 s) in
        l ← char_at_last s;
        let trailing_period := if is_terminator l then EmptyString else "." in
        Ok (initial_upper +:+ trailing_period)
  end.

(** The two stored summaries of a help object, as its subclasses hold
    them. *)
Class HelpObject (T : Type) : Type := {
  _short_summary : T -> string;
  _long_summary : T -> string;
  store_short_summary : string -> T -> T;
  store_long_summary : string -> T -> T;
  short_of_store_short v o : _short_summary (store_short_summary v o) = v;
  long_of_store_long v o : _long_summary (store_long_summary v o) = v;
  short_of_store_long v o : _short_summary (store_long_summary v o) = _short_summary o;
  long_of_store_short v o : _long_summary (store_short_summary v o) = _long_summary o
}.

(** The setters of the [short_summary] and [long_summary] properties. *)
Definition set_short_summary {T} `{HelpObject T} (value : option string) (self : T)
  : pyres T :=
  text ← _normalize_text value; Ok (store_short_summary text self).

Definition set_long_summary {T} `{HelpObject T} (value : option string) (self : T)
  : pyres T :=
  text ← _normalize_text value; Ok (store_long_summary text self).

(** *** HelpExample, HelpParameter *)

Record HelpExample : Type := {
  example_name : string;
  example_text : string
}.

Record HelpParameter : Type := {
  name : string;
  required : bool;
  param_type : string;
  param_short_summary : string;
  param_long_summary : string;
  value_sources : list string;
  choices : option (list string);
  default_value : pyval;
  group_name : option string
}.

#[global, refine] Instance HelpParameter_object : HelpObject HelpParameter := {|
  _short_summary := param_short_summary;
  _long_summary := param_long_summary;
  store_short_summary v p :=
    {| name := name p; required := required p; param_type := param_type p;
       param_short_summary := v; param_long_summary := param_long_summary p;
       value_sources := value_sources p; choices := choices p;
       default_value := default_value p; group_name := group_name p |};
  store_long_summary v p :=
    {| name := name p; required := required p; param_type := param_type p;
       param_short_summary := param_short_summary p; param_long_summary := v;
       value_sources := value_sources p; choices := choices p;
       default_value := default_value p; group_name := group_name p |}
|}.
Proof. all: reflexivity. Defined.

Definition with_param_type (t : string) (p : HelpParameter) : HelpParameter :=
  {| name := name p; required := required p; param_type := t;
     param_short_summary := param_short_summary p;
     param_long_summary := param_long_summary p;
     value_sources := value_sources p; choices := choices p;
     default_value := default_value p; group_name := group_name p |}.

Definition with_value_sources (vs : list string) (p : HelpParameter)
  : HelpParameter :=
  {| name := name p; required := required p; param_type := param_type p;
     param_short_summary := param_short_summary p;
     param_long_summary := param_long_summary p;
     value_sources := vs; choices := choices p;
     default_value := default_value p; group_name := group_name p |}.

Definition with_group_name (g : option string) (p : HelpParameter)
  : HelpParameter :=
  {| name := name p; required := required p; param_type := param_type p;
     param_short_summary := param_short_summary p;
     param_long_summary := param_long_summary p;
     value_sources := value_sources p; choices := choices p;
     default_value := default_value p; group_name := g |}.

(** [HelpParameter(param_name, description, required, choices, default,
    group_name)] *)
Definition new_HelpParameter (param_name : string) (description : option string)
  (required : bool) (choices : option (list string)) (default : pyval)
  (group_name : option string) : pyres HelpParameter :=
  let self :=
    {| name := param_name; required := required; param_type := "string";
       param_short_summary := EmptyString; param_long_summary := EmptyString;
       value_sources := []; choices := choices; default_value := default;
       group_name := group_name |} in
  self ← set_short_summary description self;
  self ← set_long_summary (Some EmptyString) self;
  Ok self.

(** *** Override data

    The document an override source gives for a command: a plain text, or
    a mapping with the keys below, each present or not. *)

Record ExampleData : Type := {
  ed_name : option string;
  ed_text : option string
}.

Record ParamData : Type := {
  pd_name : option string;
  pd_type : option string;
  pd_short_summary : option string;
  pd_long_summary : option string;
  pd_populator_commands : option (list string)
}.

Record DocData : Type := {
  dd_type : option string;
  dd_short_summary : option string;
  dd_long_summary : option string;
  dd_examples : option (list ExampleData);
  dd_parameters : option (list ParamData)
}.

Inductive HelpData : Type :=
| DataStr (text : string)
| DataDoc (doc : DocData).

(** Truth value of an optional text ([data.get(key)] in a condition) and
    of an optional list. *)
Definition text_truthy (v : option string) : bool :=
  match v with
  | Some (String _ _) => true
  | _ => false
  end.

Definition list_truthy {A} (v : option (list A)) : bool :=
  match v with
  | Some (_ :: _) => true
  | _ => false
  end.

(** Truth value of the data: a text that is not empty, a mapping with at
    least one key. *)
Definition data_truthy (data : HelpData) : bool :=
  match data with
  | DataStr text => negb (String.eqb text EmptyString)
  | DataDoc d =>
      bool_decide (is_Some (dd_type d)) || bool_decide (is_Some (dd_short_summary d))
      || bool_decide (is_Some (dd_long_summary d))
      || bool_decide (is_Some (dd_examples d))
      || bool_decide (is_Some (dd_parameters d))
  end.

(** [d[key]] of a key that may be missing. *)
Definition required_key {A} (key : string) (v : option A) : pyres A :=
  match v with
  | Some a => Ok a
  | None => Raise (KeyError key)
  end.

(** [HelpExample(_data)] *)
Definition new_HelpExample (_data : ExampleData) : pyres HelpExample :=
  n ← required_key "name" (ed_name _data);
  t ← required_key "text" (ed_text _data);
  Ok {| example_name := n; example_text := t |}.

(** [HelpParameter.update_from_data] *)
Definition update_from_data (self : HelpParameter) (data : ParamData)
  : pyres HelpParameter :=
  if negb (bool_decide (Some (name self) = pd_name data)) then
    Raise (HelpAuthoringException
             ("mismatched name " +:+ name self +:+ " vs. "
              +:+ default "None" (pd_name data)))
  else
    let self :=
      if text_truthy (pd_type data)
      then with_param_type (default EmptyString (pd_type data)) self else self in
    self ← (if text_truthy (pd_short_summary data)
            then set_short_summary (pd_short_summary data) self else Ok self);
    self ← (if text_truthy (pd_long_summary data)
            then set_long_summary (pd_long_summary data) self else Ok self);
    Ok (if list_truthy (pd_populator_commands data)
        then with_value_sources (default [] (pd_populator_commands data)) self
        else self).

(** *** HelpFile *)

Record HelpFile : Type := {
  delimiters : string;
  file_name : string;
  command : string;
  file_type : string;
  file_short_summary : string;
  file_long_summary : string;
  examples : list HelpExample
}.

#[global, refine] Instance HelpFile_object : HelpObject HelpFile := {|
  _short_summary := file_short_summary;
  _long_summary := file_long_summary;
  store_short_summary v h :=
    {| delimiters := delimiters h; file_name := file_name h; command := command h;
       file_type := file_type h; file_short_summary := v;
       file_long_summary := file_long_summary h; examples := examples h |};
  store_long_summary v h :=
    {| delimiters := delimiters h; file_name := file_name h; command := command h;
       file_type := file_type h; file_short_summary := file_short_summary h;
       file_long_summary := v; examples := examples h |}
|}.
Proof. all: reflexivity. Defined.

Definition with_file_type (t : string) (h : HelpFile) : HelpFile :=
  {| delimiters := delimiters h; file_name := file_name h; command := command h;
     file_type := t; file_short_summary := file_short_summary h;
     file_long_summary := file_long_summary h; examples := examples h |}.

Definition with_examples (es : list HelpExample) (h : HelpFile) : HelpFile :=
  {| delimiters := delimiters h; file_name := file_name h; command := command h;
     file_type := file_type h; file_short_summary := file_short_summary h;
     file_long_summary := file_long_summary h; examples := es |}.

(** [HelpFile(delimiters)] *)
Definition new_HelpFile (delimiters : string) : pyres HelpFile :=
  name ← (if negb (String.eqb delimiters EmptyString)
          then match last (split delimiters) with
               | Some w => Ok w
               | None => Raise IndexError
               end
          else Ok delimiters);
  let self :=
    {| delimiters := delimiters; file_name := name; command := delimiters;
       file_type := EmptyString; file_short_summary := EmptyString;
       file_long_summary := EmptyString; examples := [] |} in
  self ← set_short_summary (Some EmptyString) self;
  self ← set_long_summary (Some EmptyString) self;
  Ok self.

(** [HelpFile._load_from_data] *)
Definition HelpFile_load_from_data (self : HelpFile) (data : HelpData)
  : pyres HelpFile :=
  if negb (data_truthy data) then Ok self
  else
    match data with
    | DataStr text => set_long_summary (Some text) self
    | DataDoc d =>
        let self :=
          match dd_type d with
          | Some t => with_file_type t self
          | None => self
          end in
        self ← match dd_short_summary d with
               | Some s => set_short_summary (Some s) self
               | None => Ok self
               end;
        self ← set_long_summary (dd_long_summary d) self;
        match dd_examples d with
        | Some es => es' ← map_result new_HelpExample es; Ok (with_examples es' self)
        | None => Ok self
        end
    end.

(** *** CommandHelpFile *)

(** What the help model reads of an argparse action and of a parser. *)
Record Action : Type := {
  option_strings : list string;
  help : option string;
  action_required : bool;
  action_choices : option (list string);
  action_default : pyval;
  container_description : option string
}.

Record Parser : Type := {
  _actions : list Action
}.

(** [argparse.SUPPRESS] *)
Definition SUPPRESS : string := "==SUPPRESS==".

Record CommandHelpFile : Type := {
  base : HelpFile;
  parameters : list HelpParameter
}.

(** [help_param = next(p for p in self.parameters if p.name == '--help -h')]
    followed by [help_param.group_name = 'Global Arguments']: the first
    such parameter is changed where it stands in the list. *)
Fixpoint force_help_group (parameters : list HelpParameter)
  : pyres (list HelpParameter) :=
  match parameters with
  | [] => Raise StopIteration
  | p :: parameters' =>
      if String.eqb (name p) "--help -h"
      then Ok (with_group_name (Some "Global Arguments") p :: parameters')
      else ps ← force_help_group parameters'; Ok (p :: ps)
  end.

(** [CommandHelpFile(delimiters, parser)] *)
Definition new_CommandHelpFile (delimiters : string) (parser : Parser)
  : pyres CommandHelpFile :=
  base ← new_HelpFile delimiters;
  let base := with_file_type "command" base in
  parameters ←
    map_result
      (fun action =>
         new_HelpParameter (join " " (sorted id (option_strings action)))
           (help action) (action_required action) (action_choices action)
           (action_default action) (container_description action))
      (List.filter (fun a => negb (bool_decide (help a = Some SUPPRESS)))
                   (_actions parser));
  parameters ← force_help_group parameters;
  Ok {| base := base; parameters := parameters |}.

(** [next((n for n in entries if n['name'] == name), None)] *)
Fixpoint find_entry (name : string) (entries : list ParamData)
  : pyres (option ParamData) :=
  match entries with
  | [] => Ok None
  | n :: entries' =>
      n_name ← required_key "name" (pd_name n);
      if String.eqb n_name name then Ok (Some n) else find_entry name entries'
  end.

(** The body of the loop over the live parameters. *)
Definition load_param (entries : list ParamData) (param : HelpParameter)
  : pyres HelpParameter :=
  loaded_param ← find_entry (name param) entries;
  match loaded_param with
  | Some data => update_from_data param data
  | None => Ok param
  end.

(** [CommandHelpFile._load_from_data] *)
Definition CommandHelpFile_load_from_data (self : CommandHelpFile)
  (data : HelpData) : pyres CommandHelpFile :=
  base ← HelpFile_load_from_data (base self) data;
  let self := {| base := base; parameters := parameters self |} in
  match data with
  | DataStr _ => Ok self
  | DataDoc d =>
      if match parameters self with [] => true | _ => false end
         || negb (list_truthy (dd_parameters d))
      then Ok self
      else
        loaded_params ←
          map_result (load_param (default [] (dd_parameters d))) (parameters self);
        Ok {| base := base; parameters := loaded_params |}
  end.

(** *** The order of the argument listing *)

(** [[p.group_name for p in help_file.parameters if p.group_name]] *)
Definition group_names (parameters : list HelpParameter) : list string :=
  omap (fun p => match group_name p with
                 | Some (String c g) => Some (String c g)
                 | _ => None
                 end) parameters.

Definition _get_parameter_key (group_registry : ArgumentGroupRegistry)
  (parameter : HelpParameter) : string :=
  get_group_priority group_registry (group_name parameter)
  +:+ str_bool (negb (required parameter))
  +:+ name parameter.

(** [sorted(help_file.parameters, key=_get_parameter_key)]: the order in
    which [_print_arguments] prints the parameters. *)
Definition arguments_order (parameters : list HelpParameter)
  : list HelpParameter :=
  let group_registry := new_registry (group_names parameters) in
  sorted (_get_parameter_key group_registry) parameters.

End Help.

(* ===================================================================== *)
(** ** knack/help.py: loading and printing *)
(* ===================================================================== *)

Module Render.
Import Py Help.

(** *** Text operations of the printer and the loader *)

Definition line_feed : ascii := "010"%char.

(** [s.split('\n')]: the pieces between line feeds, at least one. *)
Fixpoint split_newline (s : string) : list string :=
  match s with
  | EmptyString => [EmptyString]
  | String c s' =>
      if Ascii.eqb c line_feed then EmptyString :: split_newline s'
      else match split_newline s' with
           | piece :: pieces => String c piece :: pieces
           | [] => [String c EmptyString]
           end
  end.

(** [s.replace('\n', ' ')] *)
Fixpoint replace_newline (s : string) : string :=
  match s with
  | EmptyString => EmptyString
  | String c s' =>
      String (if Ascii.eqb c line_feed then " "%char else c) (replace_newline s')
  end.

(** A line boundary of [splitlines]: line feed, carriage return, vertical
    tab, form feed and the separators 0x1c-0x1e. *)
Definition is_line_break (c : ascii) : bool :=
  in_range 10 13 c || in_range 28 30 c.

(** [s.splitlines()]: the lines of [s] without their ends; a carriage
    return followed by a line feed is one boundary. *)
Fixpoint splitlines (s : string) : list string :=
  match s with
  | EmptyString => []
  | String c s' =>
      if is_line_break c then
        match s' with
        | String c' s'' =>
            if Ascii.eqb c "013"%char && Ascii.eqb c' line_feed
            then EmptyString :: splitlines s''
            else EmptyString :: splitlines s'
        | EmptyString => [EmptyString]
        end
      else match splitlines s' with
           | line :: lines => String c line :: lines
           | [] => [String c EmptyString]
           end
  end.

(** [s.index(c)] for a character: [None] where Python raises
    [ValueError]. *)
Fixpoint index_char (c : ascii) (s : string) : option nat :=
  match s with
  | EmptyString => None
  | String x s' => if Ascii.eqb x c then Some 0%nat else S <$> index_char c s'
  end.

(** [s[:n]] and [s[n:]] *)
Fixpoint str_take (n : nat) (s : string) : string :=
  match n, s with
  | S n', String c s' => String c (str_take n' s')
  | _, _ => EmptyString
  end.

Fixpoint str_drop (n : nat) (s : string) : string :=
  match n, s with
  | S n', String _ s' => str_drop n' s'
  | _, _ => s
  end.

(** [s.find(sub)]: the index of the first occurrence, [None] for -1. *)
Fixpoint find_from (sub s : string) (i : nat) : option nat :=
  if String.prefix sub s then Some i
  else match s with
       | EmptyString => None
       | String _ s' => find_from sub s' (S i)
       end.

Definition find (sub s : string) : option nat := find_from sub s 0.

(** [' ' * n] *)
Fixpoint spaces (n : nat) : string :=
  match n with
  | O => EmptyString
  | S n' => String " "%char (spaces n')
  end.

(** *** The indentation helpers *)

Definition _get_column_indent (text : string) (max_name_length : nat) : string :=
  spaces (max_name_length - String.length text).

Definition _get_hanging_indent (max_length indent : nat) : nat :=
  max_length + indent * 4 + String.length FIRST_LINE_PREFIX.

(** [max(f(x) for x in xs) if xs else 0] *)
Definition max_of {A} (f : A -> nat) (xs : list A) : nat :=
  fold_right Nat.max 0%nat (map f xs).

(** *** Requests to the output

    The printing routines do not look at what printing gives back; they
    are modelled by the list of the requests they make, in order:
    [print(text)] on the standard output, [print(text, file=out_file)]
    on the file of the CLI, and [_print_indent(s, indent,
    subsequent_spaces)], where [None] stands for the default -1. *)
Inductive request : Type :=
| Plain (text : string)
| ToOutFile (text : string)
| Indented (s : string) (indent : nat) (subsequent_spaces : option nat).

Section Stdout.
(** The standard output with [print(text, file=sys.stdout)] on it, line
    feed included, the file of the CLI, and [fill] of a [TextWrapper]
    with the given initial and subsequent indents, [replace_whitespace]
    off and width 100. *)
Context {stream : Type}.
Variable print : stream -> string -> stream * pyres unit.
Variable print_out_file : stream -> string -> stream * pyres unit.
Variable fill : string -> string -> string -> string.

(** One paragraph of [_print_indent]. *)
Definition print_paragraph (initial subsequent p : string) (out : stream)
  : stream * pyres unit :=
  match print out (fill initial subsequent p) with
  | (out', Raise UnicodeEncodeError) =>
      print out' (Output.ascii_ignore (fill initial subsequent p))
  | r => r
  end.

Fixpoint print_paragraphs (initial subsequent : string) (paragraphs : list string)
  (out : stream) : stream * pyres unit :=
  match paragraphs with
  | [] => (out, Ok tt)
  | p :: paragraphs' =>
      match print_paragraph initial subsequent p out with
      | (out', Ok _) => print_paragraphs initial subsequent paragraphs' out'
      | r => r
      end
  end.

Definition _print_indent (s : string) (indent : nat)
  (subsequent_spaces : option nat) (out : stream) : stream * pyres unit :=
  let initial := spaces (4 * indent) in
  let subsequent :=
    match subsequent_spaces with
    | None => spaces (4 * indent)
    | Some n => spaces n
    end in
  print_paragraphs initial subsequent (split_newline s) out.

(** Carrying out the requests, up to the first exception. *)
Fixpoint run (requests : list request) (out : stream) : stream * pyres unit :=
  match requests with
  | [] => (out, Ok tt)
  | r :: requests' =>
      let step :=
        match r with
        | Plain text => print out text
        | ToOutFile text => print_out_file out text
        | Indented s indent subsequent_spaces =>
            _print_indent s indent subsequent_spaces out
        end in
      match step with
      | (out', Ok _) => run requests' out'
      | failed => failed
      end
  end.
(** Carrying out the requests of a routine, then what it ends with. *)
Definition perform (routine : list request * pyres unit) (out : stream)
  : stream * pyres unit :=
  match run (fst routine) out with
  | (out', Ok _) => (out', snd routine)
  | failed => failed
  end.
End Stdout.

(** *** Loading the help of a parser *)

(** What the help model reads of a parser or subparser: [prog], the
    [description] ([None] also when there is none), whether it has
    [_defaults], its [help_file] if it has that attribute, [is_group()],
    its actions, and the values of its truthy [choices] in their order, no
    values otherwise. *)
Inductive ParserObject : Type :=
| MkParserObject (prog : string) (description : option string)
    (has_defaults : bool) (help_file : option (option string))
    (is_group : bool) (parser : Parser) (choices : list ParserObject).

Definition prog (options : ParserObject) : string :=
  match options with MkParserObject p _ _ _ _ _ _ => p end.
Definition parser_description (options : ParserObject) : option string :=
  match options with MkParserObject _ d _ _ _ _ _ => d end.
Definition has_defaults (options : ParserObject) : bool :=
  match options with MkParserObject _ _ b _ _ _ _ => b end.
Definition parser_help_file (options : ParserObject) : pyres (option string) :=
  match options with
  | MkParserObject _ _ _ (Some text) _ _ _ => Ok text
  | MkParserObject _ _ _ None _ _ _ => Raise AttributeError
  end.
Definition is_group (options : ParserObject) : bool :=
  match options with MkParserObject _ _ _ _ g _ _ => g end.
Definition parser_actions (options : ParserObject) : Parser :=
  match options with MkParserObject _ _ _ _ _ a _ => a end.
Definition parser_choices (options : ParserObject) : list ParserObject :=
  match options with MkParserObject _ _ _ _ _ _ c => c end.

(** The help objects by class: a [HelpFile], a [GroupHelpFile] with its
    children, a [CommandHelpFile]. *)
Inductive HelpNode : Type :=
| PlainFile (file : HelpFile)
| GroupFile (file : HelpFile) (children : list HelpNode)
| CommandFile (file : CommandHelpFile).

Definition node_file (node : HelpNode) : HelpFile :=
  match node with
  | PlainFile file => file
  | GroupFile file _ => file
  | CommandFile c => base c
  end.

Definition with_node_file (file : HelpFile) (node : HelpNode) : HelpNode :=
  match node with
  | PlainFile _ => PlainFile file
  | GroupFile _ children => GroupFile file children
  | CommandFile c => CommandFile {| base := file; parameters := parameters c |}
  end.

(** [isinstance(c, GroupHelpFile)] *)
Definition is_GroupHelpFile (node : HelpNode) : bool :=
  match node with
  | GroupFile _ _ => true
  | _ => false
  end.

Definition with_command (c : string) (h : HelpFile) : HelpFile :=
  {| delimiters := delimiters h; file_name := file_name h; command := c;
     file_type := file_type h; file_short_summary := file_short_summary h;
     file_long_summary := file_long_summary h; examples := examples h |}.

(** [description.index('.')] *)
Definition index_of_period (description : option string) : pyres nat :=
  match description with
  | None => Raise AttributeError
  | Some d =>
      match index_char "."%char d with
      | Some i => Ok i
      | None => Raise (ValueError "substring not found")
      end
  end.

(** The first part of [load]: the summaries out of the description. *)
Definition load_description (description : option string) (self : HelpFile)
  : pyres HelpFile :=
  let text := default EmptyString description in
  let attempt :=
    i ← index_of_period description;
    self ← set_short_summary (Some (str_take i text)) self;
    i ← index_of_period description;
    let long_summary := lstrip (str_drop (i + 1) text) in
    set_long_summary (Some (join " " (splitlines long_summary))) self in
  match attempt with
  | Raise (ValueError _) | Raise AttributeError =>
      set_short_summary description self
  | r => r
  end.

(** The [_load_from_data] of the class of the node. *)
Definition _load_from_data (self : HelpNode) (data : HelpData) : pyres HelpNode :=
  match self with
  | PlainFile file => PlainFile <$> HelpFile_load_from_data file data
  | GroupFile file children =>
      (fun file' => GroupFile file' children) <$> HelpFile_load_from_data file data
  | CommandFile c => CommandFile <$> CommandHelpFile_load_from_data c data
  end.

(** Truth value of data that may be [None]. *)
Definition file_data_truthy (file_data : option HelpData) : bool :=
  match file_data with
  | Some data => data_truthy data
  | None => false
  end.

Section Loading.
(** [yaml.load] on a document that is a text or a mapping, [None] for the
    null document, and [_load_help_file] of the module [help_files], which
    gives the registered data of a command path or [None]. *)
Variable yaml_load : string -> pyres (option HelpData).
Variable _load_help_file : string -> pyres (option HelpData).

Definition _load_help_file_from_string (text : option string) : option HelpData :=
  match text with
  | Some (String c t) =>
      match yaml_load (String c t) with
      | Ok data => data
      | Raise _ => Some (DataStr (String c t))
      end
  | _ => None
  end.

Definition _load_from_file (self : HelpNode) : pyres HelpNode :=
  file_data ← _load_help_file (delimiters (node_file self));
  match file_data with
  | Some data => if data_truthy data then _load_from_data self data else Ok self
  | None => Ok self
  end.

Definition load (self : HelpNode) (options : ParserObject) : pyres HelpNode :=
  file ← load_description (parser_description options) (node_file self);
  let self := with_node_file file self in
  file_data ← (if has_defaults options
               then _load_help_file_from_string <$> parser_help_file options
               else Ok None);
  match file_data with
  | Some data =>
      if data_truthy data then _load_from_data self data else _load_from_file self
  | None => _load_from_file self
  end.

(** [GroupHelpFile(delimiters, parser)]: the children are built and loaded
    in the order of the choices. *)
Fixpoint new_GroupHelpFile (delimiters : string) (parser : ParserObject)
  : pyres HelpNode :=
  match parser with
  | MkParserObject _ _ _ _ _ _ choices =>
      file ← new_HelpFile delimiters;
      let file := with_file_type "group" file in
      children ←
        (fix each (choices : list ParserObject) : pyres (list HelpNode) :=
           match choices with
           | [] => Ok []
           | options :: choices' =>
               let delimiters := join " " (tail (split (prog options))) in
               child ← (if is_group options
                        then new_GroupHelpFile delimiters options
                        else PlainFile <$> new_HelpFile delimiters);
               child ← load child options;
               children ← each choices';
               Ok (child :: children)
           end) choices;
      Ok (GroupFile file children)
  end.
End Loading.

(** *** The printing routines of [CLIHelp] *)

(** Truth value of a text. *)
Definition nonempty (s : string) : bool :=
  match s with
  | EmptyString => false
  | String _ _ => true
  end.

(** [FIRST_LINE_PREFIX + text if text else ''] *)
Definition prefixed (text : string) : string :=
  if nonempty text then FIRST_LINE_PREFIX +:+ text else EmptyString.

Definition _print_header (cli_name : string) (help_file : HelpFile)
  : list request :=
  let indent := 0%nat in
  let requests :=
    [Indented EmptyString 0 None;
     Indented (if String.eqb (file_type help_file) "command" then "Command" else "Group")
              indent None] in
  let indent := (indent + 1)%nat in
  let requests :=
    requests ++
    [Indented ((cli_name +:+ " " +:+ command help_file)
               +:+ prefixed (file_short_summary help_file)) indent None] in
  let indent := (indent + 1)%nat in
  let requests :=
    requests ++
    (if nonempty (file_long_summary help_file)
     then [Indented (rstrip (file_long_summary help_file)) indent None]
     else []) in
  requests ++ [Indented EmptyString 0 None].

(** [max(len(c.name) for c in files) if files else 0] *)
Definition longest_name (files : list HelpNode) : nat :=
  max_of (fun c => String.length (file_name (node_file c))) files.

(** [_print_items] of [_print_groups], with the [indent] and the
    [max_name_length] of the enclosing call. *)
Definition _print_items (indent max_name_length : nat) (items : list HelpNode)
  : list request :=
  map (fun c =>
         let c := node_file c in
         let column_indent := _get_column_indent (file_name c) max_name_length in
         let summary := prefixed (file_short_summary c) in
         let summary := replace_newline summary in
         let hanging_indent := (max_name_length + indent * 4 + 2)%nat in
         Indented (file_name c +:+ column_indent +:+ summary) indent
                  (Some hanging_indent))
      (sorted (fun h => file_name (node_file h)) items)
  ++ [Indented EmptyString 0 None].

Definition _print_groups (children : list HelpNode) : list request :=
  let indent := 1%nat in
  let max_name_length := longest_name children in
  let subgroups := List.filter is_GroupHelpFile children in
  let subcommands := List.filter (fun c => negb (is_GroupHelpFile c)) children in
  (match subgroups with
   | [] => []
   | _ => Indented "Subgroups:" 0 None :: _print_items indent max_name_length subgroups
   end)
  ++ (match subcommands with
      | [] => []
      | _ => Indented "Commands:" 0 None
             :: _print_items indent max_name_length subcommands
      end).

Definition print_description_list (help_files : list HelpNode) : list request :=
  let indent := 1%nat in
  let max_name_length := longest_name help_files in
  map (fun help_file =>
         let help_file := node_file help_file in
         Indented (file_name help_file
                   +:+ _get_column_indent (file_name help_file) max_name_length
                   +:+ prefixed (file_short_summary help_file))
                  indent
                  (Some (_get_hanging_indent max_name_length indent)))
      (sorted (fun h => file_name (node_file h)) help_files).

Definition _print_examples (help_file : HelpFile) : list request :=
  [Plain EmptyString; Indented "Examples" 0 None]
  ++ concat (map (fun e => [Indented (example_name e) 1 None;
                            Indented (example_text e) 2 None;
                            Plain EmptyString])
                 (examples help_file)).

Definition required_tag : string := " [Required]".

(** [max(len(p.name) + (len(required_tag) if p.required else 0) for p in
    parameters)] *)
Definition max_name_length (parameters : list HelpParameter) : nat :=
  max_of (fun p => (String.length (name p)
                    + (if required p then String.length required_tag else 0))%nat)
         parameters.

Definition possible_values : string := " Possible values include".

Section Arguments.
(** [str(value)], which [format] applies to the default of a parameter. *)
Variable str : pyval -> string.

Definition _get_choices_defaults_sources_str (p : HelpParameter) : string :=
  let choice_str :=
    if list_truthy (choices p)
    then "  Allowed values: " +:+ join ", " (sorted id (default [] (choices p))) +:+ "."
    else EmptyString in
  let default_str :=
    if truthy (default_value p)
       && negb (match default_value p with
                | PStr s => String.eqb s SUPPRESS
                | _ => false
                end)
    then "  Default: " +:+ str (default_value p) +:+ "."
    else EmptyString in
  let value_sources_str :=
    match value_sources p with
    | [] => EmptyString
    | sources => "  Values from: " +:+ join ", " sources +:+ "."
    end in
  choice_str +:+ default_str +:+ value_sources_str.

(** The summary [_print_arguments] shows beside a parameter. *)
Definition shown_summary (p : HelpParameter) : string :=
  let short_summary :=
    if nonempty (param_short_summary p) then param_short_summary p else EmptyString in
  let possible_values_index := find possible_values short_summary in
  let short_summary :=
    str_take (match possible_values_index with
              | Some i => i
              | None => String.length short_summary
              end) short_summary in
  let short_summary := short_summary +:+ _get_choices_defaults_sources_str p in
  strip short_summary.

(** The line of a parameter in the listing. *)
Definition argument_line (max_name_length : nat) (p : HelpParameter) : request :=
  let indent := 1%nat in
  let required_text := if required p then required_tag else EmptyString in
  let short_summary := shown_summary p in
  Indented (name p
            +:+ _get_column_indent (name p +:+ required_text) max_name_length
            +:+ required_text
            +:+ prefixed short_summary)
           indent
           (Some (_get_hanging_indent max_name_length indent)).

(** The loop of [_print_arguments] over the sorted parameters, from the
    group name of the parameter before. *)
Fixpoint print_each_argument (max_name_length : nat)
  (parameters : list HelpParameter) (last_group_name : option string)
  : list request :=
  match parameters with
  | [] => []
  | p :: parameters' =>
      let changed := negb (bool_decide (group_name p = last_group_name)) in
      (if changed && text_truthy (group_name p)
       then [Plain EmptyString; Plain (default EmptyString (group_name p))]
       else [])
      ++ [argument_line max_name_length p]
      ++ (if nonempty (param_long_summary p)
          then [Indented (rstrip (param_long_summary p)) 2 None]
          else [])
      ++ print_each_argument max_name_length parameters'
           (if changed then group_name p else last_group_name)
  end.

(** [_print_arguments]: the requests, and the indent it returns, [None]
    when it returns nothing.  The second test of the parameters, which
    would print [none], comes after the first has returned and is never
    taken. *)
Definition _print_arguments (help_file : CommandHelpFile)
  : list request * option nat :=
  match parameters help_file with
  | [] => ([Indented "None" 1 None; Indented EmptyString 0 None], None)
  | _ =>
      let max_name_length := max_name_length (parameters help_file) in
      (print_each_argument max_name_length
         (arguments_order (parameters help_file)) None,
       Some 2%nat)
  end.

(** [_print_detailed_help]: the requests made, and how it ends;
    [help_file.parameters] and [help_file.children] raise on an object of
    another class. *)
Definition _print_detailed_help (cli_name : string) (help_file : HelpNode)
  : list request * pyres unit :=
  let file := node_file help_file in
  let header := _print_header cli_name file in
  let body :=
    if String.eqb (file_type file) "command" then
      match help_file with
      | CommandFile c =>
          (Indented "Arguments" 0 None :: fst (_print_arguments c), Ok tt)
      | _ => ([Indented "Arguments" 0 None], Raise AttributeError)
      end
    else if String.eqb (file_type file) "group" then
      match help_file with
      | GroupFile _ children => (_print_groups children, Ok tt)
      | _ => ([], Raise AttributeError)
      end
    else ([], Ok tt) in
  match snd body with
  | Ok _ =>
      (header ++ fst body
       ++ (match examples file with
           | [] => []
           | _ => _print_examples file
           end), Ok tt)
  | Raise e => (header ++ fst body, Raise e)
  end.

Section Showing.
Variable yaml_load : string -> pyres (option HelpData).
Variable _load_help_file : string -> pyres (option HelpData).

(** [show_help]: nothing is printed before the help object is built and
    loaded. *)
Definition show_help (cli_name : string) (nouns : list string)
  (parser : ParserObject) (is_group : bool) : list request * pyres unit :=
  let delimiters := join " " nouns in
  let built :=
    help_file ← (if negb is_group
                 then CommandFile <$> new_CommandHelpFile delimiters (parser_actions parser)
                 else new_GroupHelpFile yaml_load _load_help_file delimiters parser);
    help_file ← load yaml_load _load_help_file help_file parser;
    Ok (match nouns with
        | [] => with_node_file (with_command EmptyString (node_file help_file)) help_file
        | _ => help_file
        end) in
  match built with
  | Ok help_file => _print_detailed_help cli_name help_file
  | Raise e => ([], Raise e)
  end.
End Showing.
End Arguments.

(** *** The welcome *)

Section Welcome.
(** The configuration of the CLI with [getboolean(section, option,
    fallback)] and [set_value(section, option, value)] on it, the standard
    output and the file of the CLI. *)
Context {config stream : Type}.
Variable getboolean : config -> string -> string -> bool -> pyres bool.
Variable set_value : config -> string -> string -> string -> pyres config.
Variable print : stream -> string -> stream * pyres unit.
Variable print_out_file : stream -> string -> stream * pyres unit.
Variable fill : string -> string -> string -> string.
Variable yaml_load : string -> pyres (option HelpData).
Variable _load_help_file : string -> pyres (option HelpData).

(** A [CLIHelp] with the configuration of its [cli_ctx], [None] when it
    was made without one. *)
Record CLIHelp : Type := {
  cli_ctx : option config;
  privacy_statement : string;
  welcome_message : string
}.

Definition with_config (c : config) (self : CLIHelp) : CLIHelp :=
  {| cli_ctx := Some c; privacy_statement := privacy_statement self;
     welcome_message := welcome_message self |}.

Definition show_privacy_statement (self : CLIHelp) (out : stream)
  : CLIHelp * stream * pyres unit :=
  match cli_ctx self with
  | None => (self, out, Raise AttributeError)
  | Some config =>
      match getboolean config "core" "first_run" false with
      | Raise e => (self, out, Raise e)
      | Ok ran_before =>
          if negb ran_before then
            match (if nonempty (privacy_statement self)
                   then print_out_file out (privacy_statement self)
                   else (out, Ok tt)) with
            | (out', Ok _) =>
                match set_value config "core" "first_run" "yes" with
                | Ok c => (with_config c self, out', Ok tt)
                | Raise e => (self, out', Raise e)
                end
            | (out', Raise e) => (self, out', Raise e)
            end
          else (self, out, Ok tt)
      end
  end.

Definition show_welcome_message (self : CLIHelp) (out : stream)
  : stream * pyres unit :=
  _print_indent print fill (welcome_message self) 0 None out.

Definition show_welcome (self : CLIHelp) (parser : ParserObject) (out : stream)
  : CLIHelp * stream * pyres unit :=
  match show_privacy_statement self out with
  | (self, out, Raise e) => (self, out, Raise e)
  | (self, out, Ok _) =>
      match show_welcome_message self out with
      | (out, Raise e) => (self, out, Raise e)
      | (out, Ok _) =>
          match new_GroupHelpFile yaml_load _load_help_file EmptyString parser with
          | Raise e => (self, out, Raise e)
          | Ok help_file =>
              let children :=
                match help_file with
                | GroupFile _ children => children
                | _ => []
                end in
              let (out, r) :=
                run print print_out_file fill (print_description_list children) out in
              (self, out, r)
          end
      end
  end.
End Welcome.

End Render.

(* ===================================================================== *)
(** ** Properties *)
(* ===================================================================== *)

Import Py.

(** *** Text *)

Lemma append_cons (c : ascii) (a b : string) :
  String c a +:+ b = String c (a +:+ b).
Proof. reflexivity. Qed.

Lemma append_nil_l (s : string) : EmptyString +:+ s = s.
Proof. reflexivity. Qed.

Lemma append_nil_r (s : string) : s +:+ EmptyString = s.
Proof.
  induction s as [|c s IH]; [reflexivity|]. now rewrite append_cons, IH.
Qed.

Lemma append_assoc (a b c : string) : (a +:+ b) +:+ c = a +:+ (b +:+ c).
Proof.
  induction a as [|x a IH]; [reflexivity|]. now rewrite !append_cons, IH.
Qed.

Lemma length_append (a b : string) :
  String.length (a +:+ b) = (String.length a + String.length b)%nat.
Proof.
  induction a as [|x a IH]; [reflexivity|].
  rewrite append_cons. simpl. now rewrite IH.
Qed.

(** *** Sorting *)

Section SortedFacts.
Context {A : Type} (key : A -> string).

(** The order [sorted] establishes: the keys do not decrease. *)
Definition key_le (x y : A) : Prop := String.le (key x) (key y).

#[local] Instance key_le_trans : Transitive key_le.
Proof. intros x y z Hxy Hyz. unfold key_le in *. now transitivity (key y). Qed.

Lemma insert_sorted_perm (x : A) (l : list A) :
  Permutation (x :: l) (insert_sorted key x l).
Proof.
  induction l as [|y l IH]; simpl; [reflexivity|].
  destruct (String.leb (key x) (key y)); [reflexivity|].
  rewrite perm_swap. now constructor.
Qed.

Lemma sorted_perm (l : list A) : Permutation l (sorted key l).
Proof.
  induction l as [|x l IH]; simpl; [reflexivity|].
  rewrite <- insert_sorted_perm. now constructor.
Qed.

Lemma leb_false_le (a b : string) : String.leb a b = false -> String.le b a.
Proof.
  intros H. destruct (String.leb_total a b) as [H'|H']; [congruence|].
  unfold String.le. now rewrite H'.
Qed.

Lemma insert_sorted_strongly (x : A) (l : list A) :
  StronglySorted key_le l -> StronglySorted key_le (insert_sorted key x l).
Proof.
  induction 1 as [|y l Hl IH Hy]; simpl.
  - repeat constructor.
  - destruct (String.leb (key x) (key y)) eqn:E.
    + assert (Hxy : key_le x y) by (unfold key_le, String.le; now rewrite E).
      constructor; [now constructor|].
      constructor; [exact Hxy|].
      eapply Forall_impl; [exact Hy|]. intros z Hz. now transitivity y.
    + constructor; [exact IH|].
      rewrite <- insert_sorted_perm. constructor; [|exact Hy].
      now apply leb_false_le.
Qed.

Lemma sorted_strongly (l : list A) : StronglySorted key_le (sorted key l).
Proof.
  induction l as [|x l IH]; simpl; [constructor|].
  now apply insert_sorted_strongly.
Qed.

(** Two lists with the same elements, no two of them with the same key,
    are sorted into the same list. *)
Lemma sorted_unique (l1 l2 : list A) :
  NoDup (map key l1) -> Permutation l1 l2 -> sorted key l1 = sorted key l2.
Proof.
  intros Hnd Hp.
  apply (StronglySorted_unique_strong key_le);
    [| apply sorted_strongly | apply sorted_strongly
     | now rewrite <- !sorted_perm].
  intros x1 x2 H1 H2 H12 H21.
  assert (Hk : key x1 = key x2) by (now apply (anti_symm String.le)).
  rewrite <- sorted_perm in H1. rewrite <- sorted_perm, <- Hp in H2.
  clear -Hnd H1 H2 Hk. induction l1 as [|y l IH]; [inversion H1|].
  simpl in Hnd. apply NoDup_cons in Hnd as [Hy Hnd].
  apply elem_of_cons in H1 as [->|H1]; apply elem_of_cons in H2 as [->|H2];
    auto.
  - exfalso. apply Hy. rewrite Hk. now apply list_elem_of_fmap_2.
  - exfalso. apply Hy. rewrite <- Hk. now apply list_elem_of_fmap_2.
Qed.
End SortedFacts.

(** Sorting texts by themselves leaves them in non-decreasing order. *)
Lemma sorted_id_strongly (l : list string) :
  StronglySorted String.le (sorted id l).
Proof. exact (sorted_strongly id l). Qed.

(** *** TSV output *)

Import Output.

(** The text a value contributes to its cell. *)
Definition tsv_cell (v : pyval) : string := _dump_obj v EmptyString.

(** The cells of a row, separated by tabs. *)
Definition tsv_line (values : list pyval) : string :=
  join tab (map tsv_cell values).

Lemma _dump_obj_write (v : pyval) (stream : string) :
  _dump_obj v stream = stream +:+ tsv_cell v.
Proof. destruct v; reflexivity. Qed.

Lemma dump_values_write (values : list pyval) (separator stream : string) :
  dump_values values separator stream =
  stream +:+ match values with
             | [] => EmptyString
             | _ => separator +:+ tsv_line values
             end.
Proof.
  revert separator stream.
  induction values as [|v vs IH]; intros separator stream; simpl.
  - now rewrite append_nil_r.
  - rewrite IH, _dump_obj_write. unfold write, tsv_line, join. simpl.
    destruct vs as [|v' vs]; now rewrite ?append_assoc, ?append_nil_r.
Qed.

Lemma dump_values_line (values : list pyval) (stream : string) :
  dump_values values EmptyString stream = stream +:+ tsv_line values.
Proof. rewrite dump_values_write. now destruct values. Qed.

(** C2, on the code: a boolean inside a record reaches [_dump_obj]
    unchanged and is written as [str] gives it, with a capital; only a
    result that is itself a boolean is written in lower case. *)
Theorem tsv_boolean_in_record :
  _format_tsv {| result := PDict false [("a", PBool true);
                                        ("b", PList [PInt 1; PInt 2; PInt 3])];
                 table_transformer := None;
                 is_query_active := false |}
  = "True" +:+ tab +:+ "3" +:+ newline
  /\ _format_tsv {| result := PBool true;
                    table_transformer := None;
                    is_query_active := false |}
     = "true" +:+ newline.
Proof. split; reflexivity. Qed.

(** C5: a row that is an ordered mapping writes its values in their
    order; a plain mapping writes them sorted by key, so that two
    mappings with the same items, however ordered, give the same line; a
    list value writes its length and a mapping value an empty cell. *)
Theorem tsv_row_order (items items' : list (string * pyval)) (stream : string) :
  NoDup (map fst items) ->
  Permutation items items' ->
  _dump_row (PDict true items) stream
    = stream +:+ tsv_line (map snd items) +:+ newline
  /\ _dump_row (PDict false items) stream
     = stream +:+ tsv_line (map snd (sorted fst items)) +:+ newline
  /\ Permutation items (sorted fst items)
  /\ StronglySorted String.le (map fst (sorted fst items))
  /\ _dump_row (PDict false items') stream = _dump_row (PDict false items) stream
  /\ (forall values, tsv_cell (PList values) = str_N (N.of_nat (length values)))
  /\ (forall ordered nested, tsv_cell (PDict ordered nested) = EmptyString).
Proof.
  intros Hnd Hperm. repeat split.
  - unfold _dump_row, write. now rewrite dump_values_line, append_assoc.
  - unfold _dump_row, write. now rewrite dump_values_line, append_assoc.
  - apply sorted_perm.
  - apply (StronglySorted_fmap _ (key_le fst)); [tauto | apply sorted_strongly].
  - unfold _dump_row. now rewrite (sorted_unique fst items items' Hnd Hperm).
Qed.

Lemma tsv_row_order_witness :
  let items := [("b", PList [PInt 1; PInt 2]); ("a", PDict false []); ("c", PStr "x")] in
  let items' := [("c", PStr "x"); ("a", PDict false []); ("b", PList [PInt 1; PInt 2])] in
  _dump_row (PDict false items') EmptyString = _dump_row (PDict false items) EmptyString
  /\ _dump_row (PDict false items) EmptyString = tab +:+ "2" +:+ tab +:+ "x" +:+ newline.
Proof.
  intros items items'.
  assert (Hnd : NoDup (map fst items)) by (apply (bool_decide_unpack _); vm_compute; exact I).
  assert (Hperm : Permutation items items').
  { unfold items, items'. apply Permutation_sym.
    apply (Permutation_cons_app [_; _] []). simpl.
    apply perm_swap. }
  destruct (tsv_row_order items items' EmptyString Hnd Hperm)
    as (_ & _ & _ & _ & Heq & _).
  split; [exact Heq | reflexivity].
Defined.

(** *** Table output: the columns of a record *)

(** Whether the loop of [_auto_table_item] keeps the key [k] of a mapping
    with the given items: the key is not one of [SKIP_KEYS], and its value
    is true and is no list, mapping or set. *)
Definition retained (items : list (string * pyval)) (k : string) : bool :=
  negb (bool_decide (k ∈ SKIP_KEYS))
  && match getitem k items with
     | Ok v => truthy v && negb (is_list_dict_set v)
     | Raise _ => false
     end.

(** The order in which the keys of a mapping are visited. *)
Definition visited_keys (should_sort_keys : bool) (items : list (string * pyval))
  : list string :=
  if should_sort_keys then sorted id (map fst items) else map fst items.

Definition column_step (items : list (string * pyval)) (new_entry : entry)
  (k : string) : entry :=
  if retained items k
  then od_set (_capitalize_first_char k) (entry_get k items) new_entry
  else new_entry.

Lemma getitem_elem_of (k : string) (items : list (string * pyval)) :
  k ∈ map fst items -> exists v, getitem k items = Ok v /\ (k, v) ∈ items.
Proof.
  induction items as [|[k' v'] items IH]; simpl; intros Hin.
  - now apply elem_of_nil in Hin.
  - destruct (String.eqb_spec k' k) as [->|Hne].
    + exists v'. split; [reflexivity | apply list_elem_of_here].
    + apply elem_of_cons in Hin as [Heq|Hin]; [congruence|].
      destruct (IH Hin) as (v & Hv & Hmem). exists v.
      split; [exact Hv | now apply list_elem_of_further].
Qed.

Lemma getitem_Ok_elem_of (k : string) (items : list (string * pyval)) (v : pyval) :
  getitem k items = Ok v -> (k, v) ∈ items.
Proof.
  induction items as [|[k' v'] items IH]; simpl; [discriminate|].
  destruct (String.eqb_spec k' k) as [->|Hne].
  - intros [= ->]. apply list_elem_of_here.
  - intros H. apply list_elem_of_further. now apply IH.
Qed.

Lemma add_column_step (ordered : bool) (items : list (string * pyval))
  (new_entry : entry) (k : string) :
  k ∈ map fst items ->
  add_column (PDict ordered items) new_entry k = Ok (column_step items new_entry k).
Proof.
  intros Hin. destruct (getitem_elem_of k items Hin) as (v & Hv & _).
  unfold add_column, column_step, retained, entry_get, item_get.
  destruct (bool_decide (k ∈ SKIP_KEYS)); simpl; [reflexivity|].
  rewrite Hv. simpl. now destruct (truthy v && negb (is_list_dict_set v)).
Qed.

Lemma for_each_add_column (ordered : bool) (items : list (string * pyval))
  (keys : list string) (new_entry : entry) :
  (forall k, k ∈ keys -> k ∈ map fst items) ->
  for_each (add_column (PDict ordered items)) keys new_entry
  = Ok (fold_left (column_step items) keys new_entry).
Proof.
  revert new_entry. induction keys as [|k keys IH]; intros new_entry Hsub; simpl.
  - reflexivity.
  - rewrite add_column_step by (apply Hsub, list_elem_of_here). simpl.
    apply IH. intros k' Hk'. now apply Hsub, list_elem_of_further.
Qed.

Lemma visited_keys_elem_of (should_sort_keys : bool)
  (items : list (string * pyval)) (k : string) :
  k ∈ visited_keys should_sort_keys items <-> k ∈ map fst items.
Proof.
  unfold visited_keys. destruct should_sort_keys; [|reflexivity].
  now rewrite <- (sorted_perm id).
Qed.

(** On a mapping the loop never raises: the entry is built from the
    visited keys. *)
Lemma _auto_table_item_mapping (should_sort_keys ordered : bool)
  (items : list (string * pyval)) :
  _auto_table_item should_sort_keys (PDict ordered items)
  = Ok (fold_left (column_step items) (visited_keys should_sort_keys items) []).
Proof.
  unfold _auto_table_item, item_keys. simpl.
  change (if should_sort_keys then sorted id (map fst items) else map fst items)
    with (visited_keys should_sort_keys items).
  rewrite for_each_add_column; [reflexivity|].
  intros k. now rewrite visited_keys_elem_of.
Qed.

Lemma od_set_keys (k : string) (v : pyval) (e : entry) :
  map fst (od_set k v e)
  = if bool_decide (k ∈ map fst e) then map fst e else map fst e ++ [k].
Proof.
  induction e as [|[k' v'] e IH]; simpl; [reflexivity|].
  destruct (String.eqb_spec k' k) as [->|Hne]; simpl.
  - rewrite bool_decide_eq_true_2 by apply list_elem_of_here. reflexivity.
  - rewrite IH. destruct (bool_decide (k ∈ map fst e)) eqn:E.
    + apply bool_decide_eq_true_1 in E.
      rewrite bool_decide_eq_true_2 by (now apply list_elem_of_further).
      reflexivity.
    + apply bool_decide_eq_false_1 in E.
      rewrite bool_decide_eq_false_2; [reflexivity|].
      intros [Heq|Hin]%elem_of_cons; [congruence | contradiction].
Qed.

Lemma od_set_elem_of (k : string) (v : pyval) (e : entry) (h : string) (x : pyval) :
  (h, x) ∈ od_set k v e -> (h = k /\ x = v) \/ (h, x) ∈ e.
Proof.
  induction e as [|[k' v'] e IH]; simpl.
  - intros [[= -> ->]|[]%elem_of_nil]%elem_of_cons. now left.
  - destruct (String.eqb_spec k' k) as [->|Hne].
    + intros [[= -> ->]|Hin]%elem_of_cons; [now left|].
      right. now apply list_elem_of_further.
    + intros [Heq|Hin]%elem_of_cons.
      * right. rewrite Heq. apply list_elem_of_here.
      * destruct (IH Hin) as [?|?]; [now left|].
        right. now apply list_elem_of_further.
Qed.

(** The columns of the entry, in order: the capitalized retained keys in
    the order visited, each once. *)
Lemma column_steps_keys (items : list (string * pyval)) (keys : list string)
  (e : entry) :
  map fst (fold_left (column_step items) keys e)
  = add_keys (map _capitalize_first_char (List.filter (retained items) keys))
             (map fst e).
Proof.
  revert e. induction keys as [|k keys IH]; intros e; simpl; [reflexivity|].
  rewrite IH. unfold column_step.
  destruct (retained items k); simpl; [|reflexivity].
  now rewrite od_set_keys.
Qed.

Lemma add_keys_elem_of (keys headers : list string) (h : string) :
  h ∈ add_keys keys headers <-> h ∈ headers \/ h ∈ keys.
Proof.
  revert headers. induction keys as [|k keys IH]; intros headers; simpl.
  - rewrite elem_of_nil. tauto.
  - rewrite IH, elem_of_cons. destruct (bool_decide (k ∈ headers)) eqn:E.
    + apply bool_decide_eq_true_1 in E. split; [tauto|].
      intros [?|[->|?]]; tauto.
    + rewrite elem_of_app, list_elem_of_singleton. tauto.
Qed.

(** Every cell of the entry comes from a retained key. *)
Lemma column_steps_cells (items : list (string * pyval)) (keys : list string)
  (e : entry) (h : string) (v : pyval) :
  (h, v) ∈ fold_left (column_step items) keys e ->
  (h, v) ∈ e
  \/ exists k, k ∈ keys /\ h = _capitalize_first_char k
               /\ retained items k = true /\ getitem k items = Ok v.
Proof.
  revert e. induction keys as [|k keys IH]; intros e; simpl; [now left|].
  intros Hin. destruct (IH _ Hin) as [He|(k' & Hk' & ?)].
  - unfold column_step in He. destruct (retained items k) eqn:Hr; [|now left].
    apply od_set_elem_of in He as [[-> ->]|He]; [|now left].
    right. exists k. split; [apply list_elem_of_here|].
    split; [reflexivity|]. split; [exact Hr|].
    unfold retained in Hr. unfold entry_get.
    destruct (getitem k items); [reflexivity|].
    now rewrite andb_false_r in Hr.
  - right. exists k'. split; [now apply list_elem_of_further | assumption].
Qed.

(** An item that is no mapping has no [keys]: the handler of
    [AttributeError] builds the entry. *)
Lemma _auto_table_item_total (should_sort_keys : bool) (item : pyval) :
  exists row, _auto_table_item should_sort_keys item = Ok row.
Proof.
  destruct item; try (eexists; reflexivity).
  rewrite _auto_table_item_mapping. eexists; reflexivity.
Qed.

Lemma map_result_total {A B} (f : A -> pyres B) (xs : list A) :
  (forall x, x ∈ xs -> exists y, f x = Ok y) ->
  exists ys, map_result f xs = Ok ys /\ Forall2 (fun x y => f x = Ok y) xs ys.
Proof.
  induction xs as [|x xs IH]; intros Hf; simpl.
  - exists []. split; [reflexivity | constructor].
  - destruct (Hf x) as [y Hy]; [apply list_elem_of_here|].
    destruct IH as (ys & Hys & Hall).
    { intros x' Hx'. now apply Hf, list_elem_of_further. }
    exists (y :: ys). rewrite Hy, Hys. split; [reflexivity | now constructor].
Qed.

(** A list always gives rows, one for each item and in the same order. *)
Lemma _auto_table_list (should_sort_keys : bool) (items : list pyval) :
  exists rows,
    _auto_table should_sort_keys (PList items) = Ok (Rows rows)
    /\ Forall2 (fun item row => _auto_table_item should_sort_keys item = Ok row)
               items rows.
Proof.
  destruct (map_result_total (_auto_table_item should_sort_keys) items)
    as (rows & Hrows & Hall).
  { intros item _. apply _auto_table_item_total. }
  exists rows. unfold _auto_table. now rewrite Hrows.
Qed.

Definition is_mapping (v : pyval) : bool :=
  match v with
  | PDict _ _ => true
  | _ => false
  end.

(** What a row owes to the record it was made from: its columns are the
    capitalized keys of the record that are kept, with their values. *)
Definition row_of (should_sort_keys : bool) (record : pyval) (row : entry) : Prop :=
  _auto_table_item should_sort_keys record = Ok row
  /\ exists ordered items,
       record = PDict ordered items
       /\ (forall h v, (h, v) ∈ row ->
             exists k, h = _capitalize_first_char k /\ (k, v) ∈ items
                       /\ (k ∉ SKIP_KEYS) /\ truthy v = true
                       /\ is_list_dict_set v = false)
       /\ (forall k, k ∈ map fst items -> retained items k = true ->
             _capitalize_first_char k ∈ map fst row).

Lemma retained_inv (items : list (string * pyval)) (k : string) (v : pyval) :
  retained items k = true -> getitem k items = Ok v ->
  (k ∉ SKIP_KEYS) /\ truthy v = true /\ is_list_dict_set v = false.
Proof.
  unfold retained. intros Hr Hv. rewrite Hv in Hr.
  apply andb_true_iff in Hr as [Hskip Hr].
  apply andb_true_iff in Hr as [Ht Hl].
  apply negb_true_iff in Hskip, Hl.
  apply bool_decide_eq_false in Hskip. now repeat split.
Qed.

Lemma row_of_mapping (should_sort_keys ordered : bool)
  (items : list (string * pyval)) (row : entry) :
  _auto_table_item should_sort_keys (PDict ordered items) = Ok row ->
  row_of should_sort_keys (PDict ordered items) row.
Proof.
  intros Hrow. split; [exact Hrow|]. exists ordered, items.
  split; [reflexivity|].
  rewrite _auto_table_item_mapping in Hrow. injection Hrow as <-. split.
  - intros h v Hin. apply column_steps_cells in Hin as [[]%elem_of_nil|Hin].
    destruct Hin as (k & _ & -> & Hr & Hv). exists k.
    destruct (retained_inv items k v Hr Hv) as (? & ? & ?).
    split; [reflexivity|]. split; [now apply getitem_Ok_elem_of | auto].
  - intros k Hk Hr. rewrite column_steps_keys, add_keys_elem_of. right.
    apply list_elem_of_fmap_2, list_elem_of_In, filter_In.
    split; [|exact Hr]. now apply list_elem_of_In, visited_keys_elem_of.
Qed.

(** *** Table output: the formatter *)

(** The value the table is made of, after the transform if it applies,
    and whether the keys of its records are sorted. *)
Definition table_input (obj : CommandResultItem) : pyres pyval :=
  match table_transformer obj with
  | Some transform =>
      if is_query_active obj then Ok (result obj) else transform (result obj)
  | None => Ok (result obj)
  end.

Definition sorts_keys (obj : CommandResultItem) : bool :=
  negb (is_query_active obj) && negb (bool_decide (is_Some (table_transformer obj))).

(** The layout gives the line-feed text to a table whose rows have no
    column at all, which is what [dump] tests for. *)
Definition blank_without_columns (tabulate : table_data -> pyres string) : Prop :=
  forall rows, rows <> [] -> Forall (fun row : entry => row = []) rows ->
    tabulate (Rows rows) = Ok newline.

Section TableProps.
Variable tabulate : table_data -> pyres string.

(** The rest of [_format_table] once the value and the sorting are
    settled: the table of the value, any exception logged and replaced
    by the one error. *)
Definition table_of (should_sort_keys : bool) (input : pyres pyval)
  : list exn * pyres string :=
  match (result ← input;
         table_dump tabulate should_sort_keys (result_list result)) with
  | Ok text => ([], Ok text)
  | Raise e => ([e], Raise table_unavailable)
  end.

Lemma _format_table_table_of (obj : CommandResultItem) :
  _format_table tabulate obj = table_of (sorts_keys obj) (table_input obj).
Proof.
  unfold _format_table, table_of, table_input, sorts_keys.
  destruct (table_transformer obj) as [transform|]; [|reflexivity].
  now destruct (is_query_active obj).
Qed.



End TableProps.

(** The reference layout is blank on rows without columns. *)
Lemma map_result_map {A B} (f : A -> pyres B) (g : A -> B) (xs : list A) :
  (forall x, f x = Ok (g x)) -> map_result f xs = Ok (map g xs).
Proof.
  intros Hf. induction xs as [|x xs IH]; simpl; [reflexivity|].
  now rewrite Hf, IH.
Qed.

Lemma table_headers_no_columns (rows : list entry) :
  Forall (fun row : entry => row = []) rows -> table_headers rows = [].
Proof.
  unfold table_headers. generalize (@nil string).
  intros headers Hall. revert headers.
  induction Hall as [|row rows -> _ IH]; intros headers; simpl;
    [reflexivity | apply IH].
Qed.

Lemma simple_layout_blank : blank_without_columns simple_layout.
Proof.
  intros rows Hne Hall. destruct rows as [|row rows]; [congruence|].
  cbv beta iota zeta delta [simple_layout].
  rewrite (table_headers_no_columns _ Hall).
  now rewrite (map_result_map _ (fun _ => [])).
Qed.





(** *** The output producer *)

Lemma ascii_ignore_ascii (text : string) :
  all_chars (fun c => (N_of_ascii c <? 128)%N) (ascii_ignore text) = true.
Proof.
  induction text as [|c text IH]; simpl; [reflexivity|].
  destruct (N_of_ascii c <? 128)%N eqn:E; simpl; [now rewrite E|exact IH].
Qed.

Lemma ascii_ignore_id (text : string) :
  all_chars (fun c => (N_of_ascii c <? 128)%N) text = true ->
  ascii_ignore text = text.
Proof.
  induction text as [|c text IH]; simpl; [reflexivity|].
  intros [Hc Ht]%andb_true_iff. rewrite Hc. now rewrite IH.
Qed.

Section ProducerProps.
Context {stream : Type}.
Variable print : stream -> string -> stream * pyres unit.
Variable windows : bool.
Variable AnsiToWin32 : stream -> stream.

(** The file [out] prints to. *)
Definition console (self : OutputProducer) : stream :=
  if windows then AnsiToWin32 (file self) else file self.

End ProducerProps.

(** A text with a character the file cannot encode over a pipe that is
    still open: the text is printed without it. *)
Example out_recovers_encoding :
  let f := {| written := EmptyString;
              encodable := fun c => (N_of_ascii c <? 128)%N;
              io_error := None |} in
  let self := {| formatter := fun obj => Ok (_format_tsv obj); file := f |} in
  let obj := {| result := PStr (String (ascii_of_N 233) "t" +:+ String (ascii_of_N 233) EmptyString);
                table_transformer := None; is_query_active := false |} in
  written (file (fst (out text_print false id self (Item obj)))) = "t" +:+ newline
  /\ snd (out text_print false id self (Item obj)) = Ok tt.
Proof. split; reflexivity. Qed.

(** *** Help: normalized summaries *)

Import Help.

(** A text ends its sentence when its last character is one of [.!?];
    it is trimmed when neither end is white space. *)
Definition ends_sentence (text : string) : bool :=
  match last_char text with
  | Some c => is_terminator c
  | None => false
  end.

Definition trimmed (text : string) : Prop :=
  (forall c, first_char text = Some c -> isspace c = false)
  /\ (forall c, last_char text = Some c -> isspace c = false).

Lemma lstrip_first (s : string) (c : ascii) (rest : string) :
  lstrip s = String c rest -> isspace c = false.
Proof.
  induction s as [|x s IH]; simpl; [discriminate|].
  destruct (isspace x) eqn:E; [exact IH|]. now intros [= <- _].
Qed.

Lemma rstrip_first (s : string) (c : ascii) (rest : string) :
  rstrip s = String c rest -> first_char s = Some c.
Proof.
  destruct s as [|x s]; simpl; [discriminate|].
  destruct (rstrip s); [destruct (isspace x)|]; now intros [= <- _].
Qed.

Lemma last_char_cons (c : ascii) (s : string) :
  s <> EmptyString -> last_char (String c s) = last_char s.
Proof. destruct s; [contradiction | reflexivity]. Qed.

Lemma rstrip_last (s : string) (c : ascii) :
  last_char (rstrip s) = Some c -> isspace c = false.
Proof.
  induction s as [|x s IH]; simpl; [discriminate|].
  destruct (rstrip s) as [|y r] eqn:E.
  - destruct (isspace x) eqn:Hx; simpl; [discriminate|]. now intros [= <-].
  - rewrite last_char_cons by discriminate. exact IH.
Qed.

Lemma strip_trimmed (s : string) : trimmed (strip s).
Proof.
  unfold strip. split; intros c Hc.
  - destruct (rstrip (lstrip s)) as [|x r] eqn:E; [discriminate|].
    injection Hc as ->. apply rstrip_first in E.
    destruct (lstrip s) as [|y r'] eqn:E'; [discriminate|].
    injection E as ->. now apply lstrip_first in E'.
  - now apply rstrip_last in Hc.
Qed.

Lemma last_char_append_char (s : string) (c : ascii) :
  last_char (s +:+ String c EmptyString) = Some c.
Proof.
  induction s as [|x s IH]; [reflexivity|].
  rewrite append_cons, last_char_cons; [exact IH|].
  destruct s; discriminate.
Qed.

Lemma upper_char_not_space (c : ascii) :
  isspace c = false -> isspace (upper_char c) = false.
Proof. destruct c as [[] [] [] [] [] [] [] []]; vm_compute; congruence. Qed.

Lemma terminator_upper (c : ascii) :
  is_terminator c = true -> upper_char c = c.
Proof.
  destruct c as [[] [] [] [] [] [] [] []]; vm_compute; congruence.
Qed.

Lemma terminator_not_space (c : ascii) :
  is_terminator c = true -> isspace c = false.
Proof.
  destruct c as [[] [] [] [] [] [] [] []]; vm_compute; congruence.
Qed.

(** The text [_normalize_text] builds from a stripped text. *)
Definition sentence (s : string) : string :=
  _capitalize_first_char s +:+ (if ends_sentence s then EmptyString else ".").

Lemma _normalize_text_sentence (value : string) :
  (2 <= String.length value)%nat -> strip value <> EmptyString ->
  _normalize_text (Some value) = Ok (sentence (strip value)).
Proof.
  intros Hlen Hne. unfold _normalize_text.
  destruct (String.eqb_spec value EmptyString) as [->|_]; [simpl in Hlen; lia|].
  destruct (Nat.ltb_spec (String.length value) 2) as [?|_]; [lia|]. simpl.
  unfold sentence, ends_sentence, char_at_0, char_at_last.
  destruct (strip value) as [|c rest] eqn:E; [contradiction|]. simpl first_char.
  cbn [mbind pyres_bind _capitalize_first_char from_1].
  destruct (last_char (String c rest)) as [l|] eqn:El; [reflexivity|].
  exfalso. clear -El. revert c El.
  induction rest as [|x rest IH]; intros c; simpl; [discriminate|]. apply IH.
Qed.

Lemma sentence_shape (s : string) :
  s <> EmptyString -> trimmed s ->
  sentence s <> EmptyString /\ trimmed (sentence s)
  /\ ends_sentence (sentence s) = true
  /\ first_char (sentence s) = upper_char <$> first_char s
  /\ (ends_sentence s = true -> sentence s = _capitalize_first_char s).
Proof.
  intros Hne [Hfirst Hlast]. destruct s as [|c rest]; [contradiction|].
  assert (Hc : isspace (upper_char c) = false)
    by (apply upper_char_not_space, Hfirst; reflexivity).
  unfold sentence. destruct (ends_sentence (String c rest)) eqn:Hend.
  - rewrite append_nil_r. simpl _capitalize_first_char.
    assert (Hl : last_char (String (upper_char c) rest)
                 = last_char (String c rest)).
    { destruct rest as [|x rest]; [|reflexivity].
      unfold ends_sentence in Hend. simpl in *.
      now rewrite (terminator_upper c Hend). }
    split; [discriminate|]. split; [split|].
    + now intros c' [= <-].
    + intros c'. rewrite Hl. apply Hlast.
    + split; [unfold ends_sentence; now rewrite Hl|].
      split; reflexivity.
  - simpl _capitalize_first_char. rewrite append_cons.
    split; [discriminate|]. split; [split|].
    + now intros c' [= <-].
    + intros c'. rewrite <- append_cons, last_char_append_char.
      now intros [= <-].
    + split; [|split; [reflexivity | discriminate]].
      unfold ends_sentence.
      now rewrite <- append_cons, last_char_append_char.
Qed.


(** A parameter to try the setters on. *)
Definition name_param : HelpParameter :=
  {| name := "--name -n"; required := true; param_type := "string";
     param_short_summary := EmptyString; param_long_summary := EmptyString;
     value_sources := []; choices := None; default_value := PNone;
     group_name := None |}.



(** *** Help: merging override data *)

(** The exceptions the loading of override data can raise: an index
    error from normalizing a summary that is all white space, a key
    error from an entry without its name or text. *)
Definition load_failure (e : exn) : Prop :=
  e = IndexError \/ exists key, e = KeyError key.

Lemma _normalize_text_raises (value : option string) (e : exn) :
  _normalize_text value = Raise e -> e = IndexError.
Proof.
  unfold _normalize_text. destruct value as [s|]; [|discriminate].
  destruct (_ || _); [discriminate|].
  unfold char_at_0, char_at_last.
  destruct (first_char (strip s)); simpl; [|now intros [= <-]].
  destruct (last_char (strip s)); simpl; [discriminate | now intros [= <-]].
Qed.

Lemma set_short_summary_raises {T : Type} `{HelpObject T} (value : option string)
  (self : T) (e : exn) :
  set_short_summary value self = Raise e -> e = IndexError.
Proof.
  unfold set_short_summary.
  destruct (_normalize_text value) eqn:E; [discriminate|].
  intros [= <-]. now apply _normalize_text_raises in E.
Qed.

Lemma set_long_summary_raises {T : Type} `{HelpObject T} (value : option string)
  (self : T) (e : exn) :
  set_long_summary value self = Raise e -> e = IndexError.
Proof.
  unfold set_long_summary.
  destruct (_normalize_text value) eqn:E; [discriminate|].
  intros [= <-]. now apply _normalize_text_raises in E.
Qed.

Lemma map_result_raises {A B} (f : A -> pyres B) (xs : list A) (e : exn) :
  map_result f xs = Raise e -> exists x, x ∈ xs /\ f x = Raise e.
Proof.
  induction xs as [|x xs IH]; simpl; [discriminate|].
  destruct (f x) as [y|e'] eqn:Ex; simpl.
  - destruct (map_result f xs) as [ys|e'] eqn:Exs; simpl; [discriminate|].
    intros [= <-]. destruct (IH eq_refl) as (x' & Hin & Hx').
    exists x'. split; [now apply list_elem_of_further | exact Hx'].
  - intros [= <-]. exists x. split; [apply list_elem_of_here | exact Ex].
Qed.

Lemma map_result_ext {A B} (f g : A -> pyres B) (xs : list A) :
  (forall x, x ∈ xs -> f x = g x) -> map_result f xs = map_result g xs.
Proof.
  induction xs as [|x xs IH]; intros Hfg; simpl; [reflexivity|].
  rewrite (Hfg x) by apply list_elem_of_here.
  rewrite IH; [reflexivity|]. intros x' Hx'. now apply Hfg, list_elem_of_further.
Qed.

Lemma new_HelpExample_raises (data : ExampleData) (e : exn) :
  new_HelpExample data = Raise e -> load_failure e.
Proof.
  unfold new_HelpExample, required_key.
  destruct (ed_name data); simpl; [|intros [= <-]; right; eauto].
  destruct (ed_text data); simpl; [discriminate | intros [= <-]; right; eauto].
Qed.

Lemma HelpFile_load_from_data_raises (self : HelpFile) (data : HelpData) (e : exn) :
  HelpFile_load_from_data self data = Raise e -> load_failure e.
Proof.
  unfold HelpFile_load_from_data.
  destruct (negb (data_truthy data)); [discriminate|].
  destruct data as [text|d].
  - intros He%set_long_summary_raises. now left.
  - destruct (dd_short_summary d) as [s|].
    + destruct (set_short_summary (Some s) _) as [self1|e1] eqn:E1; simpl;
        [|intros [= <-]; apply set_short_summary_raises in E1; now left].
      destruct (set_long_summary (dd_long_summary d) self1) as [self2|e2] eqn:E2;
        simpl; [|intros [= <-]; apply set_long_summary_raises in E2; now left].
      destruct (dd_examples d) as [es|]; [|discriminate].
      destruct (map_result new_HelpExample es) as [es'|e3] eqn:E3; simpl;
        [discriminate|].
      intros [= <-]. apply map_result_raises in E3 as (x & _ & Hx).
      now apply new_HelpExample_raises in Hx.
    + simpl.
      destruct (set_long_summary (dd_long_summary d) _) as [self2|e2] eqn:E2;
        simpl; [|intros [= <-]; apply set_long_summary_raises in E2; now left].
      destruct (dd_examples d) as [es|]; [|discriminate].
      destruct (map_result new_HelpExample es) as [es'|e3] eqn:E3; simpl;
        [discriminate|].
      intros [= <-]. apply map_result_raises in E3 as (x & _ & Hx).
      now apply new_HelpExample_raises in Hx.
Qed.

Lemma find_entry_raises (name : string) (entries : list ParamData) (e : exn) :
  find_entry name entries = Raise e -> load_failure e.
Proof.
  induction entries as [|n entries IH]; simpl; [discriminate|].
  destruct (pd_name n) as [n_name|]; simpl; [|intros [= <-]; right; eauto].
  destruct (String.eqb n_name name); [discriminate | exact IH].
Qed.

(** The entry found for a name is an entry of that name. *)
Lemma find_entry_Some (name : string) (entries : list ParamData) (n : ParamData) :
  find_entry name entries = Ok (Some n) -> n ∈ entries /\ pd_name n = Some name.
Proof.
  induction entries as [|n' entries IH]; simpl; [discriminate|].
  destruct (pd_name n') as [n_name|] eqn:En; simpl; [|discriminate].
  destruct (String.eqb_spec n_name name) as [->|Hne].
  - intros [= <-]. split; [apply list_elem_of_here | exact En].
  - intros H. destruct (IH H). split; [now apply list_elem_of_further | assumption].
Qed.

(** An entry of another name does not change what is found. *)
Lemma find_entry_skip (name entry_name : string) (before after : list ParamData)
  (extra : ParamData) :
  pd_name extra = Some entry_name -> name <> entry_name ->
  find_entry name (before ++ extra :: after) = find_entry name (before ++ after).
Proof.
  intros Hextra Hne. induction before as [|n before IH]; simpl.
  - rewrite Hextra. simpl.
    destruct (String.eqb_spec entry_name name); [congruence | reflexivity].
  - destruct (pd_name n); simpl; [|reflexivity].
    destruct (String.eqb _ name); [reflexivity | exact IH].
Qed.

Lemma update_from_data_matched (self : HelpParameter) (data : ParamData) (e : exn) :
  pd_name data = Some (name self) ->
  update_from_data self data = Raise e -> e = IndexError.
Proof.
  intros Hname. unfold update_from_data. rewrite Hname.
  rewrite bool_decide_eq_true_2 by reflexivity. simpl.
  set (self0 := if text_truthy (pd_type data) then _ else self).
  destruct (if text_truthy (pd_short_summary data) then _ else Ok self0)
    as [self1|e1] eqn:E1; simpl.
  - destruct (if text_truthy (pd_long_summary data) then _ else Ok self1)
      as [self2|e2] eqn:E2; simpl; [discriminate|].
    intros [= <-]. destruct (text_truthy (pd_long_summary data)); [|discriminate].
    now apply set_long_summary_raises in E2.
  - intros [= <-]. destruct (text_truthy (pd_short_summary data)); [|discriminate].
    now apply set_short_summary_raises in E1.
Qed.

Lemma update_from_data_mismatched (self : HelpParameter) (data : ParamData) :
  pd_name data <> Some (name self) ->
  exists msg, update_from_data self data = Raise (HelpAuthoringException msg).
Proof.
  intros Hne. unfold update_from_data.
  rewrite bool_decide_eq_false_2 by congruence. simpl. eauto.
Qed.

Lemma load_param_raises (entries : list ParamData) (param : HelpParameter) (e : exn) :
  load_param entries param = Raise e -> load_failure e.
Proof.
  unfold load_param.
  destruct (find_entry (name param) entries) as [[n|]|e'] eqn:E; simpl.
  - apply find_entry_Some in E as [_ Hname].
    intros He%update_from_data_matched; [now left | exact Hname].
  - discriminate.
  - intros [= <-]. now apply find_entry_raises in E.
Qed.

Lemma CommandHelpFile_load_from_data_raises (self : CommandHelpFile)
  (data : HelpData) (e : exn) :
  CommandHelpFile_load_from_data self data = Raise e -> load_failure e.
Proof.
  unfold CommandHelpFile_load_from_data.
  destruct (HelpFile_load_from_data (base self) data) as [base'|e'] eqn:E; simpl.
  - destruct data as [text|d]; [discriminate|].
    destruct (_ || _); [discriminate|].
    destruct (map_result _ (parameters self)) as [ps|e'] eqn:Eps; simpl;
      [discriminate|].
    intros [= <-]. apply map_result_raises in Eps as (p & _ & Hp).
    now apply load_param_raises in Hp.
  - intros [= <-]. now apply HelpFile_load_from_data_raises in E.
Qed.

Definition with_parameters (entries : list ParamData) (d : DocData) : DocData :=
  {| dd_type := dd_type d; dd_short_summary := dd_short_summary d;
     dd_long_summary := dd_long_summary d; dd_examples := dd_examples d;
     dd_parameters := Some entries |}.

(** C1, as amended: the merge walks the live parameters and looks each
    one up by name, so an override entry whose name is the name of no
    live parameter changes nothing, wherever it stands among the entries;
    the merge raises no [HelpAuthoringException], only the index and key
    errors of malformed data; the mismatch is raised by
    [update_from_data] itself, exactly when it is handed an entry of
    another name. *)
Theorem override_entry_without_parameter_ignored (self : CommandHelpFile)
  (d : DocData) (before after : list ParamData) (extra : ParamData)
  (entry_name : string) :
  pd_name extra = Some entry_name ->
  (forall p, p ∈ parameters self -> name p <> entry_name) ->
  CommandHelpFile_load_from_data self
    (DataDoc (with_parameters (before ++ extra :: after) d))
  = CommandHelpFile_load_from_data self
      (DataDoc (with_parameters (before ++ after) d))
  /\ (forall data msg,
        CommandHelpFile_load_from_data self data
        <> Raise (HelpAuthoringException msg))
  /\ (forall p data,
        pd_name data <> Some (name p) <->
        exists msg, update_from_data p data = Raise (HelpAuthoringException msg)).
Proof.
  intros Hextra Hlive. split; [|split].
  - unfold CommandHelpFile_load_from_data.
    change (HelpFile_load_from_data (base self)
              (DataDoc (with_parameters (before ++ extra :: after) d)))
      with (HelpFile_load_from_data (base self)
              (DataDoc (with_parameters (before ++ after) d))).
    destruct (HelpFile_load_from_data _ _) as [base'|e]; simpl; [|reflexivity].
    revert Hlive. generalize (parameters self) as params. intros params Hlive.
    destruct params as [|p ps]; [reflexivity|]. cbn [orb].
    set (params := p :: ps) in *.
    assert (Htrue : list_truthy (Some (before ++ extra :: after)) = true)
      by (destruct before; reflexivity).
    simpl in Htrue. rewrite Htrue. cbn [negb].
    assert (Hwalk : map_result (load_param (before ++ extra :: after)) params
                    = map_result (load_param (before ++ after)) params).
    { apply map_result_ext. intros q Hq. unfold load_param.
      now rewrite (find_entry_skip (name q) entry_name before after extra Hextra
                     (Hlive q Hq)). }
    rewrite Hwalk. destruct (before ++ after) as [|n rest]; [|reflexivity].
    rewrite (map_result_map (load_param []) id) by reflexivity.
    now rewrite map_id.
  - intros data msg He. apply CommandHelpFile_load_from_data_raises in He.
    destruct He as [?|[? ?]]; discriminate.
  - intros p data. split; [apply update_from_data_mismatched|].
    intros [msg He] Hname.
    apply update_from_data_matched in He; [discriminate | exact Hname].
Qed.

(** A command with its help parameter and one more, and an override
    document with an entry for a parameter the command does not have. *)
Definition help_param : HelpParameter :=
  {| name := "--help -h"; required := false; param_type := "string";
     param_short_summary := "Show this help message and exit.";
     param_long_summary := EmptyString;
     value_sources := []; choices := None; default_value := PNone;
     group_name := Some "Global Arguments" |}.

Definition create_command : CommandHelpFile :=
  {| base := {| delimiters := "vm create"; file_name := "create";
                command := "vm create"; file_type := "command";
                file_short_summary := EmptyString;
                file_long_summary := EmptyString; examples := [] |};
     parameters := [help_param; name_param] |}.

Definition nonexistent_entry : ParamData :=
  {| pd_name := Some "--nonexistent"; pd_type := None;
     pd_short_summary := Some "never shown"; pd_long_summary := None;
     pd_populator_commands := None |}.

Definition name_entry : ParamData :=
  {| pd_name := Some "--name -n"; pd_type := None;
     pd_short_summary := Some "the name of the machine";
     pd_long_summary := None; pd_populator_commands := None |}.

Definition empty_doc : DocData :=
  {| dd_type := None; dd_short_summary := None; dd_long_summary := None;
     dd_examples := None; dd_parameters := None |}.

Lemma override_entry_without_parameter_ignored_witness :
  CommandHelpFile_load_from_data create_command
    (DataDoc (with_parameters [nonexistent_entry; name_entry] empty_doc))
  = CommandHelpFile_load_from_data create_command
      (DataDoc (with_parameters [name_entry] empty_doc)).
Proof.
  apply (override_entry_without_parameter_ignored create_command empty_doc
           [] [name_entry] nonexistent_entry "--nonexistent").
  - reflexivity.
  - intros p Hp. simpl in Hp.
    apply elem_of_cons in Hp as [->|Hp]; [discriminate|].
    apply elem_of_cons in Hp as [->|Hp]; [discriminate|].
    now apply elem_of_nil in Hp.
Defined.

(** C1: an override whose only parameter entry is named [--nonexistent]
    is merged without any exception, and the parameters stay as they
    were. *)
Lemma override_nonexistent_parameter_merged :
  CommandHelpFile_load_from_data create_command
    (DataDoc (with_parameters [nonexistent_entry] empty_doc))
  = Ok create_command.
Proof. reflexivity. Qed.

(** *** Help: the help parameter of a command *)

(** The name a parameter gets from the flags of its action. *)
Definition action_name (action : Action) : string :=
  join " " (sorted id (option_strings action)).

(** The actions shown in the help. *)
Definition shown_actions (parser : Parser) : list Action :=
  List.filter (fun a => negb (bool_decide (help a = Some SUPPRESS))) (_actions parser).

Definition build_parameter (action : Action) : pyres HelpParameter :=
  new_HelpParameter (action_name action) (help action) (action_required action)
    (action_choices action) (action_default action) (container_description action).

Lemma new_HelpParameter_name (param_name : string) (description : option string)
  (required : bool) (choices : option (list string)) (default : pyval)
  (group : option string) (p : HelpParameter) :
  new_HelpParameter param_name description required choices default group = Ok p ->
  name p = param_name.
Proof.
  unfold new_HelpParameter, set_short_summary, set_long_summary.
  destruct (_normalize_text description); simpl; [|discriminate].
  now intros [= <-].
Qed.

Lemma new_HelpParameter_raises (param_name : string) (description : option string)
  (required : bool) (choices : option (list string)) (default : pyval)
  (group : option string) (e : exn) :
  new_HelpParameter param_name description required choices default group = Raise e ->
  e = IndexError.
Proof.
  unfold new_HelpParameter.
  destruct (set_short_summary description _) as [self1|e1] eqn:E1; simpl.
  - discriminate.
  - intros [= <-]. now apply set_short_summary_raises in E1.
Qed.

Lemma new_HelpFile_raises (delimiters : string) (e : exn) :
  new_HelpFile delimiters = Raise e -> e = IndexError.
Proof.
  unfold new_HelpFile.
  destruct (negb (String.eqb delimiters EmptyString)); simpl; [|discriminate].
  destruct (last (split delimiters)); simpl; [discriminate | now intros [= <-]].
Qed.

Lemma map_result_names (actions : list Action) (ps : list HelpParameter) :
  map_result build_parameter actions = Ok ps ->
  map name ps = map action_name actions.
Proof.
  revert ps. induction actions as [|a actions IH]; intros ps; simpl.
  - now intros [= <-].
  - destruct (build_parameter a) as [p|] eqn:Ep; simpl; [|discriminate].
    destruct (map_result build_parameter actions) as [ps'|]; simpl; [|discriminate].
    intros [= <-]. simpl. rewrite (IH ps' eq_refl).
    now rewrite (new_HelpParameter_name _ _ _ _ _ _ _ Ep).
Qed.

(** The first parameter named [--help -h] gets the group, in place. *)
Lemma force_help_group_Ok (ps ps' : list HelpParameter) :
  force_help_group ps = Ok ps' ->
  exists before p after,
    ps = before ++ p :: after
    /\ ps' = before ++ with_group_name (Some "Global Arguments") p :: after
    /\ name p = "--help -h"
    /\ Forall (fun q => name q <> "--help -h") before.
Proof.
  revert ps'. induction ps as [|q ps IH]; intros ps'; simpl; [discriminate|].
  destruct (String.eqb_spec (name q) "--help -h") as [Hq|Hq].
  - intros [= <-]. exists [], q, ps. repeat split; [exact Hq | constructor].
  - destruct (force_help_group ps) as [ps0|]; simpl; [|discriminate].
    intros [= <-]. destruct (IH ps0 eq_refl) as (before & p & after & -> & -> & Hp & Hb).
    exists (q :: before), p, after. repeat split; [exact Hp | now constructor].
Qed.

Lemma force_help_group_Raise (ps : list HelpParameter) :
  Forall (fun q => name q <> "--help -h") ps ->
  force_help_group ps = Raise StopIteration.
Proof.
  induction 1 as [|q ps Hq _ IH]; simpl; [reflexivity|].
  destruct (String.eqb_spec (name q) "--help -h"); [contradiction|].
  now rewrite IH.
Qed.


Definition create_parser : Parser :=
  {| _actions :=
       [ {| option_strings := ["-h"; "--help"];
            help := Some "show this help message and exit";
            action_required := false; action_choices := None;
            action_default := PStr "==SUPPRESS=="; container_description := None |};
         {| option_strings := ["--name"; "-n"]; help := Some "the name";
            action_required := true; action_choices := None;
            action_default := PNone; container_description := Some "Machine" |};
         {| option_strings := ["--debug"]; help := Some SUPPRESS;
            action_required := false; action_choices := None;
            action_default := PNone; container_description := None |} ] |}.

Example create_command_built :
  (cmd ← new_CommandHelpFile "vm create" create_parser;
   Ok (map (fun p => (name p, group_name p)) (parameters cmd)))
  = Ok [("--help -h", Some "Global Arguments"); ("--name -n", Some "Machine")].
Proof. reflexivity. Qed.

Example command_without_help_raises :
  new_CommandHelpFile "vm create"
    {| _actions := [ {| option_strings := ["--name"; "-n"]; help := Some "the name";
                        action_required := true; action_choices := None;
                        action_default := PNone;
                        container_description := None |} ] |}
  = Raise StopIteration.
Proof. reflexivity. Qed.

(** *** Help: the order of the argument listing *)

(** Comparison of texts made of two parts. *)
Lemma compare_append (a b x y : string) :
  String.length a = String.length b ->
  String.compare (a +:+ x) (b +:+ y)
  = match String.compare a b with
    | Eq => String.compare x y
    | c => c
    end.
Proof.
  revert b. induction a as [|c a IH]; intros [|d b]; simpl; try discriminate.
  - reflexivity.
  - intros [= Hlen]. rewrite ?append_cons. simpl.
    destruct (Ascii.compare c d); [now apply IH | reflexivity | reflexivity].
Qed.

Lemma compare_refl (s : string) : String.compare s s = Eq.
Proof.
  induction s as [|c s IH]; simpl; [reflexivity|].
  unfold Ascii.compare. now rewrite N.compare_refl.
Qed.

Lemma le_compare (a b : string) : String.le a b <-> String.compare a b <> Gt.
Proof.
  unfold String.le, String.leb. destruct (String.compare a b); simpl; split;
    intros H; try exact I; try discriminate; try (exfalso; now apply H);
    try (destruct H).
Qed.

(** Decimal digits of a fixed width. *)
Fixpoint fixed (width : nat) (n : N) : string :=
  match width with
  | O => EmptyString
  | S width' => fixed width' (n / 10) +:+ String (digit_char (n mod 10)) EmptyString
  end.

Lemma length_fixed (width : nat) (n : N) : String.length (fixed width n) = width.
Proof.
  revert n. induction width as [|width IH]; intros n; simpl; [reflexivity|].
  rewrite length_append, IH. simpl. lia.
Qed.

Lemma digit_char_compare (a b : N) :
  (a < 10)%N -> (b < 10)%N ->
  Ascii.compare (digit_char a) (digit_char b) = N.compare a b.
Proof.
  intros Ha Hb. unfold Ascii.compare, digit_char.
  rewrite !N_ascii_embedding by lia.
  destruct (N.compare_spec a b) as [Hc|Hc|Hc];
    [apply N.compare_eq_iff | apply N.compare_lt_iff | apply N.compare_gt_iff];
    lia.
Qed.

Lemma compare_div_mod_10 (n m : N) :
  N.compare n m
  = match N.compare (n / 10) (m / 10) with
    | Eq => N.compare (n mod 10) (m mod 10)
    | c => c
    end.
Proof.
  pose proof (N.div_mod n 10 ltac:(lia)) as Hdn.
  pose proof (N.div_mod m 10 ltac:(lia)) as Hdm.
  pose proof (N.mod_lt n 10 ltac:(lia)) as Hrn.
  pose proof (N.mod_lt m 10 ltac:(lia)) as Hrm.
  destruct (N.compare_spec (n / 10) (m / 10)) as [Hq|Hq|Hq];
    [destruct (N.compare_spec (n mod 10) (m mod 10)) as [Hr|Hr|Hr]| |];
    revert Hdn Hdm Hrn Hrm Hq; try revert Hr;
    generalize (n / 10)%N (m / 10)%N (n mod 10)%N (m mod 10)%N;
    intros qn qm rn rm; intros;
    first [apply N.compare_eq_iff; lia | apply N.compare_lt_iff; lia
           | apply N.compare_gt_iff; lia].
Qed.

Lemma fixed_compare (width : nat) (n m : N) :
  (n < 10 ^ N.of_nat width)%N -> (m < 10 ^ N.of_nat width)%N ->
  String.compare (fixed width n) (fixed width m) = N.compare n m.
Proof.
  revert n m. induction width as [|width IH]; intros n m Hn Hm.
  - simpl in *. assert (n = 0%N) by lia. assert (m = 0%N) by lia. now subst.
  - rewrite Nat2N.inj_succ, N.pow_succ_r' in Hn, Hm. simpl.
    rewrite compare_append by (now rewrite !length_fixed).
    rewrite IH by (apply N.Div0.div_lt_upper_bound; lia).
    simpl. rewrite digit_char_compare by (apply N.mod_lt; lia).
    rewrite (compare_div_mod_10 n m).
    now destruct (N.compare (n / 10) (m / 10)), (N.compare (n mod 10) (m mod 10)).
Qed.

Lemma fixed_zero (width : nat) : fixed width 0 = zeros width.
Proof.
  induction width as [|width IH]; simpl; [reflexivity|].
  change (0 / 10)%N with 0%N. rewrite IH. clear IH.
  induction width as [|width IH]; [reflexivity|].
  simpl. now rewrite append_cons, IH.
Qed.

Lemma log2_div_10 (n : N) : (10 <= n)%N -> (N.log2 (n / 10) < N.log2 n)%N.
Proof.
  intros Hn.
  assert (Hpos : (0 < n / 10)%N).
  { apply N.div_str_pos. lia. }
  apply N.log2_lt_pow2; [exact Hpos|].
  destruct (N.log2_spec n ltac:(lia)) as [Hlo Hhi].
  rewrite N.pow_succ_r' in Hhi.
  apply N.Div0.div_lt_upper_bound; lia.
Qed.

(** With enough fuel, the digits padded with zeros are the digits of a
    fixed width. *)
Lemma digits_fixed (width : nat) (fuel : nat) (n : N) :
  (n < 10 ^ N.of_nat (S width))%N -> (N.to_nat (N.log2 n) < fuel)%nat ->
  zeros (S width - String.length (digits fuel n)) +:+ digits fuel n
  = fixed (S width) n.
Proof.
  revert fuel n. induction width as [|width IH]; intros fuel n Hn Hfuel;
    (destruct fuel as [|fuel]; [lia|]); simpl digits.
  - change (10 ^ N.of_nat 1)%N with 10%N in Hn.
    rewrite (proj2 (N.ltb_lt n 10) Hn).
    change (fixed 1 n) with (String (digit_char (n mod 10)) EmptyString).
    now rewrite N.mod_small.
  - destruct (N.ltb_spec n 10) as [Hsmall|Hbig].
    + simpl String.length.
      change (fixed (S (S width)) n)
        with (fixed (S width) (n / 10) +:+ String (digit_char (n mod 10)) EmptyString).
      rewrite N.div_small, N.mod_small by exact Hsmall.
      rewrite fixed_zero. replace (S (S width) - 1)%nat with (S width) by lia.
      reflexivity.
    + change (fixed (S (S width)) n)
        with (fixed (S width) (n / 10) +:+ String (digit_char (n mod 10)) EmptyString).
      rewrite <- (IH fuel (n / 10)%N).
      * rewrite length_append, append_assoc. simpl String.length.
        replace (S (S width) - (String.length (digits fuel (n / 10)%N) + 1))%nat
          with (S width - String.length (digits fuel (n / 10)%N))%nat by lia.
        reflexivity.
      * rewrite Nat2N.inj_succ, N.pow_succ_r' in Hn.
        apply N.Div0.div_lt_upper_bound; lia.
      * pose proof (log2_div_10 n Hbig). lia.
Qed.

Lemma format_06d_fixed (n : N) : (n < 1000000)%N -> format_06d n = fixed 6 n.
Proof.
  intros Hn. unfold format_06d, str_N. apply digits_fixed; [exact Hn | lia].
Qed.

(** The registry. *)

Lemma assign_priorities_other (groups : list string) (priority : N)
  (m : gmap (option string) N) (k : option string) :
  k ∉ (Some <$> groups) ->
  assign_priorities groups priority m !! k = m !! k.
Proof.
  revert priority m. induction groups as [|g groups IH]; intros priority m Hk;
    simpl; [reflexivity|].
  rewrite fmap_cons, not_elem_of_cons in Hk. destruct Hk as [Hne Hk].
  rewrite IH by exact Hk. now rewrite lookup_insert_ne.
Qed.

Lemma assign_priorities_nth (groups : list string) (priority : N)
  (m : gmap (option string) N) (i : nat) (g : string) :
  NoDup groups -> groups !! i = Some g ->
  assign_priorities groups priority m !! Some g = Some (priority + N.of_nat i)%N.
Proof.
  revert priority m i.
  induction groups as [|g0 groups IH]; intros priority m i Hnd Hi; [discriminate|].
  apply NoDup_cons in Hnd as [Hg0 Hnd]. destruct i as [|i]; simpl in *.
  - injection Hi as ->. rewrite assign_priorities_other.
    + rewrite lookup_insert_eq. f_equal. lia.
    + intros (g' & [= <-] & Hin)%list_elem_of_fmap. contradiction.
  - rewrite (IH _ _ i Hnd Hi). f_equal. lia.
Qed.

Lemma distinct_sorted_elem_of (group_list : list string) (g : string) :
  g ∈ distinct_sorted group_list <-> g ∈ group_list.
Proof.
  unfold distinct_sorted. rewrite <- (sorted_perm id).
  now rewrite elem_of_elements, elem_of_list_to_set.
Qed.

Lemma distinct_sorted_NoDup (group_list : list string) :
  NoDup (distinct_sorted group_list).
Proof.
  unfold distinct_sorted. rewrite <- (sorted_perm id). apply NoDup_elements.
Qed.

Lemma static_priorities_lookup (g : string) :
  static_priorities !! Some g = None <-> g <> "Global Arguments".
Proof.
  unfold static_priorities. destruct (decide (g = "Global Arguments")) as [->|Hne].
  - rewrite lookup_insert_ne by discriminate. rewrite lookup_singleton_eq.
    split; [discriminate | congruence].
  - rewrite lookup_insert_ne by discriminate.
    rewrite lookup_singleton_ne by congruence. tauto.
Qed.

Lemma other_groups_elem_of (group_list : list string) (g : string) :
  g ∈ other_groups static_priorities group_list
  <-> g ∈ group_list /\ g <> "Global Arguments".
Proof.
  unfold other_groups.
  rewrite list_elem_of_In, filter_In, <- list_elem_of_In, distinct_sorted_elem_of.
  now rewrite bool_decide_eq_true, static_priorities_lookup.
Qed.

Lemma other_groups_NoDup (group_list : list string) :
  NoDup (other_groups static_priorities group_list).
Proof.
  unfold other_groups. apply NoDup_ListNoDup, List.NoDup_filter, NoDup_ListNoDup.
  apply distinct_sorted_NoDup.
Qed.

Lemma other_groups_sorted (group_list : list string) :
  StronglySorted String.le (other_groups static_priorities group_list).
Proof.
  unfold other_groups, distinct_sorted.
  generalize (sorted_id_strongly (elements (list_to_set group_list : gset string))).
  generalize (sorted id (elements (list_to_set group_list : gset string))).
  intros l. induction 1 as [|g l Hl IH Hg]; simpl; [constructor|].
  destruct (bool_decide _); [|exact IH].
  constructor; [exact IH|].
  apply Forall_forall. intros g' Hg'.
  apply list_elem_of_In, filter_In in Hg' as [Hg' _].
  rewrite Forall_forall in Hg. now apply Hg, list_elem_of_In.
Qed.

(** The rank of every group: 0 for no group, 1000 for the global
    arguments, 2 and up for the others in alphabetical order, 0 for a
    name that was not registered. *)
Lemma priority_of_None (group_list : list string) :
  priority_of (new_registry group_list) None = 0%N.
Proof.
  unfold priority_of, new_registry. simpl.
  rewrite assign_priorities_other.
  - reflexivity.
  - intros (g & [=] & _)%list_elem_of_fmap.
Qed.

Lemma priority_of_global (group_list : list string) :
  priority_of (new_registry group_list) (Some "Global Arguments") = 1000%N.
Proof.
  unfold priority_of, new_registry. simpl.
  rewrite assign_priorities_other.
  - reflexivity.
  - intros (g & [= <-] & Hin)%list_elem_of_fmap.
    apply other_groups_elem_of in Hin as [_ Hne]. now apply Hne.
Qed.

Lemma priority_of_other (group_list : list string) (i : nat) (g : string) :
  other_groups static_priorities group_list !! i = Some g ->
  priority_of (new_registry group_list) (Some g) = (2 + N.of_nat i)%N.
Proof.
  intros Hi. unfold priority_of, new_registry. simpl.
  now rewrite (assign_priorities_nth _ _ _ i g (other_groups_NoDup group_list) Hi).
Qed.

Lemma priority_of_unregistered (group_list : list string) (g : string) :
  g ∉ group_list -> g <> "Global Arguments" ->
  priority_of (new_registry group_list) (Some g) = 0%N.
Proof.
  intros Hg Hne. unfold priority_of, new_registry. simpl.
  rewrite assign_priorities_other.
  - now rewrite (proj2 (static_priorities_lookup g) Hne).
  - intros (g' & [= <-] & Hin)%list_elem_of_fmap.
    apply other_groups_elem_of in Hin as [Hin _]. contradiction.
Qed.

Lemma priority_of_bound (group_list : list string) (k : option string) :
  (N.of_nat (length (other_groups static_priorities group_list)) + 2 <= 1000000)%N ->
  (priority_of (new_registry group_list) k < 1000000)%N.
Proof.
  intros Hbound.
  destruct (decide (k ∈ (Some <$> other_groups static_priorities group_list)))
    as [Hin|Hout].
  - apply list_elem_of_fmap in Hin as (g & -> & Hin).
    apply list_elem_of_lookup in Hin as [i Hi].
    rewrite (priority_of_other _ i g Hi).
    apply lookup_lt_Some in Hi. lia.
  - unfold priority_of, new_registry. simpl.
    rewrite assign_priorities_other by exact Hout.
    unfold static_priorities. destruct k as [g|].
    + destruct (decide (g = "Global Arguments")) as [->|Hne].
      * rewrite lookup_insert_ne by discriminate.
        rewrite lookup_singleton_eq. simpl. lia.
      * rewrite lookup_insert_ne by discriminate.
        rewrite lookup_singleton_ne by congruence. simpl. lia.
    + rewrite lookup_insert_eq. simpl. lia.
Qed.

(** The sort key, read as the triple it is made of. *)

(** [p] goes before [q], or may: its group ranks lower, or they rank the
    same and [p] is required while [q] is not, or they agree on that too
    and the name of [p] is not the greater. *)
Definition listed_before (reg : ArgumentGroupRegistry) (p q : HelpParameter) : Prop :=
  (priority_of reg (group_name p) < priority_of reg (group_name q))%N
  \/ (priority_of reg (group_name p) = priority_of reg (group_name q)
      /\ ((required p = true /\ required q = false)
          \/ (required p = required q /\ String.le (name p) (name q)))).

Lemma str_bool_compare (b1 b2 : bool) (x y : string) :
  String.compare (str_bool b1 +:+ x) (str_bool b2 +:+ y)
  = match b1, b2 with
    | false, true => Lt
    | true, false => Gt
    | _, _ => String.compare x y
    end.
Proof.
  destruct b1, b2; unfold str_bool;
    rewrite ?(compare_append "True" "True"), ?(compare_append "False" "False")
      by reflexivity;
    reflexivity.
Qed.

Lemma _get_parameter_key_compare (reg : ArgumentGroupRegistry) (p q : HelpParameter) :
  (priority_of reg (group_name p) < 1000000)%N ->
  (priority_of reg (group_name q) < 1000000)%N ->
  String.compare (_get_parameter_key reg p) (_get_parameter_key reg q)
  = match N.compare (priority_of reg (group_name p)) (priority_of reg (group_name q)) with
    | Eq => match required p, required q with
            | true, false => Lt
            | false, true => Gt
            | _, _ => String.compare (name p) (name q)
            end
    | c => c
    end.
Proof.
  intros Hp Hq. unfold _get_parameter_key, get_group_priority.
  rewrite !format_06d_fixed by assumption.
  rewrite compare_append by (now rewrite !length_fixed).
  rewrite fixed_compare by assumption.
  rewrite str_bool_compare. now destruct (required p), (required q).
Qed.

Lemma _get_parameter_key_le (reg : ArgumentGroupRegistry) (p q : HelpParameter) :
  (priority_of reg (group_name p) < 1000000)%N ->
  (priority_of reg (group_name q) < 1000000)%N ->
  String.le (_get_parameter_key reg p) (_get_parameter_key reg q)
  <-> listed_before reg p q.
Proof.
  intros Hp Hq. rewrite le_compare, _get_parameter_key_compare by assumption.
  unfold listed_before.
  destruct (N.compare_spec (priority_of reg (group_name p))
                           (priority_of reg (group_name q))) as [Heq|Hlt|Hgt].
  - destruct (required p), (required q); split.
    + intros H. right. split; [exact Heq|]. right. split; [reflexivity|].
      now apply le_compare.
    + intros [?|[_ [[_ ?]|[_ ?]]]]; [lia | discriminate | now apply le_compare].
    + intros _. right. split; [exact Heq|]. now left.
    + discriminate.
    + intros H. exfalso. now apply H.
    + intros [?|[_ [[? _]|[? _]]]]; [lia | discriminate | discriminate].
    + intros H. right. split; [exact Heq|]. right. split; [reflexivity|].
      now apply le_compare.
    + intros [?|[_ [[? _]|[_ ?]]]]; [lia | discriminate | now apply le_compare].
  - split; [intros _; now left | discriminate].
  - split; [intros H; exfalso; now apply H|]. intros [?|[? _]]; lia.
Qed.


(** Parameters in no group, in [Networking] and in [Global Arguments],
    required or not. *)
Definition listed_param (param_name : string) (is_required : bool)
  (group : option string) : HelpParameter :=
  {| name := param_name; required := is_required; param_type := "string";
     param_short_summary := EmptyString; param_long_summary := EmptyString;
     value_sources := []; choices := None; default_value := PNone;
     group_name := group |}.

Definition network_parameters : list HelpParameter :=
  [ listed_param "--help -h" false (Some "Global Arguments");
    listed_param "--zone" false (Some "Networking");
    listed_param "--name -n" true None;
    listed_param "--vnet" true (Some "Networking");
    listed_param "--alpha" false None;
    listed_param "--verbose" true (Some "Global Arguments") ].


(* ===================================================================== *)
(** ** Further properties *)
(* ===================================================================== *)

(** *** TSV output: rows and columns *)

Lemma _dump_row_write (item : pyval) (stream : string) :
  _dump_row item stream = stream +:+ _dump_row item EmptyString.
Proof.
  unfold _dump_row, write.
  destruct item as [| | | | |[] ?|]; rewrite ?dump_values_line, ?_dump_obj_write;
    rewrite ?(dump_values_line _ EmptyString), ?(_dump_obj_write _ EmptyString);
    now rewrite ?append_nil_l, ?append_assoc.
Qed.

Lemma tsv_dump_from (data : list pyval) (stream : string) :
  fold_left (fun io item => _dump_row item io) data stream
  = stream +:+ tsv_dump data.
Proof.
  unfold tsv_dump. revert stream.
  induction data as [|item data IH]; intros stream; simpl.
  - now rewrite append_nil_r.
  - rewrite IH, (IH (_dump_row item EmptyString)), (_dump_row_write item stream).
    now rewrite append_assoc.
Qed.

(** The TSV text has no header and is made row by row: the text of two
    lists of items one after the other is the text of the first followed
    by the text of the second, an item that is not a list being a row of
    its own; no item gives the empty text. *)
Theorem tsv_dump_app (data more : list pyval) :
  tsv_dump (data ++ more) = tsv_dump data +:+ tsv_dump more
  /\ tsv_dump [] = EmptyString
  /\ (forall item, tsv_dump [item] = _dump_row item EmptyString)
  /\ (forall obj, _format_tsv obj = tsv_dump (result_list (result obj))).
Proof.
  split; [|repeat split].
  unfold tsv_dump at 1. rewrite fold_left_app.
  change (fold_left _ data EmptyString) with (tsv_dump data).
  apply tsv_dump_from.
Qed.

(** How often a character occurs in a text. *)
Fixpoint count_char (c : ascii) (s : string) : nat :=
  match s with
  | EmptyString => 0
  | String x s' => (if Ascii.eqb x c then 1 else 0) + count_char c s'
  end.

Lemma count_char_append (c : ascii) (a b : string) :
  count_char c (a +:+ b) = (count_char c a + count_char c b)%nat.
Proof.
  induction a as [|x a IH]; [reflexivity|].
  rewrite append_cons. simpl. rewrite IH. lia.
Qed.

Lemma count_char_tsv_line (values : list pyval) :
  Forall (fun v => count_char "009"%char (tsv_cell v) = 0%nat) values ->
  count_char "009"%char (tsv_line values) = pred (length values).
Proof.
  unfold tsv_line, join.
  induction 1 as [|v values Hv Hall IH]; [reflexivity|].
  destruct values as [|v' values]; simpl in *; [exact Hv|].
  rewrite !count_char_append, Hv, IH. reflexivity.
Qed.

(** A row of values whose texts hold no tab is written with one tab
    between two values and none elsewhere: a row of [n] values, [n] at
    least 1, has [n - 1] tabs.  Text is written as it is: a tab inside a
    value is not escaped and counts as well. *)
Theorem tsv_row_tabs (values : list pyval) :
  Forall (fun v => count_char "009"%char (tsv_cell v) = 0%nat) values ->
  count_char "009"%char (_dump_row (PList values) EmptyString)
  = pred (length values)
  /\ (forall s, count_char "009"%char (tsv_cell (PStr s)) = count_char "009"%char s)
  /\ (forall v, count_char "009"%char (tsv_cell v) = 0%nat ->
        count_char "009"%char (_dump_row (PList (values ++ [v])) EmptyString)
        = length values).
Proof.
  intros Hall.
  assert (Hrow : forall vs,
             Forall (fun v => count_char "009"%char (tsv_cell v) = 0%nat) vs ->
             count_char "009"%char (_dump_row (PList vs) EmptyString)
             = pred (length vs)).
  { intros vs Hvs. unfold _dump_row, write.
    rewrite dump_values_line, append_nil_l, count_char_append.
    rewrite (count_char_tsv_line vs Hvs). simpl. lia. }
  split; [now apply Hrow|]. split; [reflexivity|].
  intros v Hv. rewrite Hrow.
  - rewrite length_app. simpl. lia.
  - apply Forall_app. split; [exact Hall | now constructor].
Qed.

Lemma tsv_row_tabs_witness :
  count_char "009"%char
    (_dump_row (PList [PStr "a"; PInt 12; PNone; PList [PNone]]) EmptyString)
  = 3%nat.
Proof.
  apply (tsv_row_tabs [PStr "a"; PInt 12; PNone; PList [PNone]]).
  repeat constructor.
Defined.

(** *** Help: more on normalized summaries *)

Lemma lstrip_empty (s : string) :
  lstrip s = EmptyString <-> all_chars isspace s = true.
Proof.
  induction s as [|c s IH]; simpl; [tauto|].
  destruct (isspace c); simpl; [exact IH|]. split; discriminate.
Qed.

Lemma rstrip_empty (s : string) :
  rstrip s = EmptyString <-> all_chars isspace s = true.
Proof.
  induction s as [|c s IH]; simpl; [tauto|].
  destruct (rstrip s) as [|x r] eqn:E.
  - destruct (isspace c); simpl; [|split; discriminate].
    split; intros _; [now apply IH | reflexivity].
  - split; [discriminate|]. intros [_ H]%andb_true_iff.
    apply IH in H. discriminate.
Qed.

Lemma all_chars_lstrip (s : string) :
  all_chars isspace (lstrip s) = true -> all_chars isspace s = true.
Proof.
  induction s as [|c s IH]; simpl; [tauto|].
  destruct (isspace c) eqn:E; simpl; [exact IH|]. now rewrite E.
Qed.

(** A text strips to nothing exactly when it is all white space. *)
Lemma strip_empty (s : string) :
  strip s = EmptyString <-> all_chars isspace s = true.
Proof.
  unfold strip. rewrite rstrip_empty. split.
  - apply all_chars_lstrip.
  - intros H. apply lstrip_empty in H. now rewrite H.
Qed.

Lemma _normalize_text_blank (s : string) :
  (2 <= String.length s)%nat -> all_chars isspace s = true ->
  _normalize_text (Some s) = Raise IndexError.
Proof.
  intros Hlen Hall. unfold _normalize_text.
  destruct (String.eqb_spec s EmptyString) as [->|Hs]; [simpl in Hlen; lia|].
  destruct (Nat.ltb_spec (String.length s) 2) as [Hlt|Hge]; [lia|].
  simpl. now rewrite (proj2 (strip_empty s) Hall).
Qed.


Lemma lstrip_id (s : string) :
  (forall c, first_char s = Some c -> isspace c = false) -> lstrip s = s.
Proof.
  destruct s as [|c s]; [reflexivity|]. intros H. simpl.
  now rewrite (H c eq_refl).
Qed.

Lemma rstrip_id (s : string) :
  (forall c, last_char s = Some c -> isspace c = false) -> rstrip s = s.
Proof.
  induction s as [|c s IH]; [reflexivity|]. intros H. simpl.
  destruct s as [|x s].
  - simpl. now rewrite (H c eq_refl).
  - rewrite IH; [reflexivity|]. intros c' Hc'. apply H.
    now rewrite last_char_cons by discriminate.
Qed.

Lemma strip_id (s : string) : trimmed s -> strip s = s.
Proof.
  intros [Hfirst Hlast]. unfold strip.
  rewrite (lstrip_id s Hfirst). now apply rstrip_id.
Qed.

Lemma upper_char_idem (c : ascii) : upper_char (upper_char c) = upper_char c.
Proof. destruct c as [[] [] [] [] [] [] [] []]; reflexivity. Qed.

Lemma sentence_fixed (s : string) :
  s <> EmptyString -> trimmed s -> sentence (sentence s) = sentence s.
Proof.
  intros Hne Htrim.
  destruct (sentence_shape s Hne Htrim) as (_ & _ & Hend & Hfirst & _).
  unfold sentence at 1. rewrite Hend, append_nil_r.
  destruct (sentence s) as [|c rest] eqn:E; [reflexivity|].
  destruct s as [|x s']; [contradiction|].
  simpl in Hfirst. injection Hfirst as ->. simpl.
  now rewrite upper_char_idem.
Qed.



(** *** Help: what the merge of override data keeps *)

Lemma map_result_Ok {A B} (f : A -> pyres B) (xs : list A) (ys : list B) :
  map_result f xs = Ok ys -> Forall2 (fun x y => f x = Ok y) xs ys.
Proof.
  revert ys. induction xs as [|x xs IH]; intros ys; simpl.
  - intros [= <-]. constructor.
  - destruct (f x) as [y|] eqn:Ex; simpl; [|discriminate].
    destruct (map_result f xs) as [ys'|]; simpl; [|discriminate].
    intros [= <-]. constructor; [exact Ex | now apply IH].
Qed.

Lemma Forall2_refl_on {A} (R : A -> A -> Prop) (l : list A) :
  (forall x, R x x) -> Forall2 R l l.
Proof. intros HR. induction l; constructor; auto. Qed.

(** What a parameter is to the parser: its name, the required flag, the
    choices, the default and the group. *)
Definition same_signature (p p' : HelpParameter) : Prop :=
  name p' = name p /\ required p' = required p /\ choices p' = choices p
  /\ default_value p' = default_value p /\ group_name p' = group_name p.

Lemma update_from_data_signature (self self' : HelpParameter) (data : ParamData) :
  update_from_data self data = Ok self' -> same_signature self self'.
Proof.
  unfold update_from_data.
  destruct (negb (bool_decide (Some (name self) = pd_name data))); [discriminate|].
  unfold set_short_summary, set_long_summary.
  destruct (text_truthy (pd_type data)), (text_truthy (pd_short_summary data));
    [destruct (_normalize_text (pd_short_summary data)); simpl; [|discriminate]| |
     destruct (_normalize_text (pd_short_summary data)); simpl; [|discriminate]|];
    (destruct (text_truthy (pd_long_summary data));
     [destruct (_normalize_text (pd_long_summary data)); simpl; [|discriminate]|]);
    destruct (list_truthy (pd_populator_commands data));
    intros [= <-]; repeat split.
Qed.

Lemma load_param_signature (entries : list ParamData) (p p' : HelpParameter) :
  load_param entries p = Ok p' ->
  same_signature p p'
  /\ ((forall n, n ∈ entries -> pd_name n <> Some (name p)) -> p' = p).
Proof.
  unfold load_param.
  destruct (find_entry (name p) entries) as [[n|]|] eqn:E; simpl; [| |discriminate].
  - intros Hup. split; [now apply update_from_data_signature in Hup|].
    intros Hnone. apply find_entry_Some in E as [Hin Hname].
    now destruct (Hnone n Hin).
  - intros [= <-]. split; [now repeat split | reflexivity].
Qed.

Lemma HelpFile_load_from_data_identity (self self' : HelpFile) (data : HelpData) :
  HelpFile_load_from_data self data = Ok self' ->
  delimiters self' = delimiters self /\ file_name self' = file_name self
  /\ command self' = command self.
Proof.
  unfold HelpFile_load_from_data, set_short_summary, set_long_summary.
  destruct (negb (data_truthy data)); [now intros [= <-]|].
  destruct data as [text|d].
  - destruct (_normalize_text (Some text)); simpl; [|discriminate].
    now intros [= <-].
  - destruct (dd_type d) as [t|], (dd_short_summary d) as [s|];
      [destruct (_normalize_text (Some s)); simpl; [|discriminate]| |
       destruct (_normalize_text (Some s)); simpl; [|discriminate]|];
      (destruct (_normalize_text (dd_long_summary d)); simpl; [|discriminate]);
      (destruct (dd_examples d) as [es|];
       [destruct (map_result new_HelpExample es); simpl; [|discriminate]|]);
      now intros [= <-].
Qed.

(** The parameter entries of an override document. *)
Definition override_entries (data : HelpData) : list ParamData :=
  match data with
  | DataDoc d => default [] (dd_parameters d)
  | DataStr _ => []
  end.

(** A merge that succeeds keeps the command what it is to the parser:
    the same parameters in the same order, each with its name, required
    flag, choices, default and group; a parameter for which the override
    has no entry of its name is not changed at all; and the path, name
    and command text of the help file stay. *)
Theorem override_merge_keeps_signature (self self' : CommandHelpFile)
  (data : HelpData) :
  CommandHelpFile_load_from_data self data = Ok self' ->
  Forall2 (fun p p' =>
             same_signature p p'
             /\ ((forall n, n ∈ override_entries data -> pd_name n <> Some (name p)) ->
                 p' = p))
          (parameters self) (parameters self')
  /\ delimiters (base self') = delimiters (base self)
  /\ file_name (base self') = file_name (base self)
  /\ command (base self') = command (base self).
Proof.
  unfold CommandHelpFile_load_from_data.
  destruct (HelpFile_load_from_data (base self) data) as [base'|] eqn:Ebase; simpl;
    [|discriminate].
  apply HelpFile_load_from_data_identity in Ebase.
  assert (Hsame : Forall2 (fun p p' =>
                    same_signature p p'
                    /\ ((forall n, n ∈ override_entries data ->
                                   pd_name n <> Some (name p)) -> p' = p))
                    (parameters self) (parameters self)).
  { apply Forall2_refl_on. intros p. split; [now repeat split | reflexivity]. }
  destruct data as [text|d]; [now intros [= <-]|].
  destruct (_ || _); [now intros [= <-]|].
  destruct (map_result _ (parameters self)) as [ps|] eqn:Eps; simpl; [|discriminate].
  intros [= <-]. simpl. split; [|exact Ebase].
  apply map_result_Ok in Eps.
  eapply Forall2_impl; [exact Eps|]. intros p p' Hp.
  now apply load_param_signature in Hp.
Qed.

(** The command after the merge of an entry for its name parameter. *)
Definition merged_command : CommandHelpFile :=
  {| base := base create_command;
     parameters :=
       [help_param;
        store_short_summary "The name of the machine." name_param] |}.

Lemma override_merge_keeps_signature_witness :
  Forall2 same_signature (parameters create_command) (parameters merged_command).
Proof.
  destruct (override_merge_keeps_signature create_command merged_command
              (DataDoc (with_parameters [nonexistent_entry; name_entry] empty_doc))
              eq_refl) as [Hkeep _].
  eapply Forall2_impl; [exact Hkeep|]. now intros p p' [Hsame _].
Defined.

(** A mapping given as override for a command always sets the long
    summary, to the empty text when it has no [long-summary], whatever
    the long summary was before; the type, the short summary and the
    examples are set only when their key is there. *)
Theorem override_mapping_sets_long_summary (self self' : CommandHelpFile)
  (d : DocData) :
  data_truthy (DataDoc d) = true ->
  CommandHelpFile_load_from_data self (DataDoc d) = Ok self' ->
  _normalize_text (dd_long_summary d) = Ok (file_long_summary (base self'))
  /\ (dd_long_summary d = None -> file_long_summary (base self') = EmptyString)
  /\ match dd_short_summary d with
     | Some s => _normalize_text (Some s) = Ok (file_short_summary (base self'))
     | None => file_short_summary (base self') = file_short_summary (base self)
     end
  /\ file_type (base self') = default (file_type (base self)) (dd_type d)
  /\ match dd_examples d with
     | Some es => map_result new_HelpExample es = Ok (examples (base self'))
     | None => examples (base self') = examples (base self)
     end.
Proof.
  intros Htruthy. unfold CommandHelpFile_load_from_data.
  destruct (HelpFile_load_from_data (base self) (DataDoc d)) as [base'|] eqn:Ebase;
    simpl; [|discriminate].
  intros Hload.
  assert (Hbase : base self' = base').
  { destruct (_ || _); [now injection Hload as <-|].
    destruct (map_result _ (parameters self)); simpl in Hload; [|discriminate].
    now injection Hload as <-. }
  rewrite Hbase. clear Hload Hbase.
  unfold HelpFile_load_from_data in Ebase. rewrite Htruthy in Ebase.
  cbn [negb] in Ebase. unfold set_short_summary, set_long_summary in Ebase.
  destruct (dd_type d) as [t|], (dd_short_summary d) as [s|];
    [destruct (_normalize_text (Some s)) as [s'|] eqn:Es; simpl in Ebase;
     [|discriminate]| |
     destruct (_normalize_text (Some s)) as [s'|] eqn:Es; simpl in Ebase;
     [|discriminate]|];
    (destruct (_normalize_text (dd_long_summary d)) as [l'|] eqn:El;
     simpl in Ebase; [|discriminate]);
    (destruct (dd_examples d) as [es|];
     [destruct (map_result new_HelpExample es) as [es'|] eqn:Ees; simpl in Ebase;
      [|discriminate]|]);
    injection Ebase as <-; simpl; repeat split; auto;
    intros Hnone; rewrite Hnone in El; now injection El as <-.
Qed.

(** A command with a long summary from its description, and the same
    command after an override mapping without [long-summary]. *)
Definition described_command : CommandHelpFile :=
  {| base := store_long_summary "Made by the parser." (base create_command);
     parameters := parameters create_command |}.

Definition overridden_command : CommandHelpFile :=
  {| base := store_short_summary "Create a machine." (base create_command);
     parameters := parameters create_command |}.

Lemma override_mapping_sets_long_summary_witness :
  file_long_summary (base described_command) = "Made by the parser."
  /\ file_long_summary (base overridden_command) = EmptyString.
Proof.
  split; [reflexivity|].
  destruct (override_mapping_sets_long_summary described_command overridden_command
              {| dd_type := None; dd_short_summary := Some "create a machine";
                 dd_long_summary := None; dd_examples := None;
                 dd_parameters := None |} eq_refl eq_refl)
    as (_ & Hnone & _).
  now apply Hnone.
Defined.

(** An override entry changes of a parameter only what it gives: a type,
    a summary or a list of populator commands that is missing or empty
    leaves the value the parameter had, so an entry cannot blank a
    summary; what it gives replaces the old value, the summaries
    normalized. *)
Theorem update_from_data_fields (self self' : HelpParameter) (data : ParamData) :
  update_from_data self data = Ok self' ->
  pd_name data = Some (name self)
  /\ param_type self'
     = (if text_truthy (pd_type data) then default EmptyString (pd_type data)
        else param_type self)
  /\ (if text_truthy (pd_short_summary data)
      then _normalize_text (pd_short_summary data) = Ok (param_short_summary self')
      else param_short_summary self' = param_short_summary self)
  /\ (if text_truthy (pd_long_summary data)
      then _normalize_text (pd_long_summary data) = Ok (param_long_summary self')
      else param_long_summary self' = param_long_summary self)
  /\ value_sources self'
     = (if list_truthy (pd_populator_commands data)
        then default [] (pd_populator_commands data)
        else value_sources self).
Proof.
  unfold update_from_data.
  destruct (bool_decide (Some (name self) = pd_name data)) eqn:Ename; simpl;
    [|discriminate].
  apply bool_decide_eq_true in Ename.
  unfold set_short_summary, set_long_summary.
  destruct (text_truthy (pd_type data)), (text_truthy (pd_short_summary data));
    [destruct (_normalize_text (pd_short_summary data)) eqn:Es; simpl;
     [|discriminate]| |
     destruct (_normalize_text (pd_short_summary data)) eqn:Es; simpl;
     [|discriminate]|];
    (destruct (text_truthy (pd_long_summary data));
     [destruct (_normalize_text (pd_long_summary data)) eqn:El; simpl;
      [|discriminate]|]);
    destruct (list_truthy (pd_populator_commands data));
    intros [= <-]; simpl; auto.
Qed.

(** A parameter with a summary, and an entry for it with a type and an
    empty summary. *)
Definition kept_param : HelpParameter := store_short_summary "Kept." name_param.

Definition typed_entry : ParamData :=
  {| pd_name := Some "--name -n"; pd_type := Some "int";
     pd_short_summary := Some EmptyString; pd_long_summary := None;
     pd_populator_commands := Some [] |}.

Lemma update_from_data_fields_witness :
  param_short_summary (with_param_type "int" kept_param) = "Kept."
  /\ param_type (with_param_type "int" kept_param) = "int".
Proof.
  assert (Hup : update_from_data kept_param typed_entry
                = Ok (with_param_type "int" kept_param))
    by (vm_compute; reflexivity).
  destruct (update_from_data_fields kept_param _ typed_entry Hup)
    as (_ & Htype & Hshort & _).
  split; [exact Hshort | exact Htype].
Defined.

(** *** Help: what a command help file is built from *)

Lemma build_parameter_fields (a : Action) (p : HelpParameter) :
  build_parameter a = Ok p ->
  name p = action_name a /\ required p = action_required a
  /\ choices p = action_choices a /\ default_value p = action_default a
  /\ group_name p = container_description a
  /\ param_type p = "string" /\ value_sources p = []
  /\ param_long_summary p = EmptyString
  /\ _normalize_text (help a) = Ok (param_short_summary p).
Proof.
  unfold build_parameter, new_HelpParameter, set_short_summary, set_long_summary.
  destruct (_normalize_text (help a)) as [text|] eqn:E; simpl; [|discriminate].
  intros [= <-]. simpl. now repeat split.
Qed.

Lemma Forall2_compose {A B C} (R1 : A -> B -> Prop) (R2 : B -> C -> Prop)
  (R3 : A -> C -> Prop) (l1 : list A) (l2 : list B) (l3 : list C) :
  (forall x y z, R1 x y -> R2 y z -> R3 x z) ->
  Forall2 R1 l1 l2 -> Forall2 R2 l2 l3 -> Forall2 R3 l1 l3.
Proof.
  intros HR H12. revert l3.
  induction H12 as [|x y l1 l2 Hxy _ IH]; intros l3 H23;
    inversion H23; subst; constructor; eauto.
Qed.

Lemma force_help_group_Forall2 (ps ps' : list HelpParameter) :
  force_help_group ps = Ok ps' ->
  Forall2 (fun p p' =>
             p' = p
             \/ (name p = "--help -h"
                 /\ p' = with_group_name (Some "Global Arguments") p))
          ps ps'.
Proof.
  intros H. destruct (force_help_group_Ok ps ps' H)
    as (before & p & after & -> & -> & Hp & _).
  apply Forall2_app; [apply Forall2_refl_on; now left|].
  constructor; [now right | apply Forall2_refl_on; now left].
Qed.



(** *** Help: the edges of the group registry *)

Lemma group_names_not_empty (parameters : list HelpParameter) :
  EmptyString ∉ group_names parameters.
Proof.
  unfold group_names. intros Hin.
  apply list_elem_of_omap in Hin as (p & _ & Hp).
  destruct (group_name p) as [[|c g]|]; discriminate.
Qed.

(** A group name the registry was not given has the priority of no
    group, ["000000"]; so has the empty group name of a parameter, which
    is never given to it.  The priorities of the other groups run into
    the one of [Global Arguments]: before the 999th they differ from it,
    and the 999th in alphabetical order has it, ["001000"]. *)
Theorem group_priority_edges (group_list : list string) :
  get_group_priority (new_registry group_list) None = "000000"
  /\ get_group_priority (new_registry group_list) (Some "Global Arguments")
     = "001000"
  /\ (forall g, g ∉ group_list -> g <> "Global Arguments" ->
        get_group_priority (new_registry group_list) (Some g) = "000000")
  /\ (forall parameters,
        get_group_priority (new_registry (group_names parameters)) (Some EmptyString)
        = "000000")
  /\ (forall i g,
        other_groups static_priorities group_list !! i = Some g ->
        ((i < 998)%nat ->
         (2 <= priority_of (new_registry group_list) (Some g) < 1000)%N)
        /\ (i = 998%nat ->
            g <> "Global Arguments"
            /\ get_group_priority (new_registry group_list) (Some g) = "001000")).
Proof.
  unfold get_group_priority.
  split; [now rewrite priority_of_None|].
  split; [now rewrite priority_of_global|].
  split; [intros g Hg Hne; now rewrite priority_of_unregistered|].
  split.
  - intros parameters. rewrite priority_of_unregistered; [reflexivity| |discriminate].
    apply group_names_not_empty.
  - intros i g Hi. rewrite (priority_of_other group_list i g Hi). split.
    + intros Hlt. lia.
    + intros ->. split; [|reflexivity].
      apply list_elem_of_lookup_2 in Hi. now apply other_groups_elem_of in Hi.
Qed.

(** *** Decimal text read back *)

Definition digit_value (c : ascii) : N := (N_of_ascii c - 48)%N.

Fixpoint parse_digits (acc : N) (s : string) : N :=
  match s with
  | EmptyString => acc
  | String c s' => parse_digits (acc * 10 + digit_value c) s'
  end.

Lemma parse_digits_append (acc : N) (a b : string) :
  parse_digits acc (a +:+ b) = parse_digits (parse_digits acc a) b.
Proof.
  revert acc. induction a as [|c a IH]; intros acc; [reflexivity|].
  rewrite append_cons. simpl. apply IH.
Qed.

Lemma digit_value_digit_char (d : N) : (d < 10)%N -> digit_value (digit_char d) = d.
Proof.
  intros Hd. unfold digit_value, digit_char.
  rewrite N_ascii_embedding by lia. lia.
Qed.

Lemma parse_digits_digits (fuel : nat) (n : N) :
  (N.to_nat (N.log2 n) < fuel)%nat -> parse_digits 0 (digits fuel n) = n.
Proof.
  revert n. induction fuel as [|fuel IH]; intros n Hfuel; [lia|].
  simpl. destruct (N.ltb_spec n 10) as [Hsmall|Hbig].
  - simpl. now rewrite digit_value_digit_char.
  - rewrite parse_digits_append, IH by (pose proof (log2_div_10 n Hbig); lia).
    simpl. rewrite digit_value_digit_char by (apply N.mod_lt; lia).
    pose proof (N.div_mod n 10 ltac:(lia)) as Hdiv.
    revert Hdiv. generalize (n / 10)%N (n mod 10)%N. intros q r Hdiv. lia.
Qed.

(** The decimal text of a number, read back, is the number; so two
    numbers with the same text are the same. *)
Lemma parse_digits_str_N (n : N) : parse_digits 0 (str_N n) = n.
Proof. unfold str_N. apply parse_digits_digits. lia. Qed.

Lemma str_N_inj (a b : N) : str_N a = str_N b -> a = b.
Proof.
  intros H. rewrite <- (parse_digits_str_N a), <- (parse_digits_str_N b).
  now rewrite H.
Qed.

(** *** Table output: items that are no mapping *)

(** The name of the column of the value at index [i] of a list. *)
Definition column_name (i : nat) : string :=
  "Column" +:+ str_N (N.of_nat (i + 1)).

Lemma column_name_inj (i j : nat) : column_name i = column_name j -> i = j.
Proof.
  unfold column_name. intros H.
  apply (inj (String.app "Column")) in H. apply str_N_inj in H. lia.
Qed.

Lemma od_set_new (k : string) (v : pyval) (e : entry) :
  k ∉ map fst e -> od_set k v e = e ++ [(k, v)].
Proof.
  induction e as [|[k' v'] e IH]; simpl; intros Hk; [reflexivity|].
  apply not_elem_of_cons in Hk as [Hne Hk].
  destruct (String.eqb_spec k' k); [congruence|]. now rewrite IH.
Qed.

Lemma add_positional_app (col : nat) (vals : list pyval) (e : entry) :
  (forall i, (col <= i)%nat -> column_name i ∉ map fst e) ->
  add_positional col vals e
  = e ++ imap (fun i v => (column_name (col + i), v)) vals.
Proof.
  revert col e. induction vals as [|val vals IH]; intros col e Hfresh; simpl.
  - now rewrite app_nil_r.
  - change ("Column" +:+ str_N (N.of_nat (col + 1))) with (column_name col).
    rewrite od_set_new by (apply Hfresh; lia).
    rewrite IH.
    + rewrite <- app_assoc. simpl. rewrite Nat.add_0_r. do 2 f_equal.
      apply imap_ext. intros i v _. simpl. f_equal. f_equal. lia.
    + intros i Hi. rewrite map_app, elem_of_app. simpl.
      rewrite list_elem_of_singleton. intros [Hin|Heq].
      * revert Hin. apply Hfresh. lia.
      * apply column_name_inj in Heq. lia.
Qed.

(** An item that is a list gives the columns [Column1], [Column2], ... with
    its values in order, all of them, of whatever kind; any other item
    that is no mapping gives the single column [Result] holding it.  No
    key is skipped and no value left out for these items. *)
Theorem auto_table_item_positional (should_sort_keys : bool) :
  (forall vals,
     _auto_table_item should_sort_keys (PList vals)
     = Ok (imap (fun i v => (column_name i, v)) vals))
  /\ (forall item,
        is_mapping item = false -> (forall vals, item <> PList vals) ->
        _auto_table_item should_sort_keys item = Ok [("Result", item)])
  /\ (forall i j, column_name i = column_name j -> i = j)
  /\ column_name 0 = "Column1".
Proof.
  split; [|split; [|split]].
  - intros vals. unfold _auto_table_item. simpl.
    rewrite add_positional_app; [reflexivity|].
    intros i _ Hin. simpl in Hin. now apply elem_of_nil in Hin.
  - intros item Hmap Hlist. destruct item; try reflexivity; try discriminate.
    now destruct (Hlist items).
  - apply column_name_inj.
  - reflexivity.
Qed.

(** *** Table output: sorted keys and colliding columns *)

Lemma getitem_missing (k : string) (items : list (string * pyval)) :
  k ∉ map fst items -> getitem k items = Raise (KeyError k).
Proof.
  induction items as [|[k' v'] items IH]; simpl; intros Hk; [reflexivity|].
  apply not_elem_of_cons in Hk as [Hne Hk].
  destruct (String.eqb_spec k' k); [congruence | now apply IH].
Qed.

Lemma getitem_NoDup (k : string) (v : pyval) (items : list (string * pyval)) :
  NoDup (map fst items) -> (k, v) ∈ items -> getitem k items = Ok v.
Proof.
  induction items as [|[k' v'] items IH]; simpl; intros Hnd Hin.
  - now apply elem_of_nil in Hin.
  - apply NoDup_cons in Hnd as [Hk' Hnd].
    apply elem_of_cons in Hin as [[= -> ->]|Hin].
    + now rewrite String.eqb_refl.
    + destruct (String.eqb_spec k' k) as [->|Hne]; [|now apply IH].
      exfalso. apply Hk'. now apply (list_elem_of_fmap_2 fst) in Hin.
Qed.

(** Looking a key up does not depend on the order of the items of a
    mapping. *)
Lemma getitem_Permutation (k : string) (items items' : list (string * pyval)) :
  NoDup (map fst items) -> Permutation items items' ->
  getitem k items = getitem k items'.
Proof.
  intros Hnd Hperm.
  assert (Hnd' : NoDup (map fst items')) by (now rewrite <- Hperm).
  destruct (decide (k ∈ map fst items)) as [Hin|Hout].
  - destruct (getitem_elem_of k items Hin) as (v & Hv & Hmem).
    rewrite Hv. symmetry. apply getitem_NoDup; [exact Hnd'|].
    now rewrite <- Hperm.
  - rewrite getitem_missing by exact Hout.
    rewrite getitem_missing; [reflexivity|]. now rewrite <- Hperm.
Qed.

Lemma fold_left_ext_in {A B} (f g : A -> B -> A) (l : list B) (a : A) :
  (forall x y, f x y = g x y) -> fold_left f l a = fold_left g l a.
Proof.
  intros Hfg. revert a. induction l as [|y l IH]; intros a; simpl; [reflexivity|].
  now rewrite Hfg, IH.
Qed.

(** With sorted keys the row of a mapping does not depend on the order
    in which the mapping lists its items: two mappings with the same
    items give the same columns in the same order. *)
Theorem auto_table_item_sorted_stable (ordered ordered' : bool)
  (items items' : list (string * pyval)) :
  NoDup (map fst items) ->
  Permutation items items' ->
  _auto_table_item true (PDict ordered items)
  = _auto_table_item true (PDict ordered' items').
Proof.
  intros Hnd Hperm. rewrite !_auto_table_item_mapping. f_equal.
  assert (Hkeys : visited_keys true items = visited_keys true items').
  { unfold visited_keys. apply sorted_unique.
    - now rewrite map_id.
    - now apply Permutation_map. }
  rewrite Hkeys. apply fold_left_ext_in. intros e k.
  unfold column_step, retained, entry_get.
  now rewrite (getitem_Permutation k items items' Hnd Hperm).
Qed.

Lemma auto_table_item_sorted_stable_witness :
  _auto_table_item true
    (PDict false [("size", PInt 3); ("name", PStr "quux"); ("id", PStr "7")])
  = _auto_table_item true
      (PDict true [("name", PStr "quux"); ("id", PStr "7"); ("size", PInt 3)]).
Proof.
  apply auto_table_item_sorted_stable.
  - apply (bool_decide_unpack _). vm_compute. exact I.
  - apply (Permutation_cons_app [_; _] []). reflexivity.
Defined.

Lemma getitem_od_set (h k : string) (v : pyval) (e : entry) :
  getitem h (od_set k v e) = if String.eqb k h then Ok v else getitem h e.
Proof.
  induction e as [|[k' v'] e IH]; simpl.
  - reflexivity.
  - destruct (String.eqb_spec k' k) as [->|Hne]; simpl.
    + now destruct (String.eqb k h).
    + destruct (String.eqb_spec k' h) as [->|Hne'].
      * now rewrite (proj2 (String.eqb_neq k h)) by congruence.
      * exact IH.
Qed.

(** The keys that end in the column [h]: the retained ones whose
    capitalized form is [h]. *)
Definition column_sources (items : list (string * pyval)) (keys : list string)
  (h : string) : list string :=
  List.filter (fun k => retained items k && String.eqb (_capitalize_first_char k) h)
              keys.

Lemma column_steps_value (items : list (string * pyval)) (keys : list string)
  (h : string) :
  getitem h (fold_left (column_step items) keys [])
  = match last (column_sources items keys h) with
    | Some k => getitem k items
    | None => Raise (KeyError h)
    end.
Proof.
  induction keys as [|k keys IH] using rev_ind; [reflexivity|].
  unfold column_sources in *. rewrite fold_left_app, List.filter_app. simpl.
  unfold column_step at 1. destruct (retained items k) eqn:Hr; simpl.
  - rewrite getitem_od_set.
    destruct (String.eqb (_capitalize_first_char k) h).
    + rewrite last_snoc. unfold retained in Hr. unfold entry_get.
      destruct (getitem k items); [reflexivity|].
      now rewrite andb_false_r in Hr.
    + now rewrite app_nil_r.
  - now rewrite app_nil_r.
Qed.

(** When several keys of a mapping are retained and capitalize to the
    same column, the column holds the value of the one visited last: the
    last in the order of the mapping, or the greatest when the keys are
    sorted.  A column holds a value only if some retained key gives
    it. *)
Theorem auto_table_item_column_value (should_sort_keys ordered : bool)
  (items : list (string * pyval)) (row : entry) (h : string) :
  _auto_table_item should_sort_keys (PDict ordered items) = Ok row ->
  getitem h row
  = match last (column_sources items (visited_keys should_sort_keys items) h) with
    | Some k => getitem k items
    | None => Raise (KeyError h)
    end.
Proof.
  rewrite _auto_table_item_mapping. intros [= <-]. apply column_steps_value.
Qed.

Lemma auto_table_item_column_value_witness :
  getitem "Name" [("Name", PStr "b")] = Ok (PStr "b")
  /\ getitem "Name" [("Name", PStr "a")] = Ok (PStr "a").
Proof.
  split.
  - exact (auto_table_item_column_value false false
             [("name", PStr "a"); ("Name", PStr "b")] [("Name", PStr "b")]
             "Name" eq_refl).
  - exact (auto_table_item_column_value true false
             [("name", PStr "a"); ("Name", PStr "b")] [("Name", PStr "a")]
             "Name" eq_refl).
Defined.

(* ===================================================================== *)
(** ** Loading and printing the help *)
(* ===================================================================== *)

Import Render.

(** *** Paragraphs *)

Lemma split_newline_cons (s : string) :
  exists piece pieces, split_newline s = piece :: pieces.
Proof.
  induction s as [|c s (piece & pieces & IH)]; simpl; [now eexists _, _|].
  destruct (Ascii.eqb c line_feed); [now eexists _, _|].
  rewrite IH. now eexists _, _.
Qed.

(** The pieces of two texts joined by a line feed are the pieces of the
    one, then those of the other. *)
Lemma split_newline_app (a b : string) :
  split_newline (a +:+ newline +:+ b) = split_newline a ++ split_newline b.
Proof.
  induction a as [|c a IH].
  - reflexivity.
  - rewrite append_cons. simpl. rewrite IH.
    destruct (Ascii.eqb c line_feed); [reflexivity|].
    destruct (split_newline_cons a) as (piece & pieces & ->). reflexivity.
Qed.

Lemma all_chars_ascii_ignore (text : string) :
  all_chars (fun c => (N_of_ascii c <? 128)%N) (ascii_ignore text) = true.
Proof.
  induction text as [|c text IH]; [reflexivity|]. simpl.
  destruct (N_of_ascii c <? 128)%N eqn:E; [|exact IH].
  simpl. now rewrite E.
Qed.

Section StdoutProps.
Context {stream : Type}.
Variable print : stream -> string -> stream * pyres unit.
Variable fill : string -> string -> string -> string.

Lemma print_paragraphs_app (initial subsequent : string) (ps qs : list string)
  (out : stream) :
  print_paragraphs print fill initial subsequent (ps ++ qs) out
  = match print_paragraphs print fill initial subsequent ps out with
    | (out', Ok _) => print_paragraphs print fill initial subsequent qs out'
    | failed => failed
    end.
Proof.
  revert out. induction ps as [|p ps IH]; intros out; simpl; [reflexivity|].
  destruct (print_paragraph print fill initial subsequent p out) as [out' [[]|e]];
    [apply IH | reflexivity].
Qed.

(** Printing a text with a line feed in it is printing what is before
    the line feed, then what is after it, each as paragraphs of their own
    with the same indents; an exception of the first part ends the
    printing. *)
Theorem _print_indent_line_feed (a b : string) (indent : nat)
  (subsequent_spaces : option nat) (out : stream) :
  _print_indent print fill (a +:+ newline +:+ b) indent subsequent_spaces out
  = match _print_indent print fill a indent subsequent_spaces out with
    | (out', Ok _) => _print_indent print fill b indent subsequent_spaces out'
    | failed => failed
    end.
Proof.
  unfold _print_indent. rewrite split_newline_app. apply print_paragraphs_app.
Qed.

(** The output refuses a text for its characters only when one of them
    is not ASCII. *)
Definition accepts_ascii : Prop :=
  forall (out : stream) (text : string),
    all_chars (fun c => (N_of_ascii c <? 128)%N) text = true ->
    snd (print out text) <> Raise UnicodeEncodeError.

Lemma print_paragraph_encodes (initial subsequent p : string) (out : stream) :
  accepts_ascii ->
  snd (print_paragraph print fill initial subsequent p out)
  <> Raise UnicodeEncodeError.
Proof.
  intros Hascii. unfold print_paragraph.
  destruct (print out (fill initial subsequent p)) as [out' [[]|e]] eqn:E;
    [discriminate|].
  destruct e; try discriminate.
  apply Hascii, all_chars_ascii_ignore.
Qed.

Lemma print_paragraphs_encodes (initial subsequent : string) (ps : list string)
  (out : stream) :
  accepts_ascii ->
  snd (print_paragraphs print fill initial subsequent ps out)
  <> Raise UnicodeEncodeError.
Proof.
  intros Hascii. revert out.
  induction ps as [|p ps IH]; intros out; simpl; [discriminate|].
  pose proof (print_paragraph_encodes initial subsequent p out Hascii) as Hp.
  destruct (print_paragraph print fill initial subsequent p out) as [out' [[]|e]];
    [apply IH | exact Hp].
Qed.

(** On an output that takes every ASCII text, [_print_indent] does not
    end with an encoding error: a paragraph the output refuses is printed
    again without the characters that are not ASCII. *)
Theorem _print_indent_encodes (s : string) (indent : nat)
  (subsequent_spaces : option nat) (out : stream) :
  accepts_ascii ->
  snd (_print_indent print fill s indent subsequent_spaces out)
  <> Raise UnicodeEncodeError.
Proof.
  intros Hascii. unfold _print_indent. now apply print_paragraphs_encodes.
Qed.
End StdoutProps.

(** An output that takes ASCII text only, and a [fill] that leaves short
    paragraphs on one line. *)
Definition ascii_print (out text : string) : string * pyres unit :=
  if all_chars (fun c => (N_of_ascii c <? 128)%N) text
  then (out +:+ text +:+ newline, Ok tt)
  else (out, Raise UnicodeEncodeError).

Definition one_line (initial subsequent p : string) : string :=
  if nonempty p then initial +:+ p else EmptyString.

Lemma _print_indent_encodes_witness :
  snd (_print_indent ascii_print one_line
         (String "c" (String "a" (String "f" (String (ascii_of_N 233) EmptyString))))
         1 None EmptyString)
  <> Raise UnicodeEncodeError.
Proof.
  apply (_print_indent_encodes ascii_print one_line).
  intros out text Hascii. unfold ascii_print. rewrite Hascii. discriminate.
Defined.

(** *** The summaries out of the description *)

Lemma index_char_app (c : ascii) (a b : string) :
  index_char c a = None ->
  index_char c (a +:+ String c b) = Some (String.length a).
Proof.
  induction a as [|x a IH].
  - intros _. rewrite append_nil_l. simpl. now rewrite Ascii.eqb_refl.
  - rewrite append_cons. simpl. destruct (Ascii.eqb x c); [discriminate|].
    destruct (index_char c a); [discriminate|]. intros _.
    now rewrite IH.
Qed.

Lemma index_char_split (c : ascii) (s : string) (i : nat) :
  index_char c s = Some i ->
  s = str_take i s +:+ String c (str_drop (S i) s)
  /\ index_char c (str_take i s) = None.
Proof.
  revert i. induction s as [|x s IH]; intros i; simpl; [discriminate|].
  destruct (Ascii.eqb_spec x c) as [->|Hne].
  - intros [= <-]. now split.
  - destruct (index_char c s) as [j|]; [|discriminate]. intros [= <-].
    destruct (IH j eq_refl) as [Hs Hj]. simpl. rewrite append_cons.
    split; [f_equal; exact Hs|].
    destruct (Ascii.eqb_spec x c); [contradiction|]. now rewrite Hj.
Qed.

Lemma str_take_app (a b : string) : str_take (String.length a) (a +:+ b) = a.
Proof.
  induction a as [|x a IH].
  - rewrite append_nil_l. now destruct b.
  - rewrite append_cons. simpl. now rewrite IH.
Qed.

Lemma str_drop_app (a b : string) : str_drop (String.length a) (a +:+ b) = b.
Proof.
  induction a as [|x a IH].
  - rewrite append_nil_l. now destruct b.
  - rewrite append_cons. exact IH.
Qed.

Lemma line_break_space (c : ascii) : is_line_break c = true -> isspace c = true.
Proof. destruct c as [[] [] [] [] [] [] [] []]; vm_compute; congruence. Qed.

(** The lines of a text that begins with a character that is not white
    space, joined again, begin with that character. *)
Lemma join_splitlines_first (c : ascii) (t : string) :
  isspace c = false ->
  exists rest, join " " (splitlines (String c t)) = String c rest.
Proof.
  intros Hc. simpl.
  destruct (is_line_break c) eqn:E;
    [apply line_break_space in E; congruence|].
  destruct (splitlines t) as [|line lines].
  - now exists EmptyString.
  - unfold join. simpl. destruct lines; [now eexists|].
    rewrite append_cons. now eexists.
Qed.

Lemma strip_first (c : ascii) (rest : string) :
  isspace c = false -> strip (String c rest) <> EmptyString.
Proof.
  intros Hc. unfold strip. simpl. rewrite Hc. simpl.
  destruct (rstrip rest); [now rewrite Hc|discriminate].
Qed.

(** The long summary [load] takes out of a description is never a text
    the setter fails on. *)
Lemma set_long_summary_of_description {T : Type} `{HelpObject T} (b : string)
  (self : T) :
  exists text,
    set_long_summary (Some (join " " (splitlines (lstrip b)))) self
    = Ok (store_long_summary text self).
Proof.
  unfold set_long_summary.
  destruct (lstrip b) as [|c t] eqn:E.
  - now exists EmptyString.
  - apply lstrip_first in E.
    destruct (join_splitlines_first c t E) as [rest ->].
    destruct (le_lt_dec 2 (String.length (String c rest))) as [Hge|Hlt].
    + rewrite (_normalize_text_sentence _ Hge (strip_first c rest E)).
      now eexists.
    + unfold _normalize_text.
      rewrite (proj2 (Nat.ltb_lt _ _) Hlt), orb_true_r. now eexists.
Qed.

(** [load] on a description with a period: the short summary is set to
    what is before the first period, the long summary to what is after
    it, without the white space it begins with and with its lines joined
    by spaces. *)
Lemma load_description_period (a b : string) (self : HelpFile) :
  index_char "."%char a = None ->
  load_description (Some (a +:+ String "."%char b)) self
  = self' ← set_short_summary (Some a) self;
    set_long_summary (Some (join " " (splitlines (lstrip b)))) self'.
Proof.
  intros Ha. unfold load_description, index_of_period.
  rewrite (index_char_app _ a b Ha). cbn [mbind pyres_bind default]. unfold id.
  rewrite str_take_app.
  replace (String.length a + 1)%nat with (String.length (a +:+ ".")) by
    (rewrite length_append; reflexivity).
  replace (a +:+ String "."%char b) with ((a +:+ ".") +:+ b) by
    (now rewrite append_assoc).
  rewrite str_drop_app.
  destruct (set_short_summary (Some a) self) as [self'|e] eqn:E.
  - cbn [mbind pyres_bind].
    destruct (set_long_summary_of_description b self') as [text ->]. reflexivity.
  - apply set_short_summary_raises in E as ->. reflexivity.
Qed.

Lemma load_description_no_period (d : string) (self : HelpFile) :
  index_char "."%char d = None ->
  load_description (Some d) self = set_short_summary (Some d) self.
Proof.
  intros Hd. unfold load_description, index_of_period. now rewrite Hd.
Qed.

(** What [load] makes of the description.  With a period in it, the text
    before the first period becomes the short summary and the text after
    it, without the white space it begins with and with its lines joined
    by spaces, the long summary, both normalized; without one, the whole
    text becomes the short summary and the long summary is left as it
    was; without a description the short summary becomes empty. *)
Theorem load_description_summaries (self : HelpFile) :
  (forall a b, index_char "."%char a = None ->
     load_description (Some (a +:+ String "."%char b)) self
     = self' ← set_short_summary (Some a) self;
       set_long_summary (Some (join " " (splitlines (lstrip b)))) self')
  /\ (forall d, index_char "."%char d = None ->
        load_description (Some d) self = set_short_summary (Some d) self)
  /\ load_description None self = Ok (store_short_summary EmptyString self).
Proof.
  split; [intros a b; apply load_description_period|].
  split; [intros d; apply load_description_no_period | reflexivity].
Qed.

(** The part of a description that becomes the short summary. *)
Definition short_part (d : string) : string :=
  match index_char "."%char d with
  | Some i => str_take i d
  | None => d
  end.


(** *** The argument listing *)

Lemma length_spaces (n : nat) : String.length (spaces n) = n.
Proof. induction n as [|n IH]; simpl; [reflexivity | now rewrite IH]. Qed.

Lemma max_of_le {A : Type} (f : A -> nat) (xs : list A) (x : A) :
  x ∈ xs -> (f x <= max_of f xs)%nat.
Proof.
  unfold max_of. induction 1 as [x xs|x y xs Hin IH]; simpl; lia.
Qed.

(** A text padded to a width it does not exceed takes that width. *)
Lemma length_column (text : string) (width : nat) :
  (String.length text <= width)%nat ->
  (String.length text + String.length (_get_column_indent text width))%nat = width.
Proof. intros Hle. unfold _get_column_indent. rewrite length_spaces. lia. Qed.

(** The requests that list an entry: the ones with a hanging indent. *)
Definition is_entry (r : request) : bool :=
  match r with
  | Indented _ _ (Some _) => true
  | _ => false
  end.

(** The requests that print the text [g] as it is. *)
Definition is_heading (g : string) (r : request) : bool :=
  match r with
  | Plain text => String.eqb text g
  | _ => false
  end.

(** [str] on the values that have no items. *)
Definition str_scalar (v : pyval) : string :=
  match v with
  | PNone => "None"
  | PBool b => str_bool b
  | PInt z => str_Z z
  | PStr s => s
  | POther _ _ text => text
  | PList _ | PDict _ _ => EmptyString
  end.

(** The name of a parameter with its tag, padded to the width of the
    column. *)
Definition argument_label (width : nat) (p : HelpParameter) : string :=
  let required_text := if required p then required_tag else EmptyString in
  name p +:+ _get_column_indent (name p +:+ required_text) width +:+ required_text.

Section ArgumentProps.
Variable str : pyval -> string.

Lemma print_each_argument_entries (width : nat) (ps : list HelpParameter)
  (last_group_name : option string) :
  List.filter is_entry (print_each_argument str width ps last_group_name)
  = map (argument_line str width) ps.
Proof.
  revert last_group_name. induction ps as [|p ps IH]; intros last; [reflexivity|].
  cbn [print_each_argument]. rewrite !List.filter_app, IH.
  destruct (_ && _), (nonempty (param_long_summary p)); reflexivity.
Qed.

Lemma length_argument_label (ps : list HelpParameter) (p : HelpParameter) :
  p ∈ ps -> String.length (argument_label (max_name_length ps) p) = max_name_length ps.
Proof.
  intros Hin. unfold argument_label.
  pose proof (max_of_le
                (fun p => (String.length (name p)
                           + (if required p then String.length required_tag else 0))%nat)
                ps p Hin) as Hle.
  fold (max_name_length ps) in Hle. cbv beta in Hle.
  set (tag := if required p then required_tag else EmptyString) in *.
  assert (Htag : String.length tag
                 = if required p then String.length required_tag else 0%nat)
    by (unfold tag; now destruct (required p)).
  rewrite <- Htag in Hle.
  rewrite !length_append.
  pose proof (length_column (name p +:+ tag) (max_name_length ps)) as Hcol.
  rewrite length_append in Hcol. specialize (Hcol Hle). lia.
Qed.

(** Every parameter of a command that has some gets one line in the
    argument listing, none is left out or listed twice, and the lines
    come in the order of the sort; the requests with a hanging indent
    are these lines and no others.  The routine then returns the indent
    2. *)
Theorem print_arguments_entries (c : CommandHelpFile) :
  parameters c <> [] ->
  List.filter is_entry (fst (_print_arguments str c))
  = map (argument_line str (max_name_length (parameters c)))
        (arguments_order (parameters c))
  /\ length (List.filter is_entry (fst (_print_arguments str c)))
     = length (parameters c)
  /\ snd (_print_arguments str c) = Some 2%nat.
Proof.
  intros Hne. unfold _print_arguments.
  destruct (parameters c) as [|p ps] eqn:E; [contradiction|].
  cbn [fst snd]. rewrite print_each_argument_entries.
  split; [reflexivity|]. split; [|reflexivity].
  rewrite length_map. unfold arguments_order.
  now rewrite <- (sorted_perm _ (p :: ps)).
Qed.

(** The lines of the argument listing are aligned: the name of a
    parameter, with the tag of a required one, is padded to the width of
    the longest, so that every summary begins in the same column, and the
    lines a summary is wrapped onto are indented to that column, after
    the four spaces of the indent and the prefix. *)
Theorem print_arguments_aligned (c : CommandHelpFile) (p : HelpParameter) :
  p ∈ parameters c ->
  argument_line str (max_name_length (parameters c)) p
    ∈ fst (_print_arguments str c)
  /\ argument_line str (max_name_length (parameters c)) p
     = Indented (argument_label (max_name_length (parameters c)) p
                 +:+ prefixed (shown_summary str p))
                1
                (Some (4 + String.length (argument_label (max_name_length (parameters c)) p)
                       + String.length FIRST_LINE_PREFIX)%nat)
  /\ String.length (argument_label (max_name_length (parameters c)) p)
     = max_name_length (parameters c).
Proof.
  intros Hin. pose proof (length_argument_label (parameters c) p Hin) as Hlen.
  split; [|split; [|exact Hlen]].
  - assert (Hentry : argument_line str (max_name_length (parameters c)) p
                     ∈ List.filter is_entry (fst (_print_arguments str c))).
    { unfold _print_arguments. destruct (parameters c) as [|p0 ps] eqn:E;
        [inversion Hin|].
      cbn [fst]. rewrite print_each_argument_entries.
      apply list_elem_of_fmap_2. unfold arguments_order.
      now rewrite <- (sorted_perm _ (p0 :: ps)). }
    apply list_elem_of_In, filter_In in Hentry as [Hentry _].
    now apply list_elem_of_In.
  - rewrite Hlen. unfold argument_line, argument_label, _get_hanging_indent.
    rewrite !append_assoc. f_equal. f_equal. simpl. lia.
Qed.
End ArgumentProps.

(** A command with the parameters of the network example. *)
Definition network_command : CommandHelpFile :=
  {| base := base create_command; parameters := network_parameters |}.

Lemma print_arguments_entries_witness :
  map (fun r => match r with Indented s _ _ => s | _ => EmptyString end)
      (List.filter is_entry (fst (_print_arguments str_scalar network_command)))
  = ["--name -n [Required]"; "--alpha             "; "--vnet    [Required]";
     "--zone              "; "--verbose [Required]"; "--help -h           "].
Proof.
  assert (Hne : parameters network_command <> []) by discriminate.
  destruct (print_arguments_entries str_scalar network_command Hne) as (H & _).
  rewrite H. vm_compute. reflexivity.
Defined.

Lemma print_arguments_aligned_witness :
  String.length (argument_label (max_name_length (parameters network_command))
                   (listed_param "--zone" false (Some "Networking")))
  = max_name_length (parameters network_command)
  /\ max_name_length (parameters network_command) = 20%nat.
Proof.
  assert (Hin : listed_param "--zone" false (Some "Networking")
                ∈ parameters network_command) by (repeat constructor).
  destruct (print_arguments_aligned str_scalar network_command _ Hin)
    as (_ & _ & H).
  split; [exact H | reflexivity].
Defined.

(** *** The headings of the argument groups *)

(** How often the text [g] is printed as it is. *)
Definition headings (g : string) (requests : list request) : nat :=
  length (List.filter (is_heading g) requests).

Lemma headings_app (g : string) (rs rs' : list request) :
  headings g (rs ++ rs') = (headings g rs + headings g rs')%nat.
Proof. unfold headings. now rewrite List.filter_app, length_app. Qed.

Lemma group_names_elem_of (ps : list HelpParameter) (g : string) :
  g ∈ group_names ps
  <-> g <> EmptyString /\ exists p, p ∈ ps /\ group_name p = Some g.
Proof.
  unfold group_names. rewrite list_elem_of_omap. split.
  - intros (p & Hin & Hp). destruct (group_name p) as [[|c s]|] eqn:E;
      try discriminate.
    injection Hp as <-. split; [discriminate|]. now exists p.
  - intros (Hne & p & Hin & Hp). exists p. split; [exact Hin|].
    rewrite Hp. destruct g; [contradiction | reflexivity].
Qed.

(** With fewer than 999 other groups no two groups rank the same, and
    every group ranks above the parameters without one. *)
Lemma priority_of_named (group_list : list string) (g : string) :
  g ∈ group_list ->
  (2 <= priority_of (new_registry group_list) (Some g))%N.
Proof.
  intros Hin. destruct (decide (g = "Global Arguments")) as [->|Hne].
  - rewrite priority_of_global. lia.
  - assert (Hother : g ∈ other_groups static_priorities group_list)
      by (now apply other_groups_elem_of).
    apply list_elem_of_lookup in Hother as [i Hi].
    rewrite (priority_of_other _ i g Hi). lia.
Qed.

Lemma priority_of_inj (group_list : list string) (g g' : string) :
  (N.of_nat (length (other_groups static_priorities group_list)) + 2 <= 1000)%N ->
  g ∈ group_list -> g' ∈ group_list ->
  priority_of (new_registry group_list) (Some g)
  = priority_of (new_registry group_list) (Some g') ->
  g = g'.
Proof.
  intros Hbound Hg Hg'.
  assert (Hrank : forall x, x ∈ group_list -> x <> "Global Arguments" ->
            exists i, other_groups static_priorities group_list !! i = Some x
                      /\ priority_of (new_registry group_list) (Some x)
                         = (2 + N.of_nat i)%N
                      /\ (2 + N.of_nat i < 1000)%N).
  { intros x Hx Hne.
    assert (Hother : x ∈ other_groups static_priorities group_list)
      by (now apply other_groups_elem_of).
    apply list_elem_of_lookup in Hother as [i Hi]. exists i.
    split; [exact Hi|]. split; [now apply priority_of_other|].
    apply lookup_lt_Some in Hi. lia. }
  destruct (decide (g = "Global Arguments")) as [->|Hne];
    destruct (decide (g' = "Global Arguments")) as [->|Hne'].
  - reflexivity.
  - rewrite priority_of_global.
    destruct (Hrank g' Hg' Hne') as (i & _ & -> & Hlt). lia.
  - rewrite priority_of_global.
    destruct (Hrank g Hg Hne) as (i & _ & -> & Hlt). lia.
  - destruct (Hrank g Hg Hne) as (i & Hi & -> & _).
    destruct (Hrank g' Hg' Hne') as (j & Hj & -> & _).
    intros Heq. assert (i = j) as -> by lia. congruence.
Qed.

Lemma priority_of_group (ps : list HelpParameter) (g : string) (q : HelpParameter) :
  (N.of_nat (length (other_groups static_priorities (group_names ps))) + 2 <= 1000)%N ->
  g ∈ group_names ps -> q ∈ ps ->
  priority_of (new_registry (group_names ps)) (group_name q)
  = priority_of (new_registry (group_names ps)) (Some g) ->
  group_name q = Some g.
Proof.
  intros Hbound Hg Hq Heq.
  pose proof (priority_of_named _ g Hg) as Hnamed.
  destruct (group_name q) as [[|c s]|] eqn:E.
  - exfalso. rewrite priority_of_unregistered in Heq; [lia| |discriminate].
    intros [Hne _]%group_names_elem_of. now apply Hne.
  - f_equal. apply (priority_of_inj (group_names ps)); try assumption.
    apply group_names_elem_of. split; [discriminate|]. now exists q.
  - exfalso. rewrite priority_of_None in Heq. lia.
Qed.

Section Headings.
Variable str : pyval -> string.
Variable width : nat.
Variable reg : ArgumentGroupRegistry.
Variable g : string.
Hypothesis g_named : g <> EmptyString.

(** The rank of the group of a parameter. *)
Definition rank (p : HelpParameter) : N := priority_of reg (group_name p).

Lemma headings_step (p : HelpParameter) (ps : list HelpParameter)
  (last : option string) :
  headings g (print_each_argument str width (p :: ps) last)
  = ((if negb (bool_decide (group_name p = last))
         && bool_decide (group_name p = Some g) then 1 else 0)
     + headings g (print_each_argument str width ps (group_name p)))%nat.
Proof.
  cbn [print_each_argument]. rewrite !headings_app.
  assert (Hlast : (if negb (bool_decide (group_name p = last))
                   then group_name p else last) = group_name p).
  { case_bool_decide; simpl; congruence. }
  rewrite Hlast.
  assert (Hline : headings g [argument_line str width p] = 0%nat) by reflexivity.
  assert (Hlong : headings g (if nonempty (param_long_summary p)
                              then [Indented (rstrip (param_long_summary p)) 2 None]
                              else []) = 0%nat)
    by (now destruct (nonempty _)).
  rewrite Hline, Hlong. simpl Nat.add. f_equal.
  destruct (negb (bool_decide (group_name p = last))); simpl; [|reflexivity].
  destruct (group_name p) as [[|c s]|] eqn:E; simpl.
  - case_bool_decide as Hg; [|reflexivity]. injection Hg as <-. now contradiction g_named.
  - assert (Hempty : String.eqb EmptyString g = false)
      by (now apply String.eqb_neq; intros <-; apply g_named).
    unfold headings. cbn [List.filter is_heading]. rewrite Hempty.
    destruct (String.eqb_spec (String c s) g) as [Heq|Hne];
      case_bool_decide; try congruence; reflexivity.
  - reflexivity.
Qed.

Lemma headings_absent (ps : list HelpParameter) (last : option string) :
  Forall (fun q => group_name q <> Some g) ps ->
  headings g (print_each_argument str width ps last) = 0%nat.
Proof.
  intros Hall. revert last.
  induction Hall as [|p ps Hp Hall IH]; intros last; [reflexivity|].
  rewrite headings_step, IH.
  rewrite (bool_decide_eq_false_2 (group_name p = Some g)) by exact Hp.
  now rewrite andb_false_r.
Qed.

(** After a parameter of the group: on a list in the order of the ranks
    that begins no lower than the rank of the group, the heading is not
    printed again. *)
Lemma headings_after (ps : list HelpParameter) :
  StronglySorted (fun p q => (rank p <= rank q)%N) ps ->
  Forall (fun q => rank q = priority_of reg (Some g) -> group_name q = Some g) ps ->
  Forall (fun q => (priority_of reg (Some g) <= rank q)%N) ps ->
  headings g (print_each_argument str width ps (Some g)) = 0%nat.
Proof.
  induction 1 as [|p ps Hsorted IH Hp]; intros Hgroup Hfrom; [reflexivity|].
  apply Forall_cons in Hgroup as [Hgp Hgroup].
  apply Forall_cons in Hfrom as [Hfp Hfrom].
  rewrite headings_step.
  destruct (decide (group_name p = Some g)) as [E|E].
  - rewrite E, (bool_decide_eq_true_2 (Some g = Some g)) by reflexivity.
    simpl. apply IH; assumption.
  - rewrite (bool_decide_eq_false_2 (group_name p = Some g)) by exact E.
    rewrite andb_false_r. simpl. apply headings_absent.
    rewrite Forall_forall in Hp, Hgroup. apply Forall_forall. intros q Hq Hqg.
    assert (Hrank : rank p <> priority_of reg (Some g)) by (intros H; now apply E, Hgp).
    specialize (Hp q Hq). simpl in Hp.
    assert (Hq' : rank q = priority_of reg (Some g))
      by (unfold rank; now rewrite Hqg).
    lia.
Qed.

Lemma headings_once (ps : list HelpParameter) (last : option string) :
  StronglySorted (fun p q => (rank p <= rank q)%N) ps ->
  Forall (fun q => rank q = priority_of reg (Some g) -> group_name q = Some g) ps ->
  Exists (fun q => group_name q = Some g) ps ->
  last <> Some g ->
  headings g (print_each_argument str width ps last) = 1%nat.
Proof.
  intros Hsorted. revert last.
  induction Hsorted as [|p ps Hsorted IH Hp]; intros last Hgroup Hex Hlast;
    [inversion Hex|].
  apply Forall_cons in Hgroup as [Hgp Hgroup].
  rewrite headings_step.
  destruct (decide (group_name p = Some g)) as [E|E].
  - rewrite (bool_decide_eq_true_2 (group_name p = Some g)) by exact E.
    rewrite (bool_decide_eq_false_2 (group_name p = last)) by congruence.
    simpl. rewrite E, headings_after; try assumption; [reflexivity|].
    eapply Forall_impl; [exact Hp|]. intros q Hq. simpl in Hq.
    unfold rank in Hq at 1. now rewrite E in Hq.
  - rewrite (bool_decide_eq_false_2 (group_name p = Some g)) by exact E.
    rewrite andb_false_r. simpl. apply IH; try assumption.
    apply Exists_cons in Hex as [Hex|Hex]; [contradiction | exact Hex].
Qed.
End Headings.

(** The heading of an argument group is printed once, however its
    parameters stand among the others: with fewer than 999 groups beside
    [Global Arguments], the parameters of a group are listed one after
    the other, and the name of the group is printed before the first of
    them only. *)
Theorem group_heading_once (str : pyval -> string) (c : CommandHelpFile)
  (g : string) :
  (N.of_nat (length (other_groups static_priorities (group_names (parameters c)))) + 2
   <= 1000)%N ->
  g ∈ group_names (parameters c) ->
  headings g (fst (_print_arguments str c)) = 1%nat.
Proof.
  intros Hbound Hg.
  pose proof (proj1 (group_names_elem_of _ _) Hg) as (Hne & p & Hp & Hpg).
  unfold _print_arguments. destruct (parameters c) as [|p0 ps0] eqn:E;
    [inversion Hp|].
  rewrite <- E in *. cbn [fst].
  set (reg := new_registry (group_names (parameters c))).
  assert (Hperm : Permutation (parameters c) (arguments_order (parameters c)))
    by apply sorted_perm.
  apply (headings_once str _ reg g Hne).
  - unfold arguments_order. fold reg.
    generalize (sorted_strongly (_get_parameter_key reg) (parameters c)).
    generalize (sorted (_get_parameter_key reg) (parameters c)).
    intros l. induction 1 as [|x l Hl IH Hx]; constructor; [exact IH|].
    eapply Forall_impl; [exact Hx|]. intros y Hxy.
    apply _get_parameter_key_le in Hxy;
      [|apply priority_of_bound; lia..].
    unfold rank. destruct Hxy as [Hlt|[Heq _]]; lia.
  - apply Forall_forall. intros q Hq Hrank. rewrite <- Hperm in Hq.
    now apply (priority_of_group (parameters c)).
  - apply Exists_exists. exists p. split; [now rewrite <- Hperm | exact Hpg].
  - discriminate.
Qed.

Lemma group_heading_once_witness :
  headings "Networking" (fst (_print_arguments str_scalar network_command)) = 1%nat
  /\ headings "Global Arguments" (fst (_print_arguments str_scalar network_command))
     = 1%nat.
Proof.
  assert (Hbound : (N.of_nat (length (other_groups static_priorities
                                        (group_names (parameters network_command))))
                    + 2 <= 1000)%N).
  { vm_compute. discriminate. }
  split; apply (group_heading_once str_scalar network_command _ Hbound);
    vm_compute; repeat constructor.
Defined.

(** *** The listing of a group *)

(** The name of a help file, padded to the width of the column. *)
Definition file_label (width : nat) (h : HelpFile) : string :=
  file_name h +:+ _get_column_indent (file_name h) width.

(** The line of a child in the listing of its group. *)
Definition group_entry (width : nat) (c : HelpNode) : request :=
  Indented (file_label width (node_file c)
            +:+ replace_newline (prefixed (file_short_summary (node_file c))))
           1 (Some (4 + width + String.length FIRST_LINE_PREFIX)%nat).

Lemma filter_complement {A : Type} (f : A -> bool) (l : list A) :
  Permutation (List.filter f l ++ List.filter (fun x => negb (f x)) l) l.
Proof.
  induction l as [|x l IH]; simpl; [reflexivity|].
  destruct (f x); simpl.
  - now constructor.
  - rewrite <- Permutation_middle. now constructor.
Qed.

Lemma length_file_label (files : list HelpNode) (c : HelpNode) :
  c ∈ files ->
  String.length (file_label (longest_name files) (node_file c)) = longest_name files.
Proof.
  intros Hin. unfold file_label. rewrite length_append. apply length_column.
  exact (max_of_le (fun c => String.length (file_name (node_file c))) files c Hin).
Qed.

Lemma _print_items_entries (width : nat) (items : list HelpNode) :
  List.filter is_entry (_print_items 1 width items)
  = map (group_entry width) (sorted (fun h => file_name (node_file h)) items).
Proof.
  unfold _print_items. rewrite List.filter_app. simpl. rewrite app_nil_r.
  induction (sorted (fun h => file_name (node_file h)) items) as [|c l IH];
    [reflexivity|].
  simpl. rewrite IH. unfold group_entry, file_label. rewrite append_assoc.
  do 2 f_equal. simpl. f_equal. lia.
Qed.

Lemma _print_items_not_empty (indent width : nat) (items : list HelpNode) :
  _print_items indent width items <> [].
Proof. unfold _print_items. now destruct (map _ _). Qed.

Lemma _print_groups_entries (children : list HelpNode) :
  List.filter is_entry (_print_groups children)
  = map (group_entry (longest_name children))
        (sorted (fun h => file_name (node_file h))
                (List.filter is_GroupHelpFile children)
         ++ sorted (fun h => file_name (node_file h))
                   (List.filter (fun c => negb (is_GroupHelpFile c)) children)).
Proof.
  unfold _print_groups. rewrite List.filter_app, map_app. f_equal.
  - destruct (List.filter is_GroupHelpFile children) eqn:E; [reflexivity|].
    cbn [List.filter is_entry]. apply _print_items_entries.
  - destruct (List.filter (fun c => negb (is_GroupHelpFile c)) children) eqn:E;
      [reflexivity|].
    cbn [List.filter is_entry]. apply _print_items_entries.
Qed.

Lemma _print_groups_children (children : list HelpNode) :
  Permutation (List.filter is_entry (_print_groups children))
              (map (group_entry (longest_name children)) children).
Proof.
  rewrite _print_groups_entries. apply Permutation_map.
  rewrite <- !sorted_perm. apply filter_complement.
Qed.

(** The listing of a group has one line for every child, the subgroups
    first and the commands after them, each part in the order of the
    names.  The names are padded to one width for both parts, the length
    of the longest name of all the children, and the lines a summary is
    wrapped onto are indented to the column where the summaries begin.
    Nothing is printed for a group without children. *)
Theorem print_groups_entries (children : list HelpNode) :
  List.filter is_entry (_print_groups children)
  = map (group_entry (longest_name children))
        (sorted (fun h => file_name (node_file h))
                (List.filter is_GroupHelpFile children)
         ++ sorted (fun h => file_name (node_file h))
                   (List.filter (fun c => negb (is_GroupHelpFile c)) children))
  /\ Permutation (List.filter is_entry (_print_groups children))
                 (map (group_entry (longest_name children)) children)
  /\ Forall (fun c => String.length (file_label (longest_name children) (node_file c))
                      = longest_name children) children
  /\ (_print_groups children = [] <-> children = []).
Proof.
  split; [apply _print_groups_entries|]. split; [apply _print_groups_children|].
  split.
  - apply Forall_forall. intros c Hc. now apply length_file_label.
  - split.
    + intros Hnone. destruct children as [|c children]; [reflexivity|]. exfalso.
      unfold _print_groups in Hnone. apply app_eq_nil in Hnone as [Hg Hc].
      simpl in Hg, Hc. destruct (is_GroupHelpFile c); simpl in *; discriminate.
    + now intros ->.
Qed.

(** The line of a help file in a description list. *)
Definition description_entry (width : nat) (h : HelpNode) : request :=
  Indented (file_label width (node_file h)
            +:+ prefixed (file_short_summary (node_file h)))
           1 (Some (4 + width + String.length FIRST_LINE_PREFIX)%nat).

(** A description list has one line for every help file, in the order of
    the names and, among files of one name, the order given; the names
    are padded to the length of the longest, and the lines a summary is
    wrapped onto are indented to the column where the summaries begin. *)
Theorem print_description_list_entries (help_files : list HelpNode) :
  print_description_list help_files
  = map (description_entry (longest_name help_files))
        (sorted (fun h => file_name (node_file h)) help_files)
  /\ Permutation (print_description_list help_files)
                 (map (description_entry (longest_name help_files)) help_files)
  /\ StronglySorted (fun a b => String.le (file_name (node_file a))
                                          (file_name (node_file b)))
                    (sorted (fun h => file_name (node_file h)) help_files)
  /\ Forall (fun h => String.length (file_label (longest_name help_files) (node_file h))
                      = longest_name help_files) help_files.
Proof.
  assert (Hlist : print_description_list help_files
                  = map (description_entry (longest_name help_files))
                      (sorted (fun h => file_name (node_file h)) help_files)).
  { unfold print_description_list. apply map_ext. intros h.
    unfold description_entry, file_label, _get_hanging_indent.
    rewrite append_assoc. do 2 f_equal. lia. }
  split; [exact Hlist|]. split; [|split].
  - rewrite Hlist. apply Permutation_map. now rewrite <- sorted_perm.
  - apply (sorted_strongly (fun h => file_name (node_file h))).
  - apply Forall_forall. intros h Hh. now apply length_file_label.
Qed.

(** *** The help of a command or a group *)

(** [isinstance(h, CommandHelpFile)] *)
Definition is_CommandHelpFile (node : HelpNode) : bool :=
  match node with
  | CommandFile _ => true
  | _ => false
  end.

(** The type a help file has after a mapping was loaded into it: the one
    the mapping gives, or the one it had. *)
Lemma HelpFile_load_from_data_type (self self' : HelpFile) (d : DocData) :
  HelpFile_load_from_data self (DataDoc d) = Ok self' ->
  file_type self' = default (file_type self) (dd_type d).
Proof.
  unfold HelpFile_load_from_data, set_short_summary, set_long_summary.
  destruct (negb (data_truthy (DataDoc d))) eqn:Etruthy.
  - intros [= <-]. destruct (dd_type d) eqn:E; [|reflexivity].
    unfold data_truthy in Etruthy. rewrite E in Etruthy. discriminate.
  - destruct (dd_type d) as [t|], (dd_short_summary d) as [s|];
      [destruct (_normalize_text (Some s)); simpl; [|discriminate]| |
       destruct (_normalize_text (Some s)); simpl; [|discriminate]|];
      (destruct (_normalize_text (dd_long_summary d)); simpl; [|discriminate]);
      (destruct (dd_examples d) as [es|];
       [destruct (map_result new_HelpExample es); simpl; [|discriminate]|]);
      now intros [= <-].
Qed.

Lemma CommandHelpFile_load_from_data_base (self self' : CommandHelpFile)
  (data : HelpData) :
  CommandHelpFile_load_from_data self data = Ok self' ->
  HelpFile_load_from_data (base self) data = Ok (base self').
Proof.
  unfold CommandHelpFile_load_from_data.
  destruct (HelpFile_load_from_data (base self) data) as [base'|]; simpl;
    [|discriminate].
  destruct data as [text|d]; [now intros [= <-]|].
  destruct (_ || _); [now intros [= <-]|].
  destruct (map_result _ _); simpl; [|discriminate]. now intros [= <-].
Qed.

Lemma _load_from_data_file (node node' : HelpNode) (data : HelpData) :
  _load_from_data node data = Ok node' ->
  HelpFile_load_from_data (node_file node) data = Ok (node_file node')
  /\ is_GroupHelpFile node' = is_GroupHelpFile node
  /\ is_CommandHelpFile node' = is_CommandHelpFile node.
Proof.
  destruct node as [file|file children|c]; simpl.
  - destruct (HelpFile_load_from_data file data); simpl; [|discriminate].
    now intros [= <-].
  - destruct (HelpFile_load_from_data file data); simpl; [|discriminate].
    now intros [= <-].
  - destruct (CommandHelpFile_load_from_data c data) as [c'|] eqn:E; simpl;
      [|discriminate].
    intros [= <-]. now apply CommandHelpFile_load_from_data_base in E.
Qed.

Section DetailedHelp.
Variable str : pyval -> string.

(** The help is printed by the type text of the help file, not by its
    class, and override data can change the type: once a mapping with
    the type [group] was loaded into a help file that is not a group's,
    the help ends with an [AttributeError] after the header, and once one
    with the type [command] was loaded into a help file that is not a
    command's, after the header and the title of the arguments. *)
Theorem override_type_breaks_help (cli_name : string) (node node' : HelpNode)
  (d : DocData) :
  _load_from_data node (DataDoc d) = Ok node' ->
  (dd_type d = Some "group" -> is_GroupHelpFile node = false ->
   _print_detailed_help str cli_name node'
   = (_print_header cli_name (node_file node'), Raise AttributeError))
  /\ (dd_type d = Some "command" -> is_CommandHelpFile node = false ->
      _print_detailed_help str cli_name node'
      = (_print_header cli_name (node_file node')
         ++ [Indented "Arguments" 0 None], Raise AttributeError)).
Proof.
  intros Hload. apply _load_from_data_file in Hload as (Hfile & Hgroup & Hcommand).
  apply HelpFile_load_from_data_type in Hfile.
  split; intros Htype Hclass; rewrite Htype in Hfile; simpl in Hfile;
    unfold _print_detailed_help; rewrite Hfile; simpl.
  - rewrite <- Hgroup in Hclass. destruct node'; [| discriminate |];
      simpl; now rewrite app_nil_r.
  - rewrite <- Hcommand in Hclass. destruct node'; [| | discriminate]; reflexivity.
Qed.
End DetailedHelp.

(** A mapping that gives a type only. *)
Definition type_doc (t : string) : DocData :=
  {| dd_type := Some t; dd_short_summary := None; dd_long_summary := None;
     dd_examples := None; dd_parameters := None |}.

Lemma override_type_breaks_help_witness :
  _print_detailed_help str_scalar "az"
    (CommandFile {| base := with_file_type "group" (base create_command);
                    parameters := parameters create_command |})
  = ([Indented EmptyString 0 None; Indented "Group" 0 None;
      Indented "az vm create" 1 None; Indented EmptyString 0 None],
     Raise AttributeError).
Proof.
  assert (Hload : _load_from_data (CommandFile create_command)
                    (DataDoc (type_doc "group"))
                  = Ok (CommandFile
                          {| base := with_file_type "group" (base create_command);
                             parameters := parameters create_command |}))
    by (vm_compute; reflexivity).
  destruct (override_type_breaks_help str_scalar "az" _ _ _ Hload) as [Hgroup _].
  rewrite (Hgroup eq_refl eq_refl). vm_compute. reflexivity.
Defined.

(** *** What loading keeps *)

(** The path, the name and the command text of a help file. *)
Definition same_path (h h' : HelpFile) : Prop :=
  delimiters h' = delimiters h /\ file_name h' = file_name h
  /\ command h' = command h.

(** The children of a group's help file, none for the other classes. *)
Definition node_children (node : HelpNode) : list HelpNode :=
  match node with
  | GroupFile _ children => children
  | _ => []
  end.

Lemma same_path_refl (h : HelpFile) : same_path h h.
Proof. now repeat split. Qed.

Lemma same_path_trans (h1 h2 h3 : HelpFile) :
  same_path h1 h2 -> same_path h2 h3 -> same_path h1 h3.
Proof. unfold same_path. intros (? & ? & ?) (? & ? & ?). repeat split; congruence. Qed.

Lemma set_short_summary_path (value : option string) (h h' : HelpFile) :
  set_short_summary value h = Ok h' -> same_path h h'.
Proof.
  unfold set_short_summary. destruct (_normalize_text value); simpl; [|discriminate].
  intros [= <-]. now repeat split.
Qed.

Lemma set_long_summary_path (value : option string) (h h' : HelpFile) :
  set_long_summary value h = Ok h' -> same_path h h'.
Proof.
  unfold set_long_summary. destruct (_normalize_text value); simpl; [|discriminate].
  intros [= <-]. now repeat split.
Qed.

Lemma load_description_path (description : option string) (h h' : HelpFile) :
  load_description description h = Ok h' -> same_path h h'.
Proof.
  destruct description as [d|]; [|apply set_short_summary_path].
  destruct (index_char "."%char d) as [i|] eqn:Hi.
  - destruct (index_char_split _ _ _ Hi) as [Hd Hnone].
    rewrite Hd at 1. rewrite (load_description_period _ _ h Hnone).
    destruct (set_short_summary (Some (str_take i d)) h) as [h1|] eqn:E1; simpl;
      [|discriminate].
    intros E2. apply set_short_summary_path in E1. apply set_long_summary_path in E2.
    now apply (same_path_trans h h1 h').
  - rewrite (load_description_no_period d h Hi). apply set_short_summary_path.
Qed.

Lemma with_node_file_file (file : HelpFile) (node : HelpNode) :
  node_file (with_node_file file node) = file
  /\ is_GroupHelpFile (with_node_file file node) = is_GroupHelpFile node
  /\ is_CommandHelpFile (with_node_file file node) = is_CommandHelpFile node
  /\ node_children (with_node_file file node) = node_children node.
Proof. now destruct node. Qed.

Lemma _load_from_data_children (node node' : HelpNode) (data : HelpData) :
  _load_from_data node data = Ok node' ->
  node_children node' = node_children node.
Proof.
  destruct node as [file|file children|c]; simpl.
  - destruct (HelpFile_load_from_data file data); simpl; [|discriminate].
    now intros [= <-].
  - destruct (HelpFile_load_from_data file data); simpl; [|discriminate].
    now intros [= <-].
  - destruct (CommandHelpFile_load_from_data c data); simpl; [|discriminate].
    now intros [= <-].
Qed.

(** What stays of a help object when it is loaded. *)
Definition same_object (node node' : HelpNode) : Prop :=
  same_path (node_file node) (node_file node')
  /\ is_GroupHelpFile node' = is_GroupHelpFile node
  /\ is_CommandHelpFile node' = is_CommandHelpFile node
  /\ node_children node' = node_children node.

Lemma _load_from_data_object (node node' : HelpNode) (data : HelpData) :
  _load_from_data node data = Ok node' -> same_object node node'.
Proof.
  intros Hload. pose proof (_load_from_data_children _ _ _ Hload) as Hchildren.
  apply _load_from_data_file in Hload as (Hfile & Hgroup & Hcommand).
  apply HelpFile_load_from_data_identity in Hfile.
  now repeat split.
Qed.

Section LoadingProps.
Variable yaml_load : string -> pyres (option HelpData).
Variable _load_help_file : string -> pyres (option HelpData).

Lemma _load_from_file_object (node node' : HelpNode) :
  _load_from_file _load_help_file node = Ok node' -> same_object node node'.
Proof.
  unfold _load_from_file.
  destruct (_load_help_file (delimiters (node_file node))) as [[data|]|]; simpl;
    [| |discriminate].
  - destruct (data_truthy data); [apply _load_from_data_object|].
    intros [= <-]. now repeat split.
  - intros [= <-]. now repeat split.
Qed.

Lemma load_object (node node' : HelpNode) (options : ParserObject) :
  load yaml_load _load_help_file node options = Ok node' -> same_object node node'.
Proof.
  unfold load.
  destruct (load_description (parser_description options) (node_file node))
    as [file|] eqn:Efile; simpl; [|discriminate].
  apply load_description_path in Efile.
  destruct (with_node_file_file file node) as (Hfile & Hgroup & Hcommand & Hchildren).
  assert (Hstep : forall node', same_object (with_node_file file node) node' ->
                                same_object node node').
  { intros n (Hpath & Hg & Hc & Hch). rewrite Hfile in Hpath.
    split; [now apply (same_path_trans _ file)|]. repeat split; congruence. }
  destruct (if has_defaults options then _ else _) as [[data|]|]; simpl;
    [| |discriminate].
  - destruct (data_truthy data); intros Hload; apply Hstep.
    + now apply _load_from_data_object in Hload.
    + now apply _load_from_file_object in Hload.
  - intros Hload. apply Hstep. now apply _load_from_file_object in Hload.
Qed.

(** Loading changes the summaries, the type, the examples and the
    parameter texts of a help object, and nothing of what it is: a load
    that succeeds leaves the path, the name and the command text, the
    class of the object and the children of a group as they were,
    whatever the description and the override data. *)
Theorem load_keeps_object (node node' : HelpNode) (options : ParserObject) :
  load yaml_load _load_help_file node options = Ok node' ->
  delimiters (node_file node') = delimiters (node_file node)
  /\ file_name (node_file node') = file_name (node_file node)
  /\ command (node_file node') = command (node_file node)
  /\ is_GroupHelpFile node' = is_GroupHelpFile node
  /\ is_CommandHelpFile node' = is_CommandHelpFile node
  /\ node_children node' = node_children node.
Proof.
  intros Hload. apply load_object in Hload as ((? & ? & ?) & ? & ? & ?).
  now repeat split.
Qed.

(** The child [GroupHelpFile.__init__] makes of one choice. *)
Definition build_child (options : ParserObject) : pyres HelpNode :=
  let delimiters := join " " (tail (split (prog options))) in
  child ← (if is_group options
           then new_GroupHelpFile yaml_load _load_help_file delimiters options
           else PlainFile <$> new_HelpFile delimiters);
  load yaml_load _load_help_file child options.

Lemma new_GroupHelpFile_children (delimiters : string) (parser : ParserObject) :
  new_GroupHelpFile yaml_load _load_help_file delimiters parser
  = file ← new_HelpFile delimiters;
    children ← map_result build_child (parser_choices parser);
    Ok (GroupFile (with_file_type "group" file) children).
Proof.
  destruct parser as [p d hd hf g a choices]. cbn [new_GroupHelpFile parser_choices].
  destruct (new_HelpFile delimiters) as [file|]; [|reflexivity].
  cbn [mbind pyres_bind]. f_equal.
  induction choices as [|options choices IH]; [reflexivity|].
  cbn [map_result]. rewrite <- IH. unfold build_child.
  destruct (if is_group options then _ else _) as [child|]; [|reflexivity].
  cbn [mbind pyres_bind].
  destruct (load yaml_load _load_help_file child options); reflexivity.
Qed.

Lemma new_HelpFile_path (delimiters : string) (file : HelpFile) :
  new_HelpFile delimiters = Ok file ->
  Help.delimiters file = delimiters /\ command file = delimiters
  /\ file_type file = EmptyString.
Proof.
  unfold new_HelpFile.
  destruct (if negb (String.eqb delimiters EmptyString) then _ else _); simpl;
    [|discriminate].
  now intros [= <-].
Qed.

Lemma build_child_Ok (options : ParserObject) (child : HelpNode) :
  build_child options = Ok child ->
  Help.delimiters (node_file child) = join " " (tail (split (prog options)))
  /\ is_GroupHelpFile child = is_group options
  /\ is_CommandHelpFile child = false.
Proof.
  unfold build_child. destruct (is_group options) eqn:Egroup.
  - rewrite new_GroupHelpFile_children.
    destruct (new_HelpFile (join " " (tail (split (prog options))))) as [f|] eqn:Ef;
      simpl; [|discriminate].
    destruct (map_result build_child (parser_choices options)); simpl; [|discriminate].
    intros Hload. apply load_object in Hload as ((Hpath & _) & Hg & Hc' & _).
    simpl in *. apply new_HelpFile_path in Ef as (Hfd & _). now rewrite Hpath.
  - destruct (new_HelpFile (join " " (tail (split (prog options))))) as [f|] eqn:Ef;
      simpl; [|discriminate].
    intros Hload. apply load_object in Hload as ((Hpath & _) & Hg & Hc' & _).
    simpl in *. apply new_HelpFile_path in Ef as (Hfd & _). now rewrite Hpath.
Qed.

(** A group's help file has one child for every choice of its parser, in
    the order of the choices: a group's help file for a choice that is a
    group and a plain one for any other, never a command's, under the
    path that is the [prog] of the choice without its first word.  The
    group itself has the type [group] and the path it was given. *)
Theorem new_GroupHelpFile_tree (delimiters : string) (parser : ParserObject)
  (node : HelpNode) :
  new_GroupHelpFile yaml_load _load_help_file delimiters parser = Ok node ->
  is_GroupHelpFile node = true
  /\ Help.delimiters (node_file node) = delimiters
  /\ command (node_file node) = delimiters
  /\ file_type (node_file node) = "group"
  /\ Forall2 (fun options child =>
                Help.delimiters (node_file child)
                = join " " (tail (split (prog options)))
                /\ is_GroupHelpFile child = is_group options
                /\ is_CommandHelpFile child = false)
             (parser_choices parser) (node_children node).
Proof.
  rewrite new_GroupHelpFile_children.
  destruct (new_HelpFile delimiters) as [file|] eqn:Efile; simpl; [|discriminate].
  destruct (map_result build_child (parser_choices parser)) as [children|] eqn:E;
    simpl; [|discriminate].
  intros [= <-]. apply new_HelpFile_path in Efile as (Hd & Hc & _). simpl.
  repeat split; try assumption.
  apply map_result_Ok in E. eapply Forall2_impl; [exact E|].
  intros options child. apply build_child_Ok.
Qed.
End LoadingProps.

(** A [yaml.load] that reads every document as a plain text, a module of
    help files with data for the path [vm] only, and the parsers of a
    small CLI: [az] with the group [vm], which has the command [create],
    and the command [version]. *)
Definition text_yaml (text : string) : pyres (option HelpData) :=
  Ok (Some (DataStr text)).

Definition vm_help_files (delimiters : string) : pyres (option HelpData) :=
  if String.eqb delimiters "vm"
  then Ok (Some (DataDoc {| dd_type := None;
                            dd_short_summary := Some "manage virtual machines";
                            dd_long_summary := None; dd_examples := None;
                            dd_parameters := None |}))
  else Ok None.

Definition vm_create_parser : ParserObject :=
  MkParserObject "az vm create" (Some "Create a machine. It takes a while.")
    true (Some None) false create_parser [].

Definition version_parser : ParserObject :=
  MkParserObject "az version" None true (Some (Some "show the version"))
    false create_parser [].

Definition vm_parser : ParserObject :=
  MkParserObject "az vm" (Some "machines") true (Some None) true
    {| _actions := [] |} [vm_create_parser].

Definition az_parser : ParserObject :=
  MkParserObject "az" None true (Some None) true {| _actions := [] |}
    [vm_parser; version_parser].

Lemma load_keeps_object_witness :
  exists node',
    load text_yaml vm_help_files (CommandFile create_command) vm_create_parser
    = Ok node'
    /\ delimiters (node_file node') = "vm create"
    /\ is_CommandHelpFile node' = true
    /\ file_short_summary (node_file node') = "Create a machine.".
Proof.
  destruct (load text_yaml vm_help_files (CommandFile create_command)
              vm_create_parser) as [node'|e] eqn:E.
  - exists node'. split; [reflexivity|].
    destruct (load_keeps_object text_yaml vm_help_files _ _ _ E)
      as (Hd & _ & _ & _ & Hc & _).
    split; [exact Hd|]. split; [exact Hc|].
    vm_compute in E. injection E as <-. reflexivity.
  - vm_compute in E. discriminate.
Defined.

Lemma new_GroupHelpFile_tree_witness :
  exists node,
    new_GroupHelpFile text_yaml vm_help_files EmptyString az_parser = Ok node
    /\ map (fun child => (delimiters (node_file child), is_GroupHelpFile child,
                          file_short_summary (node_file child)))
           (node_children node)
       = [("vm", true, "Manage virtual machines.");
          ("version", false, EmptyString)]
    /\ Forall2 (fun options child =>
                  delimiters (node_file child)
                  = join " " (tail (split (prog options)))
                  /\ is_GroupHelpFile child = is_group options
                  /\ is_CommandHelpFile child = false)
               (parser_choices az_parser) (node_children node).
Proof.
  destruct (new_GroupHelpFile text_yaml vm_help_files EmptyString az_parser)
    as [node|e] eqn:E.
  - exists node. split; [reflexivity|]. split.
    + vm_compute in E. injection E as <-. reflexivity.
    + now apply (new_GroupHelpFile_tree text_yaml vm_help_files _ _ _ E).
  - vm_compute in E. discriminate.
Defined.

(** *** The privacy statement *)

Section WelcomeProps.
Context {config stream : Type}.
Variable getboolean : config -> string -> string -> bool -> pyres bool.
Variable set_value : config -> string -> string -> string -> pyres config.
Variable print_out_file : stream -> string -> stream * pyres unit.

(** A configuration reads back as true the flag that was set to [yes]. *)
Definition keeps_first_run : Prop :=
  forall c c', set_value c "core" "first_run" "yes" = Ok c' ->
               getboolean c' "core" "first_run" false = Ok true.

(** The privacy statement is shown once: after a call that returned, on
    a configuration that reads back the flag it was given, a further
    call prints nothing and changes nothing, whatever the output. *)
Theorem show_privacy_statement_once (self self' : CLIHelp) (out out' : stream) :
  keeps_first_run ->
  show_privacy_statement getboolean set_value print_out_file self out
  = (self', out', Ok tt) ->
  forall out'',
    show_privacy_statement getboolean set_value print_out_file self' out''
    = (self', out'', Ok tt).
Proof.
  intros Hkeeps. unfold show_privacy_statement.
  destruct (cli_ctx self) as [c|] eqn:Ectx; [|discriminate].
  destruct (getboolean c "core" "first_run" false) as [[]|] eqn:Eget;
    [| |discriminate]; simpl.
  - intros [= <- <-] out''. now rewrite Ectx, Eget.
  - destruct (if nonempty (privacy_statement self) then _ else _)
      as [out1 [[]|]]; [|discriminate].
    destruct (set_value c "core" "first_run" "yes") as [c'|] eqn:Eset;
      [|discriminate].
    intros [= <- <-] out''. simpl. now rewrite (Hkeeps c c' Eset).
Qed.
End WelcomeProps.

(** A configuration that holds the flag only, and a help with a privacy
    statement on its first run. *)
Definition flag_getboolean (c : bool) (section option : string) (fallback : bool)
  : pyres bool := Ok c.

Definition flag_set_value (c : bool) (section option value : string)
  : pyres bool := Ok true.

Definition first_run_help : CLIHelp :=
  {| cli_ctx := Some false; privacy_statement := "Nothing is collected.";
     welcome_message := "Welcome." |}.

Lemma show_privacy_statement_once_witness :
  show_privacy_statement flag_getboolean flag_set_value ascii_print
    first_run_help EmptyString
  = (with_config true first_run_help, "Nothing is collected." +:+ newline, Ok tt)
  /\ show_privacy_statement flag_getboolean flag_set_value ascii_print
       (with_config true first_run_help) ("Nothing is collected." +:+ newline)
     = (with_config true first_run_help, "Nothing is collected." +:+ newline, Ok tt).
Proof.
  assert (Hfirst : show_privacy_statement flag_getboolean flag_set_value ascii_print
                     first_run_help EmptyString
                   = (with_config true first_run_help,
                      "Nothing is collected." +:+ newline, Ok tt))
    by reflexivity.
  split; [exact Hfirst|].
  apply (show_privacy_statement_once flag_getboolean flag_set_value ascii_print
           first_run_help (with_config true first_run_help) EmptyString
           ("Nothing is collected." +:+ newline)).
  - intros c c' [= <-]. reflexivity.
  - exact Hfirst.
Defined.

(** *** The summary beside a parameter *)

Lemma prefix_app (sub b : string) : String.prefix sub (sub +:+ b) = true.
Proof.
  induction sub as [|c sub IH]; [rewrite append_nil_l; now destruct b|].
  rewrite append_cons. simpl. now destruct (ascii_dec c c).
Qed.

Lemma prefix_split (sub s : string) :
  String.prefix sub s = true -> exists b, s = sub +:+ b.
Proof.
  revert s. induction sub as [|c sub IH]; intros s.
  - intros _. now exists s.
  - destruct s as [|x s]; simpl; [discriminate|].
    destruct (ascii_dec c x) as [->|]; [|discriminate].
    intros [b ->]%IH. now exists b.
Qed.

(** [find] gives the place of the first occurrence. *)
Lemma find_from_Some (sub s : string) (i j : nat) :
  find_from sub s i = Some j ->
  exists a b, s = a +:+ sub +:+ b /\ j = (i + String.length a)%nat
              /\ forall a' b', s = a' +:+ sub +:+ b' ->
                               (String.length a <= String.length a')%nat.
Proof.
  revert i. induction s as [|c s IH]; intros i.
  - cbn [find_from]. destruct (String.prefix sub EmptyString) eqn:E; [|discriminate].
    intros [= <-]. apply prefix_split in E as [b Hb].
    exists EmptyString, b. split; [exact Hb|]. split; [simpl; lia|].
    intros a' b' _. simpl. lia.
  - cbn [find_from]. destruct (String.prefix sub (String c s)) eqn:E.
    + intros [= <-]. apply prefix_split in E as [b Hb].
      exists EmptyString, b. split; [exact Hb|]. split; [simpl; lia|].
      intros a' b' _. simpl. lia.
    + intros Hfind. destruct (IH _ Hfind) as (a & b & -> & -> & Hmin).
      exists (String c a), b. split; [reflexivity|]. split; [simpl; lia|].
      intros a' b' Ha'. destruct a' as [|x a'].
      * rewrite append_nil_l in Ha'. rewrite Ha', prefix_app in E. discriminate.
      * rewrite append_cons in Ha'. injection Ha' as _ Ha'.
        specialize (Hmin a' b' Ha'). simpl. lia.
Qed.

Lemma find_from_None (sub s : string) (i : nat) :
  find_from sub s i = None -> forall a b, s <> a +:+ sub +:+ b.
Proof.
  revert i. induction s as [|c s IH]; intros i.
  - cbn [find_from]. destruct (String.prefix sub EmptyString) eqn:E; [discriminate|].
    intros _ a b Hs. destruct a; [|discriminate].
    rewrite append_nil_l in Hs. rewrite Hs, prefix_app in E. discriminate.
  - cbn [find_from]. destruct (String.prefix sub (String c s)) eqn:E; [discriminate|].
    intros Hfind a b Hs. destruct a as [|x a].
    + rewrite append_nil_l in Hs. rewrite Hs, prefix_app in E. discriminate.
    + rewrite append_cons in Hs. injection Hs as _ Hs. now apply (IH _ Hfind a b).
Qed.

Lemma str_take_all (s : string) : str_take (String.length s) s = s.
Proof. induction s as [|c s IH]; simpl; [reflexivity | now rewrite IH]. Qed.

Lemma append_same_length (a a' b b' : string) :
  a +:+ b = a' +:+ b' -> String.length a = String.length a' -> a = a'.
Proof.
  revert a'. induction a as [|c a IH]; intros [|c' a']; try discriminate;
    [reflexivity|].
  rewrite !append_cons. intros [= -> Hab] [= Hlen]. f_equal. now apply IH.
Qed.

Section SummaryProps.
Variable str : pyval -> string.

(** Of the short summary of a parameter, the argument listing shows what
    comes before the first [ Possible values include], and all of it
    when that text does not occur; the allowed values, the default and
    the value sources follow, and the whole is stripped. *)
Theorem shown_summary_cut (p : HelpParameter) :
  (forall a b,
     param_short_summary p = a +:+ possible_values +:+ b ->
     (forall a' b', param_short_summary p = a' +:+ possible_values +:+ b' ->
                    (String.length a <= String.length a')%nat) ->
     shown_summary str p = strip (a +:+ _get_choices_defaults_sources_str str p))
  /\ ((forall a b, param_short_summary p <> a +:+ possible_values +:+ b) ->
      shown_summary str p
      = strip (param_short_summary p +:+ _get_choices_defaults_sources_str str p)).
Proof.
  unfold shown_summary.
  assert (Hs : (if nonempty (param_short_summary p)
                then param_short_summary p else EmptyString)
               = param_short_summary p)
    by (now destruct (param_short_summary p)).
  rewrite Hs. clear Hs. unfold find.
  destruct (find_from possible_values (param_short_summary p) 0) as [j|] eqn:E.
  - apply find_from_Some in E as (a0 & b0 & Hs0 & -> & Hmin0). split.
    + intros a b Hs Hmin.
      assert (a = a0) as ->.
      { apply (append_same_length a a0 (possible_values +:+ b) (possible_values +:+ b0));
          [congruence|].
        pose proof (Hmin a0 b0 Hs0). pose proof (Hmin0 a b Hs). lia. }
      rewrite Hs0 at 1. simpl Nat.add. now rewrite str_take_app.
    + intros Hnone. now destruct (Hnone a0 b0).
  - split.
    + intros a b Hs _. now destruct (find_from_None _ _ _ E a b).
    + intros _. now rewrite str_take_all.
Qed.
End SummaryProps.

(** A parameter whose help text ends with the values argparse was told
    of. *)
Definition size_param : HelpParameter :=
  {| name := "--size"; required := false; param_type := "string";
     param_short_summary := "The size. Possible values include: S, M.";
     param_long_summary := EmptyString; value_sources := [];
     choices := Some ["S"; "M"]; default_value := PStr "M"; group_name := None |}.

Lemma shown_summary_cut_witness :
  shown_summary str_scalar size_param
  = "The size.  Allowed values: M, S.  Default: M.".
Proof.
  assert (Hfirst : forall a' b',
             param_short_summary size_param = a' +:+ possible_values +:+ b' ->
             (String.length "The size." <= String.length a')%nat).
  { intros a' b' Hs.
    assert (Hfind : find_from possible_values (param_short_summary size_param) 0
                    = Some 9%nat) by (vm_compute; reflexivity).
    apply find_from_Some in Hfind as (a0 & b0 & _ & Hlen & Hmin).
    specialize (Hmin a' b' Hs). simpl in *. lia. }
  rewrite (proj1 (shown_summary_cut str_scalar size_param)
             "The size." ": S, M." eq_refl Hfirst).
  vm_compute. reflexivity.
Defined.

(** *** The help of a command, from the parser to the listing *)

(** The parameters of a command's help file, none for the other
    classes. *)
Definition node_parameters (node : HelpNode) : list HelpParameter :=
  match node with
  | CommandFile c => parameters c
  | _ => []
  end.

(** What a parameter keeps of its action through the merges: the name
    and the required flag. *)
Definition same_name (p p' : HelpParameter) : Prop :=
  name p' = name p /\ required p' = required p.

Lemma CommandHelpFile_load_from_data_names (self self' : CommandHelpFile)
  (data : HelpData) :
  CommandHelpFile_load_from_data self data = Ok self' ->
  Forall2 same_name (parameters self) (parameters self').
Proof.
  unfold CommandHelpFile_load_from_data.
  destruct (HelpFile_load_from_data (base self) data) as [base'|]; simpl;
    [|discriminate].
  assert (Hsame : Forall2 same_name (parameters self) (parameters self))
    by (apply Forall2_refl_on; now split).
  destruct data as [text|d]; [now intros [= <-]|].
  destruct (_ || _); [now intros [= <-]|].
  destruct (map_result _ _) as [ps|] eqn:E; simpl; [|discriminate].
  intros [= <-]. simpl. apply map_result_Ok in E.
  eapply Forall2_impl; [exact E|]. intros p p' Hp. cbv beta in Hp.
  apply load_param_signature in Hp as [(Hn & Hr & _) _]. now split.
Qed.

Lemma _load_from_data_parameters (node node' : HelpNode) (data : HelpData) :
  _load_from_data node data = Ok node' ->
  Forall2 same_name (node_parameters node) (node_parameters node').
Proof.
  destruct node as [file|file children|c]; simpl.
  - destruct (HelpFile_load_from_data file data); simpl; [|discriminate].
    intros [= <-]. constructor.
  - destruct (HelpFile_load_from_data file data); simpl; [|discriminate].
    intros [= <-]. constructor.
  - destruct (CommandHelpFile_load_from_data c data) as [c'|] eqn:E; simpl;
      [|discriminate].
    intros [= <-]. now apply CommandHelpFile_load_from_data_names in E.
Qed.

Lemma with_node_file_parameters (file : HelpFile) (node : HelpNode) :
  node_parameters (with_node_file file node) = node_parameters node.
Proof. now destruct node. Qed.

Lemma is_entry_header (cli_name : string) (h : HelpFile) :
  List.filter is_entry (_print_header cli_name h) = [].
Proof.
  unfold _print_header. rewrite !List.filter_app. simpl.
  now destruct (nonempty (file_long_summary h)).
Qed.

Lemma is_entry_examples (h : HelpFile) :
  List.filter is_entry (_print_examples h) = [].
Proof.
  unfold _print_examples. rewrite List.filter_app. simpl.
  induction (examples h) as [|e es IH]; [reflexivity|]. simpl. exact IH.
Qed.

(** The titles of the listings are printed with the listings only:
    neither the header nor the examples have them. *)
Lemma title_not_in_header (title cli_name : string) (h : HelpFile) :
  title <> EmptyString -> title <> "Command" -> title <> "Group" ->
  Indented title 0 None ∉ _print_header cli_name h.
Proof.
  intros Hempty Hcommand Hgroup.
  unfold _print_header. rewrite !elem_of_app, !elem_of_cons, !elem_of_nil.
  destruct (String.eqb (file_type h) "command"),
    (nonempty (file_long_summary h));
    rewrite ?elem_of_cons, ?elem_of_nil; intros H;
    repeat match goal with
           | H : _ \/ _ |- _ => destruct H as [H|H]
           end; try discriminate H; try exact H; injection H; congruence.
Qed.

Lemma title_not_in_examples (title : string) (h : HelpFile) :
  title <> "Examples" -> Indented title 0 None ∉ _print_examples h.
Proof.
  intros Hexamples.
  unfold _print_examples. rewrite elem_of_app, !elem_of_cons, elem_of_nil.
  intros [[H|[H|[]]]|H]; try discriminate H; [injection H; congruence|].
  induction (examples h) as [|e es IH]; simpl in H; [inversion H|].
  rewrite !elem_of_cons in H. destruct H as [H|[H|[H|H]]]; try discriminate H.
  now apply IH.
Qed.

(** What the help prints around a listing has no entry and none of the
    titles of the listings. *)
Definition no_listing (requests : list request) : Prop :=
  List.filter is_entry requests = []
  /\ forall title, title ∈ ["Arguments"; "Subgroups:"; "Commands:"] ->
                   Indented title 0 None ∉ requests.

Lemma no_listing_header (cli_name : string) (h : HelpFile) :
  no_listing (_print_header cli_name h).
Proof.
  split; [apply is_entry_header|]. intros title Htitle.
  apply title_not_in_header; intros ->; repeat (apply elem_of_cons in Htitle as [Htitle|Htitle]; [discriminate|]); inversion Htitle.
Qed.

Lemma no_listing_examples (h : HelpFile) :
  no_listing (match examples h with
              | [] => []
              | _ => _print_examples h
              end).
Proof.
  destruct (examples h) eqn:E.
  - split; [reflexivity|]. intros title _. apply not_elem_of_nil.
  - split; [apply is_entry_examples|]. intros title Htitle.
    apply title_not_in_examples; intros ->; repeat (apply elem_of_cons in Htitle as [Htitle|Htitle]; [discriminate|]); inversion Htitle.
Qed.

Section ShowHelpProps.
Variable str : pyval -> string.
Variable yaml_load : string -> pyres (option HelpData).
Variable _load_help_file : string -> pyres (option HelpData).

Lemma load_parameters (node node' : HelpNode) (options : ParserObject) :
  load yaml_load _load_help_file node options = Ok node' ->
  Forall2 same_name (node_parameters node) (node_parameters node').
Proof.
  unfold load.
  destruct (load_description (parser_description options) (node_file node))
    as [file|]; simpl; [|discriminate].
  rewrite <- (with_node_file_parameters file node).
  generalize (with_node_file file node). intros n.
  assert (Hrefl : Forall2 same_name (node_parameters n) (node_parameters n))
    by (apply Forall2_refl_on; now split).
  assert (Hfile : forall n',
             _load_from_file _load_help_file n = Ok n' ->
             Forall2 same_name (node_parameters n) (node_parameters n')).
  { intros n'. unfold _load_from_file.
    destruct (_load_help_file (delimiters (node_file n))) as [[data|]|]; simpl;
      [| |discriminate].
    - destruct (data_truthy data); [apply _load_from_data_parameters|].
      now intros [= <-].
    - now intros [= <-]. }
  destruct (if has_defaults options then _ else _) as [[data|]|]; simpl;
    [| |discriminate].
  - destruct (data_truthy data); [apply _load_from_data_parameters | apply Hfile].
  - apply Hfile.
Qed.

(** The help of a command lists the options of its parser: when
    [show_help] prints the help of a command to its end, with the title
    of the arguments in it, the lines of the listing are those of one
    parameter for each action of the parser that is not suppressed, under
    the sorted flags of the action and with its required flag, whatever
    the description and the override data were; they come in the order
    of the sort. *)
Theorem show_help_lists_actions (cli_name : string) (nouns : list string)
  (parser : ParserObject) (requests : list request) :
  show_help str yaml_load _load_help_file cli_name nouns parser false
  = (requests, Ok tt) ->
  Indented "Arguments" 0 None ∈ requests ->
  exists ps,
    Forall2 (fun a p => name p = action_name a /\ required p = action_required a)
            (shown_actions (parser_actions parser)) ps
    /\ List.filter is_entry requests
       = map (argument_line str (max_name_length ps)) (arguments_order ps).
Proof.
  unfold show_help. cbn [negb].
  destruct (new_CommandHelpFile (join " " nouns) (parser_actions parser))
    as [c|] eqn:Enew; [|discriminate].
  cbn [fmap pyres_fmap mbind pyres_bind].
  destruct (load yaml_load _load_help_file (CommandFile c) parser) as [node|] eqn:Eload;
    [|discriminate].
  cbn [mbind pyres_bind].
  pose proof (load_parameters _ _ _ Eload) as Hload.
  pose proof (load_object yaml_load _load_help_file _ _ _ Eload)
    as (_ & _ & Hclass & _).
  set (shown := match nouns with
                | [] => with_node_file (with_command EmptyString (node_file node)) node
                | _ => node
                end).
  assert (Hshown : node_parameters shown = node_parameters node
                   /\ is_CommandHelpFile shown = true).
  { unfold shown. destruct nouns.
    - rewrite with_node_file_parameters.
      now destruct (with_node_file_file (with_command EmptyString (node_file node)) node)
        as (_ & _ & -> & _).
    - split; [reflexivity | exact Hclass]. }
  destruct Hshown as [Hps Hcommand]. rewrite <- Hps in Hload. clearbody shown.
  destruct shown as [| |c']; try discriminate. simpl in Hload.
  (* the parameters of the built command *)
  assert (Hbuilt : Forall2 (fun a p => name p = action_name a
                                       /\ required p = action_required a)
                     (shown_actions (parser_actions parser)) (parameters c)
                   /\ parameters c <> []).
  { unfold new_CommandHelpFile in Enew.
    destruct (new_HelpFile (join " " nouns)) as [file0|]; simpl in Enew;
      [|discriminate].
    change (map_result _ (List.filter _ (_actions (parser_actions parser))))
      with (map_result build_parameter (shown_actions (parser_actions parser)))
      in Enew.
    destruct (map_result build_parameter (shown_actions (parser_actions parser)))
      as [ps0|] eqn:E0; simpl in Enew; [|discriminate].
    destruct (force_help_group ps0) as [ps1|] eqn:E1; simpl in Enew; [|discriminate].
    injection Enew as <-. simpl. split.
    - apply map_result_Ok in E0. apply force_help_group_Forall2 in E1.
      eapply Forall2_compose; [|exact E0|exact E1].
      intros act p p' Ha Hp. cbv beta in *.
      apply build_parameter_fields in Ha as (Hn & Hr & _).
      destruct Hp as [->|[_ ->]]; simpl; now split.
    - apply force_help_group_Ok in E1 as (before & p & after & _ & -> & _).
      now destruct before. }
  destruct Hbuilt as [Hbuilt Hne].
  assert (Hne' : parameters c' <> []).
  { intros Hnil. rewrite Hnil in Hload. inversion Hload; subst. now apply Hne. }
  unfold _print_detailed_help. cbv zeta. cbn [node_file].
  pose proof (no_listing_header cli_name (base c')) as [Hheader Htitle].
  pose proof (no_listing_examples (base c')) as [Hex Hex'].
  specialize (Htitle "Arguments" ltac:(repeat constructor)).
  specialize (Hex' "Arguments" ltac:(repeat constructor)).
  revert Hheader Htitle Hex Hex'.
  generalize (_print_header cli_name (base c')) as header.
  generalize (match examples (base c') with
              | [] => []
              | _ => _print_examples (base c')
              end) as shown_examples.
  intros shown_examples header Hheader Htitle Hex Hex'.
  assert (Hargs : List.filter is_entry (fst (_print_arguments str c'))
                  = map (argument_line str (max_name_length (parameters c')))
                      (arguments_order (parameters c'))).
  { unfold _print_arguments. destruct (parameters c') eqn:E; [contradiction|].
    cbn [fst]. apply print_each_argument_entries. }
  revert Hargs. generalize (fst (_print_arguments str c')) as listing.
  intros listing Hargs.
  destruct (String.eqb (file_type (base c')) "command").
  - cbn [fst snd]. intros [= <-] _. exists (parameters c'). split.
    + eapply Forall2_compose; [|exact Hbuilt|exact Hload].
      intros act p p' [Hn Hr] [Hn' Hr']. split; congruence.
    + rewrite List.filter_app, Hheader. cbn [List.filter is_entry app].
      now rewrite List.filter_app, Hargs, Hex, app_nil_r.
  - destruct (String.eqb (file_type (base c')) "group"); [discriminate|].
    cbn [fst snd]. intros [= <-] Hin. exfalso.
    rewrite !elem_of_app in Hin. destruct Hin as [Hin|Hin].
    + now apply Htitle.
    + now apply Hex'.
Qed.

(** The help of a group lists the choices of its parser: when
    [show_help] prints the help of a group to its end, with the title of
    the subgroups or of the commands in it, the lines of the listing are
    those of one child for each choice of the parser, a group's for a
    choice that is a group, under the [prog] of the choice without its
    first word, whatever the descriptions and the override data were. *)
Theorem show_help_lists_choices (cli_name : string) (nouns : list string)
  (parser : ParserObject) (requests : list request) :
  show_help str yaml_load _load_help_file cli_name nouns parser true
  = (requests, Ok tt) ->
  Indented "Subgroups:" 0 None ∈ requests
  \/ Indented "Commands:" 0 None ∈ requests ->
  exists children,
    Forall2 (fun options child =>
               delimiters (node_file child) = join " " (tail (split (prog options)))
               /\ is_GroupHelpFile child = is_group options)
            (parser_choices parser) children
    /\ Permutation (List.filter is_entry requests)
                   (map (group_entry (longest_name children)) children).
Proof.
  unfold show_help. cbn [negb].
  destruct (new_GroupHelpFile yaml_load _load_help_file (join " " nouns) parser)
    as [built|] eqn:Enew; [|discriminate].
  cbn [mbind pyres_bind].
  destruct (load yaml_load _load_help_file built parser) as [node|] eqn:Eload;
    [|discriminate].
  cbn [mbind pyres_bind].
  pose proof (load_object yaml_load _load_help_file _ _ _ Eload)
    as (_ & Hclass & _ & Hchildren).
  rewrite new_GroupHelpFile_children in Enew.
  destruct (new_HelpFile (join " " nouns)) as [file0|]; simpl in Enew; [|discriminate].
  destruct (map_result (build_child yaml_load _load_help_file) (parser_choices parser))
    as [children|] eqn:Echildren; simpl in Enew; [|discriminate].
  injection Enew as <-. simpl in Hclass, Hchildren.
  apply map_result_Ok in Echildren.
  set (shown := match nouns with
                | [] => with_node_file (with_command EmptyString (node_file node)) node
                | _ => node
                end).
  assert (Hshown : node_children shown = children /\ is_GroupHelpFile shown = true).
  { unfold shown. destruct nouns; [|now split].
    destruct (with_node_file_file (with_command EmptyString (node_file node)) node)
      as (_ & -> & _ & ->). now split. }
  destruct Hshown as [Hcs Hgroup]. clearbody shown.
  destruct shown as [|file' cs|]; try discriminate. simpl in Hcs. subst cs.
  unfold _print_detailed_help. cbv zeta. cbn [node_file].
  pose proof (no_listing_header cli_name file') as [Hheader Htitle].
  pose proof (no_listing_examples file') as [Hex Hex'].
  revert Hheader Htitle Hex Hex'.
  generalize (_print_header cli_name file') as header.
  generalize (match examples file' with
              | [] => []
              | _ => _print_examples file'
              end) as shown_examples.
  intros shown_examples header Hheader Htitle Hex Hex'.
  destruct (String.eqb (file_type file') "command"); [discriminate|].
  destruct (String.eqb (file_type file') "group").
  - cbn [fst snd]. intros [= <-] _. exists children. split.
    + eapply Forall2_impl; [exact Echildren|]. intros options child Hchild.
      apply build_child_Ok in Hchild as (Hd & Hg & _). now split.
    + rewrite !List.filter_app, Hheader, Hex, app_nil_r. simpl.
      apply _print_groups_children.
  - cbn [fst snd]. intros [= <-] Hin. exfalso.
    destruct Hin as [Hin|Hin]; rewrite !elem_of_app in Hin;
      destruct Hin as [Hin|Hin];
      first [eapply Htitle; [|exact Hin] | eapply Hex'; [|exact Hin]];
      repeat constructor.
Qed.
End ShowHelpProps.

Lemma show_help_lists_actions_witness :
  exists ps,
    Forall2 (fun a p => name p = action_name a /\ required p = action_required a)
            (shown_actions (parser_actions vm_create_parser)) ps
    /\ List.filter is_entry
         (fst (show_help str_scalar text_yaml vm_help_files "az" ["vm"; "create"]
                 vm_create_parser false))
       = map (argument_line str_scalar (max_name_length ps)) (arguments_order ps).
Proof.
  destruct (show_help str_scalar text_yaml vm_help_files "az" ["vm"; "create"]
              vm_create_parser false) as [requests r] eqn:E.
  pose proof (f_equal snd E) as Hr. vm_compute in Hr. subst r.
  pose proof (f_equal fst E) as Hrequests. vm_compute in Hrequests.
  assert (Hin : Indented "Arguments" 0 None ∈ requests).
  { subst requests.
    repeat (first [apply list_elem_of_here | apply list_elem_of_further]). }
  cbn [fst].
  exact (show_help_lists_actions str_scalar text_yaml vm_help_files "az"
           ["vm"; "create"] vm_create_parser requests E Hin).
Defined.

Lemma show_help_lists_choices_witness :
  exists children,
    Forall2 (fun options child =>
               delimiters (node_file child) = join " " (tail (split (prog options)))
               /\ is_GroupHelpFile child = is_group options)
            (parser_choices az_parser) children
    /\ Permutation
         (List.filter is_entry
            (fst (show_help str_scalar text_yaml vm_help_files "az" [] az_parser true)))
         (map (group_entry (longest_name children)) children).
Proof.
  destruct (show_help str_scalar text_yaml vm_help_files "az" [] az_parser true)
    as [requests r] eqn:E.
  pose proof (f_equal snd E) as Hr. vm_compute in Hr. subst r.
  pose proof (f_equal fst E) as Hrequests. vm_compute in Hrequests.
  assert (Hin : Indented "Subgroups:" 0 None ∈ requests).
  { subst requests.
    repeat (first [apply list_elem_of_here | apply list_elem_of_further]). }
  cbn [fst].
  exact (show_help_lists_choices str_scalar text_yaml vm_help_files "az"
           [] az_parser requests E (or_introl Hin)).
Defined.
